(** * DansScrap: offset frontier, challenge retries, crawl dedup and the
      storage merge, embedded from the Python sources

    Python values are modelled as follows.  [int] is [Z] (unbounded).  [str]
    is [string]: a sequence of bytes, so the separators the code splits on
    ([;], [.], [#], [,]) are found exactly where Python finds them in the
    UTF-8 text; the regular-expression class [\d] is modelled on the ASCII
    digits, which is what the forum markup contains.  [Optional[T]] is
    [option T].  [Set[int]] is [gset Z] and [Set[str]] is [gset string].  A
    [dict] whose order reaches the JSON output is an association list in
    insertion order. *)

From Stdlib Require Import ZArith Ascii String.
From stdpp Require Import base decidable option list numbers strings sorting gmap.

#[local] Set Warnings "-clear-no-such-hyp,-register-all".
Local Open Scope Z_scope.

(** ** Python built-ins used by the sources *)

Module Py.

(** [min(xs)] on a list; [None] stands for the [ValueError] on an empty
    sequence, which the callers guard against. *)
Definition min (xs : list Z) : option Z :=
  match xs with
  | [] => None
  | x :: xs' => Some (fold_left Z.min xs' x)
  end.

(** [sorted(xs)] on integers, ascending. *)
Definition sorted (xs : list Z) : list Z := merge_sort Z.le xs.

(** [zip(xs, ys)] *)
Fixpoint zip {A B} (xs : list A) (ys : list B) : list (A * B) :=
  match xs, ys with
  | x :: xs', y :: ys' => (x, y) :: zip xs' ys'
  | _, _ => []
  end.

(** [xs[1:]] *)
Definition drop1 {A} (xs : list A) : list A :=
  match xs with [] => [] | _ :: t => t end.

(** The ASCII decimal digits. *)
Definition is_digit (c : ascii) : bool :=
  ((48 <=? nat_of_ascii c) && (nat_of_ascii c <=? 57))%nat.

Definition digit_value (c : ascii) : Z := Z.of_nat (nat_of_ascii c) - 48.

(** [int(s)] for a string of decimal digits. *)
Fixpoint int_acc (acc : Z) (s : string) : Z :=
  match s with
  | EmptyString => acc
  | String c s' => int_acc (10 * acc + digit_value c) s'
  end.

Definition int (s : string) : Z := int_acc 0 s.

(** [sep.join(parts)] for [sep = ""] *)
Definition join (parts : list string) : string :=
  fold_right String.append EmptyString parts.

(** [s.replace(c, "")] for a one-character [c]. *)
Fixpoint remove_char (c : ascii) (s : string) : string :=
  match s with
  | EmptyString => EmptyString
  | String d s' =>
      if Ascii.eqb d c then remove_char c s' else String d (remove_char c s')
  end.

(** [c in s] for a one-character [c]. *)
Fixpoint contains (c : ascii) (s : string) : bool :=
  match s with
  | EmptyString => false
  | String d s' => Ascii.eqb d c || contains c s'
  end.

(** [s.split(c, 1)[0]]: the text before the first [c], or all of [s]. *)
Fixpoint before (c : ascii) (s : string) : string :=
  match s with
  | EmptyString => EmptyString
  | String d s' => if Ascii.eqb d c then EmptyString else String d (before c s')
  end.

(** [s.split(c, 1)[1]] when [c in s]: the text after the first [c]. *)
Fixpoint after (c : ascii) (s : string) : string :=
  match s with
  | EmptyString => EmptyString
  | String d s' => if Ascii.eqb d c then s' else after c s'
  end.

(** [re.findall(r"\d+", s)]: the maximal runs of digits, left to right.
    [run] is the run being read. *)
Definition flush_run (run : string) : list string :=
  match run with
  | EmptyString => []
  | _ => [run]
  end.

Fixpoint findall_digits_from (run : string) (s : string) : list string :=
  match s with
  | EmptyString => flush_run run
  | String c s' =>
      if is_digit c
      then findall_digits_from (run +:+ String c EmptyString) s'
      else flush_run run ++ findall_digits_from EmptyString s'
  end.

Definition findall_digits (s : string) : list string :=
  findall_digits_from EmptyString s.

(** [re.match(r"(\d+)", s)]: the leading run of digits, when there is one. *)
Fixpoint leading_digits (s : string) : string :=
  match s with
  | EmptyString => EmptyString
  | String c s' =>
      if is_digit c then String c (leading_digits s') else EmptyString
  end.



Definition match_digits (s : string) : option string :=
  match leading_digits s with
  | EmptyString => None
  | run => Some run
  end.

(** [s.replace(old, "")]: every occurrence of [old], scanned left to right
    without overlap, is dropped. [skip] counts the characters of a match
    still to be dropped. *)
Fixpoint remove_all_from (old : string) (skip : nat) (s : string) : string :=
  match s with
  | EmptyString => EmptyString
  | String c s' =>
      match skip with
      | S k => remove_all_from old k s'
      | O =>
          if String.prefix old s
          then remove_all_from old (String.length old - 1) s'
          else String c (remove_all_from old O s')
      end
  end.

Definition remove_all (old s : string) : string := remove_all_from old O s.

(** [s.lower()], on the ASCII letters; the words the sources look for in
    a lowered string are ASCII. *)
Definition lower_char (c : ascii) : ascii :=
  let n := nat_of_ascii c in
  if ((65 <=? n) && (n <=? 90))%nat then ascii_of_nat (n + 32) else c.

Fixpoint lower (s : string) : string :=
  match s with
  | EmptyString => EmptyString
  | String c s' => String (lower_char c) (lower s')
  end.

(** [sub in s] *)
Fixpoint occurs (sub s : string) : bool :=
  String.prefix sub s ||
  match s with
  | EmptyString => false
  | String _ s' => occurs sub s'
  end.

(** [s[n:]] *)
Fixpoint drop (n : nat) (s : string) : string :=
  match n, s with
  | O, _ => s
  | S k, String _ s' => drop k s'
  | S _, EmptyString => EmptyString
  end.

(** [s.rsplit(sep, 1)[-1]]: the text after the last occurrence of [sep],
    or all of [s] without one. *)
Fixpoint rfind_after (sep s : string) : option string :=
  match s with
  | EmptyString => None
  | String _ s' =>
      match rfind_after sep s' with
      | Some rest => Some rest
      | None => if String.prefix sep s then Some (drop (String.length sep) s) else None
      end
  end.

Definition after_last (sep s : string) : string :=
  default s (rfind_after sep s).

End Py.

(** ** [utils.py] *)

Module Utils.

(** [parse_int]: falsy input ([None] or the empty string) gives [None];
    otherwise commas are removed, the digit runs are joined and read as
    one integer. *)
Definition parse_int (value : option string) : option Z :=
  match value with
  | None => None
  | Some EmptyString => None
  | Some v =>
      let digits := Py.findall_digits (Py.remove_char "," v) in
      match digits with
      | [] => None
      | _ => Some (Py.int (Py.join digits))
      end
  end.

Section collect_offsets.
(** [first_value href param] stands for the library calls
    [parse_qs(urlparse(href).query)]: [None] when [param] is not a key of
    the parsed query, else the first value listed for it. *)
Variable first_value : string → string → option string.

(** The body of the loop of [collect_offsets] for one anchor;
    [None] is every [continue] and the failed [re.match]. *)
Definition link_offset (param ident : string) (href : option string)
  : option Z :=
  match href with
  | None => None
  | Some EmptyString => None
  | Some h =>
      match first_value h param with
      | None => None
      | Some value =>
          let entry := Py.before ";" value in
          if negb (Py.contains "." entry) then None
          else
            let current_ident := Py.before "." entry in
            let offset := Py.after "." entry in
            if negb (String.eqb current_ident ident) then None
            else
              let offset := Py.before "#" offset in
              match Py.match_digits offset with
              | Some run => Some (Py.int run)
              | None => None
              end
      end
  end.

(** [collect_offsets(soup, param, ident)]; [links] is the list of [href]
    attributes ([None] when absent) of the anchors selected by
    [div.pagelinks a.navPages], in document order. *)
Definition collect_offsets (links : list (option string))
    (param ident : string) : gset Z :=
  let offsets :=
    fold_left
      (λ (offsets : gset Z) href,
         match link_offset param ident href with
         | Some n => offsets ∪ {[ n ]}
         | None => offsets
         end)
      links ∅ in
  offsets ∪ {[ 0 ]}.
End collect_offsets.

(** [detect_step] *)
Definition detect_step (offsets : gset Z) (default : Z) : Z :=
  let ordered := Py.sorted (elements offsets) in
  let diffs :=
    (λ ab : Z * Z, ab.2 - ab.1) <$>
      filter (λ ab : Z * Z, ab.1 < ab.2) (Py.zip ordered (Py.drop1 ordered)) in
  let positives := filter (λ d, 0 < d) diffs in
  match Py.min positives with
  | Some d => d
  | None => default
  end.

(** Specification side: [a] and [b] are neighbours in the sorted order of
    [offsets]. *)
Definition adjacent (offsets : gset Z) (a b : Z) : Prop :=
  a ∈ offsets ∧ b ∈ offsets ∧ a < b ∧ ∀ x, x ∈ offsets → ¬ (a < x ∧ x < b).

(** [next_offset] *)
Definition next_offset (offsets : gset Z) (current : Z) : option Z :=
  let candidates := filter (λ value, current < value) (elements offsets) in
  Py.min candidates.

(** [normalize_space].  The text is a sequence of characters of any
    alphabet: [isspace c] is [c.isspace()], the class that both [\s] and
    [strip()] use, and [space] is the character [" "]. *)
Section normalize_space.
Context {char : Type}.
Variable isspace : char → bool.
Variable space : char.

(** [re.sub(r"\s+", " ", value)]: every maximal run of whitespace becomes
    one [space]; [in_run] tells that the previous character was
    whitespace. *)
Fixpoint sub_whitespace (in_run : bool) (value : list char) : list char :=
  match value with
  | [] => []
  | c :: rest =>
      if isspace c
      then if in_run then sub_whitespace true rest
           else space :: sub_whitespace true rest
      else c :: sub_whitespace false rest
  end.

(** [s.lstrip()], [s.rstrip()] and [s.strip()] *)
Fixpoint lstrip (s : list char) : list char :=
  match s with
  | [] => []
  | c :: rest => if isspace c then lstrip rest else s
  end.

Definition rstrip (s : list char) : list char := reverse (lstrip (reverse s)).

Definition strip (s : list char) : list char := rstrip (lstrip s).

Definition normalize_space (value : list char) : list char :=
  strip (sub_whitespace false value).

(** Specification side: [s.split()], the maximal runs of characters
    that are not whitespace, and [" ".join(words)]. *)
Definition flush_word (word : list char) : list (list char) :=
  match word with
  | [] => []
  | _ => [word]
  end.

Fixpoint words_from (word : list char) (s : list char) : list (list char) :=
  match s with
  | [] => flush_word word
  | c :: rest =>
      if isspace c then flush_word word ++ words_from [] rest
      else words_from (word ++ [c]) rest
  end.

Definition words (s : list char) : list (list char) := words_from [] s.

Fixpoint join_spaced (words : list (list char)) : list char :=
  match words with
  | [] => []
  | [w] => w
  | w :: rest => w ++ space :: join_spaced rest
  end.

(** Specification side: a text without whitespace at either end, whose
    only whitespace is single [space]s. *)
Fixpoint single_spaced (s : list char) : Prop :=
  match s with
  | [] => True
  | c :: rest =>
      (isspace c = true →
       c = space ∧ match rest with [] => False | d :: _ => isspace d = false end)
      ∧ single_spaced rest
  end.

Definition trimmed (s : list char) : Prop :=
  match s with
  | [] => True
  | c :: _ => isspace c = false
  end.
End normalize_space.

Section parse_board_id.
(** See [collect_offsets]. *)
Variable first_value : string → string → option string.

(** [parse_board_id] *)
Definition parse_board_id (url : string) : option string :=
  let value := default "" (first_value url "board") in
  let value :=
    if String.eqb value "" && Py.occurs "board=" url
    then Py.after_last "board=" url
    else value in
  let value := Py.before ";" value in
  let part := Py.before "." value in
  if String.eqb part "" then None else Some part.
End parse_board_id.

End Utils.

(** ** [spiders/tech_talk.py]

    The HTML of a response is not interpreted here: a page is the record of
    what the CSS selectors of the spider return on it.  A URL the spider
    builds with [urlencode] is kept by its parts; a URL taken from the page
    is the text of its [href]. *)

Module Spider.

Inductive cf_mode := Auto | Manual.
Inductive bootstrap_mode := BootstrapAuto | BootstrapSkip.
Inductive callback := ParseBoard | ParseTopic.

Inductive url :=
| BoardUrl (board_id : string) (offset : Z)   (* index.php?board=<id>.<offset> *)
| TopicUrl (topic_id : string) (offset : Z)   (* index.php?topic=<id>.<offset> *)
| Href (href : option string).                (* an href of the page *)

Inductive page_method :=
| WaitForLoadState (state : string)
| WaitForTimeout (ms : Z).

(** The keys the callbacks put into [Request.meta] through the [extra]
    argument of [_build_meta]; [None] is an absent key. *)
Record extra := Extra {
  board_offset : option Z;
  board_step : option Z;
  topic_offset : option Z;
  board_id : option string;
  topic_id : option string;
  pages_seen : option Z;
  cf_retry : option Z;
}.

Definition no_extra : extra := Extra None None None None None None None.

(** [Request.meta]: the Playwright keys of [_build_meta] and the keys of
    [extra].  [playwright_context] is the draw of [uuid4] naming a new
    context, [None] for the default context. *)
Record meta := Meta {
  playwright : bool;
  playwright_page_methods : list page_method;
  ignore_https_errors : bool;
  user_agent : string;
  viewport : Z * Z;
  storage_state : option string;
  playwright_page_init_callback : bool;
  playwright_context : option nat;
  keys : extra;
}.

Record request := Request {
  req_url : url;
  req_callback : callback;
  req_meta : meta;
  dont_filter : bool;
}.

(** A row of the topic table, as the selectors of [_extract_topics] read
    it. *)
Record topic_row := TopicRow {
  subject_link : option (option string * string);   (* href, text *)
  row_starter : option string;
  row_replies : option Z;
  row_views : option Z;
  row_last_post_author : option string;
  row_last_post_time : option string;
  row_last_post_link : option string;
}.

(** A [div.post_wrapper], as the selectors of [_extract_posts] read it:
    [inner_id] is [None] without a [div.post div.inner], else its [id]
    attribute ([""] when absent); [post_fields] stands for the author,
    subject, time, content, signature, likes and attachment fields. *)
Record post_wrapper := PostWrapper {
  inner_id : option string;
  post_fields : string;
}.

Record page := Page {
  page_title : option string;
  head_title : option string;
  page_description : option string;
  stats_text : string;
  topic_rows : list topic_row;
  pagelinks : list (option string);
  post_wrappers : list post_wrapper;
}.

Record response := Response {
  status : Z;
  resp_url : string;
  resp_request : request;
  soup : page;
}.

Definition resp_meta (r : response) : extra := keys (req_meta (resp_request r)).

Record BoardInfoItem := {
  bi_board_id : string;
  bi_name : string;
  bi_description : string;
  bi_topics : option Z;
  bi_posts : option Z;
  bi_url : string;
}.

Record TopicSummaryItem := {
  ts_board_id : string;
  ts_board_offset : Z;
  ts_topic_id : string;
  ts_subject : string;
  ts_starter : string;
  ts_replies : option Z;
  ts_views : option Z;
  ts_last_post_author : option string;
  ts_last_post_time : option string;
  ts_last_post_link : option string;
  ts_topic_url : option string;
  ts_page_url : string;
}.

Record PostItem := {
  po_board_id : string;
  po_topic_id : string;
  po_post_id : string;
  po_position : Z;
  po_fields : string;
  po_page_url : string;
}.

Inductive output :=
| YieldBoardInfo (item : BoardInfoItem)
| YieldTopicSummary (item : TopicSummaryItem)
| YieldPost (item : PostItem)
| YieldRequest (req : request).

(** The attributes of [TechTalkSpider]. [storage_state_file] is
    [storage_state_path] when it is set and the file exists; [uuid_draws]
    counts the calls of [uuid4]. *)
Record spider := SpiderState {
  self_cf_mode : cf_mode;
  self_bootstrap_mode : bootstrap_mode;
  self_board_id : string;
  fetch_posts : bool;
  max_board_pages : option Z;
  max_topics : option Z;
  topic_max_pages : option Z;
  board_pages_processed : Z;
  topic_seen : gset string;
  board_metadata_emitted : bool;
  storage_state_file : option string;
  uuid_draws : nat;
  data_dir : option string;
  storage_state_ttl : Z;
}.

Definition cf_max_retries : Z := 3.

Definition default_user_agent : string :=
  "Mozilla/5.0 (Windows NT 10.0; Win64; x64) AppleWebKit/537.36 (KHTML, like Gecko) Chrome/119.0.0.0 Safari/537.36".

(** Truth value of an [Optional[int]] limit: [None] and [0] are false. *)
Definition limit_set (limit : option Z) : bool :=
  match limit with
  | Some n => negb (n =? 0)
  | None => false
  end.

Definition with_topic_seen (self : spider) (seen : gset string) : spider :=
  SpiderState (self_cf_mode self) (self_bootstrap_mode self) (self_board_id self)
    (fetch_posts self) (max_board_pages self) (max_topics self)
    (topic_max_pages self) (board_pages_processed self) seen
    (board_metadata_emitted self) (storage_state_file self) (uuid_draws self)
    (data_dir self) (storage_state_ttl self).

Definition with_board_pages_processed (self : spider) (n : Z) : spider :=
  SpiderState (self_cf_mode self) (self_bootstrap_mode self) (self_board_id self)
    (fetch_posts self) (max_board_pages self) (max_topics self)
    (topic_max_pages self) n (topic_seen self)
    (board_metadata_emitted self) (storage_state_file self) (uuid_draws self)
    (data_dir self) (storage_state_ttl self).

Definition with_board_metadata_emitted (self : spider) (b : bool) : spider :=
  SpiderState (self_cf_mode self) (self_bootstrap_mode self) (self_board_id self)
    (fetch_posts self) (max_board_pages self) (max_topics self)
    (topic_max_pages self) (board_pages_processed self) (topic_seen self)
    b (storage_state_file self) (uuid_draws self)
    (data_dir self) (storage_state_ttl self).

Definition with_uuid_draws (self : spider) (n : nat) : spider :=
  SpiderState (self_cf_mode self) (self_bootstrap_mode self) (self_board_id self)
    (fetch_posts self) (max_board_pages self) (max_topics self)
    (topic_max_pages self) (board_pages_processed self) (topic_seen self)
    (board_metadata_emitted self) (storage_state_file self) n
    (data_dir self) (storage_state_ttl self).

(** [meta.update(extra)]: the keys present in [new] replace those of
    [old]. *)
Definition update_extra (old new : extra) : extra :=
  let pick {A} (n o : option A) := match n with Some _ => n | None => o end in
  Extra (pick (board_offset new) (board_offset old))
        (pick (board_step new) (board_step old))
        (pick (topic_offset new) (topic_offset old))
        (pick (board_id new) (board_id old))
        (pick (topic_id new) (topic_id old))
        (pick (pages_seen new) (pages_seen old))
        (pick (cf_retry new) (cf_retry old)).

(** [_build_meta(extra, new_context=...)] *)
Definition _build_meta (self : spider) (ex : extra) (new_context : bool)
  : spider * meta :=
  let manual := match self_cf_mode self with Manual => true | Auto => false end in
  let page_methods :=
    [WaitForLoadState "domcontentloaded"] ++
    (if manual then []
     else [WaitForLoadState "networkidle"; WaitForTimeout 8000]) in
  let self' :=
    if new_context then with_uuid_draws self (S (uuid_draws self)) else self in
  (self',
   Meta true page_methods true default_user_agent (1280, 720)
     (storage_state_file self)
     (negb manual)
     (if new_context then Some (uuid_draws self) else None)
     (update_extra no_extra ex)).

(** [_retry_with_new_context(response)] *)
Definition _retry_with_new_context (self : spider) (resp : response)
  : spider * option request :=
  match self_cf_mode self with
  | Manual => (self, None)
  | Auto =>
      let retry_count := default 0 (cf_retry (resp_meta resp)) in
      if bool_decide (retry_count >= cf_max_retries) then (self, None)
      else
        let ex :=
          Extra (board_offset (resp_meta resp)) None
                (topic_offset (resp_meta resp))
                (board_id (resp_meta resp))
                (topic_id (resp_meta resp))
                None
                (Some (retry_count + 1)) in
        let '(self', m) := _build_meta self ex true in
        let req := resp_request resp in
        (self', Some (Request (req_url req) (req_callback req) m true))
  end.

(** [response.status in (403, 520)] *)
Definition challenged (resp : response) : bool :=
  (status resp =? 403) || (status resp =? 520).

Section callbacks.
(** See [Utils.collect_offsets]. *)
Variable first_value : string → string → option string.

(** [utils.parse_topic_id] *)
Definition parse_topic_id (href : option string) : option string :=
  match href with
  | None => None
  | Some h =>
      match first_value h "topic" with
      | None => None
      | Some v => Some (Py.before "." (Py.before ";" v))
      end
  end.

(** [_build_board_info] *)
Definition _build_board_info (self : spider) (pg : page) (page_url : string)
  : BoardInfoItem :=
  let title :=
    match page_title pg with
    | Some t => if String.eqb t "" then None else Some t
    | None => None
    end in
  let title :=
    match title with
    | Some t => t
    | None =>
        match head_title pg with
        | Some t => t
        | None => "Board " +:+ self_board_id self
        end
    end in
  let description := default "" (page_description pg) in
  let posts :=
    if String.eqb (stats_text pg) "" then None
    else Utils.parse_int (Some (stats_text pg)) in
  Build_BoardInfoItem (self_board_id self) title description None posts page_url.

(** [_extract_topics] *)
Definition _extract_topics (self : spider) (pg : page) (offset : Z)
    (page_url : string) : list TopicSummaryItem :=
  omap
    (λ row,
       match subject_link row with
       | None => None
       | Some (topic_url, subject) =>
           match parse_topic_id topic_url with
           | None => None
           | Some id =>
               if String.eqb id "" then None
               else
                 Some (Build_TopicSummaryItem
                         (self_board_id self) offset id subject
                         (default "" (row_starter row))
                         (row_replies row) (row_views row)
                         (row_last_post_author row)
                         (row_last_post_time row)
                         (row_last_post_link row)
                         topic_url page_url)
           end
       end)
    (topic_rows pg).

(** [_schedule_topic] *)
Definition _schedule_topic (self : spider) (id : string)
    (topic_url : option string) (offset : Z) : list output :=
  let ex :=
    Extra None None (Some offset) (Some (self_board_id self)) (Some id)
          None (Some 0) in
  [YieldRequest (Request (Href topic_url) ParseTopic
                   (snd (_build_meta self ex false)) false)].

(** The loop of [parse_board] over the extracted topics. *)
Fixpoint board_topics_loop (self : spider) (topics : list TopicSummaryItem)
  : spider * list output :=
  match topics with
  | [] => (self, [])
  | topic :: rest =>
      if bool_decide (ts_topic_id topic ∈ topic_seen self)
      then board_topics_loop self rest
      else if limit_set (max_topics self)
              && bool_decide (Z.of_nat (size (topic_seen self))
                              >= default 0 (max_topics self))
      then (self, [])
      else
        let self := with_topic_seen self (topic_seen self ∪ {[ts_topic_id topic]}) in
        let scheduled :=
          if fetch_posts self
          then _schedule_topic self (ts_topic_id topic) (ts_topic_url topic) 0
          else [] in
        let '(self', outs) := board_topics_loop self rest in
        (self', YieldTopicSummary topic :: scheduled ++ outs)
  end.

(** [parse_board] *)
Definition parse_board (self : spider) (resp : response)
  : spider * list output :=
  if challenged resp then
    let '(self, retry_request) := _retry_with_new_context self resp in
    (self, match retry_request with
           | Some r => [YieldRequest r]
           | None => []
           end)
  else
    let offset := default 0 (board_offset (resp_meta resp)) in
    let '(self, info) :=
      if board_metadata_emitted self then (self, [])
      else (with_board_metadata_emitted self true,
            [YieldBoardInfo (_build_board_info self (soup resp) (resp_url resp))]) in
    let topics := _extract_topics self (soup resp) offset (resp_url resp) in
    let '(self, emitted) := board_topics_loop self topics in
    let self := with_board_pages_processed self (board_pages_processed self + 1) in
    if limit_set (max_board_pages self)
       && bool_decide (board_pages_processed self >= default 0 (max_board_pages self))
    then (self, info ++ emitted)
    else
      let offsets :=
        Utils.collect_offsets first_value (pagelinks (soup resp)) "board"
          (self_board_id self) in
      let step := Utils.detect_step offsets 25 in
      match Utils.next_offset offsets offset with
      | None => (self, info ++ emitted)
      | Some next_off =>
          let ex :=
            Extra (Some next_off) (Some step) None None None None (Some 0) in
          (self,
           info ++ emitted ++
           [YieldRequest (Request (BoardUrl (self_board_id self) next_off)
                            ParseBoard (snd (_build_meta self ex false)) false)])
      end.

(** [_extract_posts]: [idx] is the index of [enumerate]. *)
Fixpoint extract_posts_from (idx : Z) (wrappers : list post_wrapper)
    (board topic : string) (offset : Z) (page_url : string) : list PostItem :=
  match wrappers with
  | [] => []
  | wrapper :: rest =>
      let others := extract_posts_from (idx + 1) rest board topic offset page_url in
      match inner_id wrapper with
      | None => others
      | Some post_id_attr =>
          if negb (String.prefix "msg_" post_id_attr) then others
          else
            let post_id := Py.remove_all "msg_" post_id_attr in
            Build_PostItem board topic post_id (offset + idx + 1)
              (post_fields wrapper) page_url :: others
      end
  end.

Definition _extract_posts (pg : page) (board topic : string) (offset : Z)
    (page_url : string) : list PostItem :=
  extract_posts_from 0 (post_wrappers pg) board topic offset page_url.

(** [parse_topic]; [None] is the [KeyError] of [response.meta["topic_id"]]
    or [response.meta["board_id"]]. *)
Definition parse_topic (self : spider) (resp : response)
  : option (spider * list output) :=
  if challenged resp then
    let '(self, retry_request) := _retry_with_new_context self resp in
    Some (self, match retry_request with
                | Some r => [YieldRequest r]
                | None => []
                end)
  else
    match topic_id (resp_meta resp), board_id (resp_meta resp) with
    | Some topic, Some board =>
        let offset := default 0 (topic_offset (resp_meta resp)) in
        let posts :=
          YieldPost <$> _extract_posts (soup resp) board topic offset (resp_url resp) in
        let seen := default 0 (pages_seen (resp_meta resp)) + 1 in
        if limit_set (topic_max_pages self)
           && bool_decide (seen >= default 0 (topic_max_pages self))
        then Some (self, posts)
        else
          let offsets :=
            Utils.collect_offsets first_value (pagelinks (soup resp)) "topic" topic in
          match Utils.next_offset offsets offset with
          | None => Some (self, posts)
          | Some next_off =>
              let ex :=
                Extra None None (Some next_off) (Some board) (Some topic)
                      (Some seen) (Some 0) in
              Some (self,
                    posts ++
                    [YieldRequest (Request (TopicUrl topic next_off) ParseTopic
                                     (snd (_build_meta self ex false)) false)])
          end
    | _, _ => None
    end.

(** The engine hands a response to the callback of its request. *)
Definition handle (self : spider) (resp : response)
  : option (spider * list output) :=
  match req_callback (resp_request resp) with
  | ParseBoard => Some (parse_board self resp)
  | ParseTopic => parse_topic self resp
  end.

(** Board responses handled one after the other, as the engine does
    within one run; the outputs are listed page by page. *)
Fixpoint run_boards (self : spider) (resps : list response)
  : spider * list output :=
  match resps with
  | [] => (self, [])
  | resp :: rest =>
      let '(self, outs) := parse_board self resp in
      let '(self, outs') := run_boards self rest in
      (self, outs ++ outs')
  end.
(** One request followed through its retries: each element of [answers]
    is the status, URL and page of the next response; the response goes
    to the callback, and when the callback yields exactly one request
    that request is the next attempt.  The result lists the requests
    issued after the first one. *)
Fixpoint attempts (self : spider) (req : request)
    (answers : list (Z * string * page)) : spider * list request :=
  match answers with
  | [] => (self, [])
  | (st, u, pg) :: rest =>
      match handle self (Response st u req pg) with
      | Some (self', [YieldRequest retry]) =>
          let '(self'', later) := attempts self' retry rest in
          (self'', retry :: later)
      | Some (self', _) => (self', [])
      | None => (self, [])
      end
  end.
End callbacks.

(** Specification side: an answer with a challenge status. *)
Definition challenge_status (a : Z * string * page) : Prop :=
  a.1.1 = 403 ∨ a.1.1 = 520.

(** Specification side: the topics for which the outputs hold a request
    to [parse_topic], and those for which they hold a summary. *)
Definition scheduled_topics (outs : list output) : list string :=
  omap (λ o, match o with
             | YieldRequest r =>
                 match req_callback r with
                 | ParseTopic => topic_id (keys (req_meta r))
                 | ParseBoard => None
                 end
             | _ => None
             end) outs.

Definition summarized_topics (outs : list output) : list string :=
  omap (λ o, match o with
             | YieldTopicSummary t => Some (ts_topic_id t)
             | _ => None
             end) outs.

(** What one pass of a loop or callback may do to the dedup set and the
    outputs: the set only grows; the summaries are for distinct topics,
    none of them seen before and all of them seen afterwards; requests to
    [parse_topic] are only for summarized topics. *)
Definition dedup_step (self : spider) (result : spider * list output) : Prop :=
  topic_seen self ⊆ topic_seen result.1
  ∧ NoDup (summarized_topics result.2)
  ∧ (∀ id, id ∈ summarized_topics result.2 →
           (id ∉ topic_seen self) ∧ (id ∈ topic_seen result.1))
  ∧ sublist (scheduled_topics result.2) (summarized_topics result.2).


(** Specification side: a wrapper from which [_extract_posts] makes a
    post. *)
Definition extractable (w : post_wrapper) : Prop :=
  ∃ attr, inner_id w = Some attr ∧ String.prefix "msg_" attr = true.

Definition board_requests (outs : list output) : list request :=
  omap (λ o, match o with
             | YieldRequest r =>
                 match req_callback r with
                 | ParseBoard => Some r
                 | ParseTopic => None
                 end
             | _ => None
             end) outs.

(** *** The session artifact on disk

    A file has a content and a modification time.  [Path.write_text]
    opens the file for writing, which creates or truncates it, then writes
    the data and closes it; the two steps are kept apart because another
    process can read the file between them.  [Replace] is [os.replace]; no
    function of the spider issues it. *)

Record file := File { content : string; mtime : Z }.

Inductive fs_step :=
| Mkdir (dir : string)
| OpenTruncate (path : string)
| WriteClose (path : string) (data : string)
| Replace (src dst : string).

Definition fs_apply (now : Z) (fs : gmap string file) (step : fs_step)
  : gmap string file :=
  match step with
  | Mkdir _ => fs
  | OpenTruncate path => <[path := File "" now]> fs
  | WriteClose path data => <[path := File data now]> fs
  | Replace src dst =>
      match fs !! src with
      | Some f => <[dst := f]> (delete src fs)
      | None => fs
      end
  end.

Definition fs_run (now : Z) (fs : gmap string file) (steps : list fs_step)
  : gmap string file :=
  fold_left (fs_apply now) steps fs.


Definition write_text (path data : string) : list fs_step :=
  [OpenTruncate path; WriteClose path data].

(** The dict of a storage state; the empty dict is [None]. *)
Record storage_state_dict := StorageState {
  cookies : list string;
  origins : list string;
}.

Section storage_state.
(** [json.dumps(state, indent=2)] *)
Variable dumps : storage_state_dict → string.
(** [Path(__file__).resolve().parent.parent / "output"] *)
Variable default_output_dir : string.

(** [_manual_playwright_bootstrap]: [operator] is the state captured
    once the operator has solved the challenge, [None] when the operator
    types SKIP. *)
Definition _manual_playwright_bootstrap
    (operator : option storage_state_dict) (storage_path : string)
  : list fs_step * option storage_state_dict :=
  match operator with
  | None => ([], None)
  | Some state => (write_text storage_path (dumps state), Some state)
  end.

(** [_ensure_storage_state]; [auto_result] is what [_auto_bootstrap]
    returns.  The result is the storage path and the steps done on the
    disk. *)
Definition _ensure_storage_state (self : spider) (fs : gmap string file)
    (now : Z) (operator auto_result : option storage_state_dict)
  : string * list fs_step :=
  let base_dir := default default_output_dir (data_dir self) in
  let storage_path := base_dir +:+ "/playwright_state.json" in
  let fresh :=
    match fs !! storage_path with
    | Some f => bool_decide (now - mtime f < storage_state_ttl self)
    | None => false
    end in
  if fresh then (storage_path, [Mkdir base_dir])
  else
    let '(steps, state) :=
      match self_cf_mode self with
      | Manual => _manual_playwright_bootstrap operator storage_path
      | Auto =>
          match self_bootstrap_mode self with
          | BootstrapSkip => ([], None)
          | BootstrapAuto => ([], auto_result)
          end
      end in
    match state with
    | None => (storage_path, Mkdir base_dir :: steps)
    | Some st =>
        match cookies st with
        | [] => (storage_path, Mkdir base_dir :: steps)
        | _ => (storage_path,
                Mkdir base_dir :: steps ++ write_text storage_path (dumps st))
        end
    end.
End storage_state.




(** [_normalize_same_site] *)
Definition _normalize_same_site (value : option string) : string :=
  match value with
  | None => "None"
  | Some EmptyString => "None"
  | Some v =>
      let lower := Py.lower v in
      if Py.occurs "strict" lower then "Strict"
      else if Py.occurs "lax" lower then "Lax"
      else "None"
  end.

Section engine.
(** See [Utils.collect_offsets]. *)
Variable first_value : string → string → option string.

(** One chain of pages: the response to [req] goes to the callback of
    [req], and when the callback yields exactly one request, that request
    gets the next of [answers].  The result lists what the callbacks
    yielded, page by page. *)
Fixpoint follow (self : spider) (req : request)
    (answers : list (Z * string * page)) : spider * list output :=
  match answers with
  | [] => (self, [])
  | (st, u, pg) :: rest =>
      match handle first_value self (Response st u req pg) with
      | Some (self', outs) =>
          match omap (λ o, match o with YieldRequest r => Some r | _ => None end) outs with
          | [next] =>
              let '(self'', later) := follow self' next rest in
              (self'', outs ++ later)
          | _ => (self', outs)
          end
      | None => (self, [])
      end
  end.
End engine.

(** Specification side: the requests among the outputs of a callback, the
    items among them, and the board descriptions. *)
Definition requests_of (outs : list output) : list request :=
  omap (λ o, match o with YieldRequest r => Some r | _ => None end) outs.

Definition is_item (o : output) : bool :=
  match o with
  | YieldRequest _ => false
  | _ => true
  end.

Definition board_infos (outs : list output) : list BoardInfoItem :=
  omap (λ o, match o with YieldBoardInfo info => Some info | _ => None end) outs.

Definition posts_of (outs : list output) : list PostItem :=
  omap (λ o, match o with YieldPost post => Some post | _ => None end) outs.


(** Specification side: an answer without a challenge status. *)
Definition passed (a : Z * string * page) : Prop :=
  a.1.1 ≠ 403 ∧ a.1.1 ≠ 520.

End Spider.

(** ** [pipelines.py]

    JSON documents are kept as values, not as text: [json.dump] is a
    function of the value it is given, so equal values give equal files.
    Numbers are integers (the pipeline writes no other).  The identifiers
    [board_id], [topic_id] and [post_id] are strings and the sort fields
    [board_offset] and [position] are integers, as the spider produces
    them; a stored document or an item where they have another type is
    outside the model, and the functions below return [None] on it as they
    do where Python raises ([KeyError] on a missing field, [AttributeError]
    on a document that is not an object). *)

Module Pipelines.

Inductive json :=
| JNull
| JBool (b : bool)
| JInt (n : Z)
| JStr (s : string)
| JList (items : list json)
| JDict (entries : list (string * json)).

(** *** Python [dict], in insertion order *)

Section dict.
Context {K : Type} `{EqDecision K} {V : Type}.

(** [d.get(k)] *)
Fixpoint dict_get (k : K) (d : list (K * V)) : option V :=
  match d with
  | [] => None
  | (k', v) :: d' => if decide (k' = k) then Some v else dict_get k d'
  end.

(** [d[k] = v]: a present key keeps its place, a new key goes last. *)
Fixpoint dict_set (k : K) (v : V) (d : list (K * V)) : list (K * V) :=
  match d with
  | [] => [(k, v)]
  | (k', v') :: d' =>
      if decide (k' = k) then (k, v) :: d' else (k', v') :: dict_set k v d'
  end.

(** [d.update(new)] *)
Definition dict_update (d new : list (K * V)) : list (K * V) :=
  fold_left (λ acc kv, dict_set kv.1 kv.2 acc) new d.

(** [{key(x): x for x in xs}] with keys already computed *)
Definition dict_of (pairs : list (K * V)) : list (K * V) :=
  dict_update [] pairs.

(** [d.values()] *)
Definition dict_values (d : list (K * V)) : list V := d.*2.
End dict.

(** Truth value of a loaded document. *)
Definition truthy (j : json) : bool :=
  match j with
  | JNull => false
  | JBool b => b
  | JInt n => negb (n =? 0)
  | JStr s => negb (String.eqb s "")
  | JList l => match l with [] => false | _ => true end
  | JDict d => match d with [] => false | _ => true end
  end.

Fixpoint chars (s : string) : list json :=
  match s with
  | EmptyString => []
  | String c s' => JStr (String c EmptyString) :: chars s'
  end.

(** [for x in j] *)
Definition iterate (j : json) : option (list json) :=
  match j with
  | JList l => Some l
  | JStr s => Some (chars s)
  | JDict d => Some (JStr <$> d.*1)
  | _ => None
  end.

(** [j[k]] for a string [k] *)
Definition subscript (j : json) (k : string) : option json :=
  match j with
  | JDict d => dict_get k d
  | _ => None
  end.

(** [j.get(k, default)] *)
Definition get_default (j : json) (k : string) (fallback : json) : option json :=
  match j with
  | JDict d => Some (default fallback (dict_get k d))
  | _ => None
  end.

Definition as_str (j : json) : option string :=
  match j with JStr s => Some s | _ => None end.

Definition as_int (j : json) : option Z :=
  match j with JInt n => Some n | _ => None end.

(** *** [sorted(xs, key=...)] with keys [(int, str)]

    The keys are computed once; [<] on the pairs is Python's order on
    tuples, with strings compared character by character. The sort is
    stable. *)

Definition key_lt (a b : Z * string) : bool :=
  (a.1 <? b.1) || ((a.1 =? b.1) && String.ltb a.2 b.2).

Fixpoint insert_by_key {A} (x : (Z * string) * A) (l : list ((Z * string) * A))
  : list ((Z * string) * A) :=
  match l with
  | [] => [x]
  | y :: l' => if key_lt y.1 x.1 then y :: insert_by_key x l' else x :: y :: l'
  end.

Fixpoint sort_by_key {A} (l : list ((Z * string) * A)) : list ((Z * string) * A) :=
  match l with
  | [] => []
  | x :: l' => insert_by_key x (sort_by_key l')
  end.

Definition with_key {A} (key : A → option (Z * string)) (x : A)
  : option ((Z * string) * A) :=
  k ← key x; Some (k, x).

Definition sorted {A} (key : A → option (Z * string)) (xs : list A)
  : option (list A) :=
  keyed ← mapM (with_key key) xs;
  Some ((sort_by_key keyed).*2).

(** [lambda x: (x.get(sort_field, 0), x[id_field])] *)
Definition record_key (sort_field id_field : string) (x : json)
  : option (Z * string) :=
  n ← get_default x sort_field (JInt 0) ≫= as_int;
  id ← subscript x id_field ≫= as_str;
  Some (n, id).

(** [lambda t: (t.get("board_offset", 0), t["topic_id"])] *)
Definition topic_key : json → option (Z * string) :=
  record_key "board_offset" "topic_id".

(** [lambda p: (p.get("position", 0), p["post_id"])] *)
Definition post_key : json → option (Z * string) :=
  record_key "position" "post_id".

(** *** Items, buffers and the disk *)

Inductive item_class := BoardInfoItem | TopicSummaryItem | PostItem | OtherItem.

(** An item: its class and [ItemAdapter(item).asdict()]. *)
Record item := Item {
  item_class_of : item_class;
  asdict : list (string * json);
}.

(** The attributes of [PostStorePipeline]; [ticks] counts the calls of
    [iso_now]. *)
Record pipeline := Pipeline {
  board_info : list (string * list (string * json));
  topic_summaries : list (string * list (string * list (string * json)));
  topic_posts : list ((string * string) * list (string * list (string * json)));
  ticks : nat;
}.

Definition new_pipeline : pipeline := Pipeline [] [] [] 0.

(** The files under [data_dir]: [board_<id>/board_info.json],
    [board_<id>/topics_index.json] and [board_<id>/topics/<topic_id>.json]. *)
Inductive path :=
| BoardInfoFile (board_id : string)
| TopicsIndexFile (board_id : string)
| TopicFile (board_id topic_id : string).

Global Instance path_eq_dec : EqDecision path.
Proof. solve_decision. Defined.

(** A file holds a document, or text that [json.load] rejects. *)
Inductive stored := Garbled | Doc (j : json).

Definition disk := path → option stored.

Definition no_files : disk := λ _, None.

Definition write (d : disk) (p : path) (j : json) : disk :=
  λ q, if decide (q = p) then Some (Doc j) else d q.

(** [_load_json] *)
Definition _load_json (d : disk) (p : path) (default : json) : json :=
  match d p with
  | None => default
  | Some Garbled => default
  | Some (Doc j) => j
  end.

(** [_write_json] *)
Definition _write_json (d : disk) (p : path) (payload : list (string * json))
  : disk :=
  write d p (JDict payload).

(** [_merge_json] *)
Definition _merge_json (d : disk) (p : path) (payload : list (string * json))
    (overwrite : bool) : option disk :=
  if bool_decide (is_Some (d p)) && negb overwrite then
    match _load_json d p (JDict []) with
    | JDict existing => Some (write d p (JDict (dict_update existing payload)))
    | _ => None
    end
  else Some (write d p (JDict payload)).

(** A loop whose body can fail. *)
Fixpoint for_each {A S} (body : S → A → option S) (xs : list A) (s : S)
  : option S :=
  match xs with
  | [] => Some s
  | x :: xs' => s' ← body s x; for_each body xs' s'
  end.

(** [{x[field]: x for x in existing.get(list_field, [])} if existing else {}] *)
Definition stored_by_id (existing : json) (list_field id_field : string)
  : option (list (string * json)) :=
  if truthy existing then
    records ← get_default existing list_field (JList []) ≫= iterate;
    pairs ← mapM (λ x, id ← subscript x id_field ≫= as_str; Some (id, x)) records;
    Some (dict_of pairs)
  else Some [].

(** What the second loop of [close_spider] writes for one board: [topics]
    is the buffer of the board, [existing] the loaded index, [now] the
    result of [iso_now()]. *)
Definition topics_index_payload
    (infos : list (string * list (string * json))) (now : string)
    (board_id : string) (topics : list (string * list (string * json)))
    (existing : json) : option (list (string * json)) :=
  stored_topics ← stored_by_id existing "topics" "topic_id";
  let stored_topics := dict_update stored_topics (prod_map id JDict <$> topics) in
  ordered ← sorted topic_key (dict_values stored_topics);
  let payload :=
    [("board_id", JStr board_id);
     ("collected_at", JStr now);
     ("topics", JList ordered)] in
  Some (match dict_get board_id infos with
        | Some info =>
            dict_set "board_name" (default JNull (dict_get "name" info)) payload
        | None => payload
        end).

(** What the third loop writes for one topic. [payload = existing or {}]
    is the loaded document when it is true, and then it has to be an
    object. *)
Definition topic_posts_payload (now : string) (board_id topic_id : string)
    (posts : list (string * list (string * json))) (existing : json)
  : option (list (string * json)) :=
  stored_posts ← stored_by_id existing "posts" "post_id";
  let stored_posts := dict_update stored_posts (prod_map id JDict <$> posts) in
  payload ← (if truthy existing
             then match existing with JDict d => Some d | _ => None end
             else Some []);
  ordered ← sorted post_key (dict_values stored_posts);
  Some (dict_update payload
          [("board_id", JStr board_id);
           ("topic_id", JStr topic_id);
           ("posts_total", JInt (Z.of_nat (length stored_posts)));
           ("updated_at", JStr now);
           ("posts", JList ordered)]).

Section pipeline.
(** [clock n] is what the [n]-th call of [iso_now] returns. *)
Variable clock : nat → string.

(** [payload = adapter.asdict(); payload["fetched_at"] = iso_now()] *)
Definition stamped (self : pipeline) (it : item) : list (string * json) :=
  dict_set "fetched_at" (JStr (clock (ticks self))) (asdict it).

(** [process_item] *)
Definition process_item (self : pipeline) (it : item) : option pipeline :=
  match item_class_of it with
  | BoardInfoItem =>
      board_id ← dict_get "board_id" (asdict it) ≫= as_str;
      Some (Pipeline
              (dict_set board_id (stamped self it) (board_info self))
              (topic_summaries self) (topic_posts self) (S (ticks self)))
  | TopicSummaryItem =>
      board_id ← dict_get "board_id" (asdict it) ≫= as_str;
      topic_id ← dict_get "topic_id" (asdict it) ≫= as_str;
      let topics := default [] (dict_get board_id (topic_summaries self)) in
      Some (Pipeline
              (board_info self)
              (dict_set board_id (dict_set topic_id (stamped self it) topics)
                 (topic_summaries self))
              (topic_posts self) (S (ticks self)))
  | PostItem =>
      board_id ← dict_get "board_id" (asdict it) ≫= as_str;
      topic_id ← dict_get "topic_id" (asdict it) ≫= as_str;
      post_id ← dict_get "post_id" (asdict it) ≫= as_str;
      let posts := default [] (dict_get (board_id, topic_id) (topic_posts self)) in
      Some (Pipeline
              (board_info self) (topic_summaries self)
              (dict_set (board_id, topic_id)
                 (dict_set post_id (stamped self it) posts)
                 (topic_posts self))
              (S (ticks self)))
  | OtherItem => Some self
  end.

(** The body of the first loop of [close_spider]. *)
Definition flush_board_info (s : disk * nat)
    (entry : string * list (string * json)) : option (disk * nat) :=
  let '(board_id, info) := entry in
  d ← _merge_json s.1 (BoardInfoFile board_id) info true;
  Some (d, s.2).

(** The body of the second loop: the topic index of one board. *)
Definition flush_topics_index
    (infos : list (string * list (string * json))) (s : disk * nat)
    (entry : string * list (string * list (string * json)))
  : option (disk * nat) :=
  let index_file := TopicsIndexFile entry.1 in
  let existing := _load_json s.1 index_file (JDict []) in
  payload ← topics_index_payload infos (clock s.2) entry.1 entry.2 existing;
  Some (_write_json s.1 index_file payload, S s.2).

(** The body of the third loop: the posts of one topic. *)
Definition flush_topic_posts (s : disk * nat)
    (entry : (string * string) * list (string * list (string * json)))
  : option (disk * nat) :=
  let topic_file := TopicFile entry.1.1 entry.1.2 in
  let existing := _load_json s.1 topic_file (JDict []) in
  payload ← topic_posts_payload (clock s.2) entry.1.1 entry.1.2 entry.2 existing;
  Some (_write_json s.1 topic_file payload, S s.2).

(** [close_spider] *)
Definition close_spider (self : pipeline) (d : disk) : option disk :=
  s ← for_each flush_board_info (board_info self) (d, ticks self);
  s ← for_each (flush_topics_index (board_info self)) (topic_summaries self) s;
  s ← for_each flush_topic_posts (topic_posts self) s;
  Some s.1.

(** One run: the items are processed by a new pipeline, which is then
    closed. *)
Definition run (items : list item) (d : disk) : option disk :=
  self ← for_each process_item items new_pipeline;
  close_spider self d.
End pipeline.

(** Specification side: the identifier of a record, the first record of a
    list with a given identifier, and the last one. *)
Definition record_id (id_field : string) (x : json) : option string :=
  subscript x id_field ≫= as_str.

(** Specification side: the records a loaded document lists under
    [list_field]; none when the document is false. *)
Definition stored_records (existing : json) (list_field : string)
  : option (list json) :=
  if truthy existing
  then get_default existing list_field (JList []) ≫= iterate
  else Some [].

(** Specification side: every record of a dict is stored under its own
    identifier. *)
Definition ids_are_keys (id_field : string) (d : list (string * json)) : Prop :=
  Forall (λ kv, record_id id_field kv.2 = Some kv.1) d.

Definition first_with_id (id_field id : string) (xs : list json) : option json :=
  head (filter (λ x, record_id id_field x = Some id) xs).

Definition last_with_id (id_field id : string) (xs : list json) : option json :=
  first_with_id id_field id (reverse xs).

(** Specification side: two dicts with the same keys in the same order and
    values related by [R]; two payloads that differ at most in the value
    of [fetched_at]; two pipelines that buffered the same items at
    different times. *)
Definition dict_rel {K V} (R : V → V → Prop) (d1 d2 : list (K * V)) : Prop :=
  Forall2 (λ a b, a.1 = b.1 ∧ R a.2 b.2) d1 d2.

Definition restamped (p1 p2 : list (string * json)) : Prop :=
  ∃ base t1 t2,
    p1 = dict_set "fetched_at" t1 base ∧ p2 = dict_set "fetched_at" t2 base.

Definition same_buffers (self1 self2 : pipeline) : Prop :=
  dict_rel restamped (board_info self1) (board_info self2)
  ∧ dict_rel (dict_rel restamped) (topic_summaries self1) (topic_summaries self2)
  ∧ dict_rel (dict_rel restamped) (topic_posts self1) (topic_posts self2).

(** Specification side: every buffered payload carries, under [id_field],
    the key it is buffered under, and no key is buffered twice. *)
Definition keyed_by (id_field : string) (buffer : list (string * list (string * json)))
  : Prop :=
  NoDup buffer.*1
  ∧ Forall (λ kp, dict_get id_field kp.2 = Some (JStr kp.1)) buffer.

Definition buffers_keyed (self : pipeline) : Prop :=
  NoDup (board_info self).*1
  ∧ NoDup (topic_summaries self).*1
  ∧ NoDup (topic_posts self).*1
  ∧ Forall (λ e, keyed_by "topic_id" e.2) (topic_summaries self)
  ∧ Forall (λ e, keyed_by "post_id" e.2) (topic_posts self).

(** Specification side: the order of the sort on keyed elements, "not
    after". *)
Definition key_le {A} (a b : (Z * string) * A) : Prop := key_lt b.1 a.1 = false.

(** Specification side: an object, as [json.load] returns it, has no key
    twice. *)
Definition distinct_keys (j : json) : Prop :=
  match j with
  | JDict d => NoDup d.*1
  | _ => True
  end.

(** Specification side: a document with the values of the fields [stamps]
    blanked, at every depth. *)
Fixpoint scrub (stamps : list string) (j : json) : json :=
  match j with
  | JList l => JList (map (scrub stamps) l)
  | JDict d =>
      JDict (map (λ kv : string * json,
                    let '(k, v) := kv in
                    (k, if bool_decide (k ∈ stamps) then JStr "" else scrub stamps v))
               d)
  | _ => j
  end.

Definition scrub_entry (stamps : list string) (k : string) (v : json) : json :=
  if bool_decide (k ∈ stamps) then JStr "" else scrub stamps v.

Definition scrub_file (stamps : list string) (f : option stored) : option stored :=
  match f with
  | Some (Doc j) => Some (Doc (scrub stamps j))
  | _ => f
  end.

(** The fields that hold the time of a run, and those the claim names. *)
Definition timestamp_fields : list string :=
  ["fetched_at"; "updated_at"; "collected_at"].

Definition claimed_timestamp_fields : list string :=
  ["fetched_at"; "updated_at"].

(** Specification side: a file that the flush reads as nothing: absent,
    rejected by [json.load], or holding a document that is false. *)
Definition blank (f : option stored) : bool :=
  match f with
  | Some (Doc j) => negb (truthy j)
  | _ => true
  end.

(** Specification side: two states of the flush, a disk and the count of
    [iso_now] calls, that went on from the disks [d1] and [d2] and differ
    only in files that were blank on both and have not been written. *)
Definition alike (d1 d2 : disk) (s1 s2 : disk * nat) : Prop :=
  s1.2 = s2.2
  ∧ ∀ p, s1.1 p = s2.1 p
         ∨ (s1.1 p = d1 p ∧ s2.1 p = d2 p
            ∧ blank (d1 p) = true ∧ blank (d2 p) = true).




(** Specification side: the fields that the flush writes into a topic
    file. *)
Definition topic_file_fields : list string :=
  ["board_id"; "topic_id"; "posts_total"; "updated_at"; "posts"].

End Pipelines.

(** ** The storage state of [_auto_bootstrap]

    What [_auto_bootstrap] returns once the helper browser has been
    driven: [cookies] is the result of [driver.get_cookies()], each cookie
    a dict.  A [sameSite] value that is true and not a [str] makes
    [_normalize_same_site] fail on [value.lower()]; [None] stands for that
    [AttributeError]. *)

Module Bootstrap.

(** [value or fallback], for [value = cookie.get(key)] *)
Definition or_else (value : option Pipelines.json) (fallback : Pipelines.json)
  : Pipelines.json :=
  match value with
  | Some v => if Pipelines.truthy v then v else fallback
  | None => fallback
  end.

(** [_normalize_same_site(cookie.get("sameSite"))] *)
Definition same_site (value : option Pipelines.json) : option string :=
  match value with
  | None => Some (Spider._normalize_same_site None)
  | Some v =>
      if Pipelines.truthy v
      then match v with
           | Pipelines.JStr s => Some (Spider._normalize_same_site (Some s))
           | _ => None
           end
      else Some "None"
  end.

(** The dict made of one cookie. *)
Definition format_cookie (cookie : list (string * Pipelines.json))
  : option (list (string * Pipelines.json)) :=
  site ← same_site (Pipelines.dict_get "sameSite" cookie);
  Some [("name", default Pipelines.JNull (Pipelines.dict_get "name" cookie));
        ("value", default Pipelines.JNull (Pipelines.dict_get "value" cookie));
        ("domain",
         or_else (Pipelines.dict_get "domain" cookie)
           (Pipelines.JStr "forums.dansdeals.com"));
        ("path", or_else (Pipelines.dict_get "path" cookie) (Pipelines.JStr "/"));
        ("expires",
         default (Pipelines.JInt (-1)) (Pipelines.dict_get "expiry" cookie));
        ("httpOnly",
         default (Pipelines.JBool false) (Pipelines.dict_get "httpOnly" cookie));
        ("secure",
         default (Pipelines.JBool true) (Pipelines.dict_get "secure" cookie));
        ("sameSite", Pipelines.JStr site)].

(** [cookie.get("name") and cookie.get("value")], as a condition *)
Definition named (cookie : list (string * Pipelines.json)) : bool :=
  Pipelines.truthy (default Pipelines.JNull (Pipelines.dict_get "name" cookie))
  && Pipelines.truthy (default Pipelines.JNull (Pipelines.dict_get "value" cookie)).

(** The list [formatted] *)
Definition formatted (cookies : list (list (string * Pipelines.json)))
  : option (list Pipelines.json) :=
  mapM (λ cookie, Pipelines.JDict <$> format_cookie cookie)
    (List.filter named cookies).

(** [_auto_bootstrap]: [cookies] is [None] when [undetected_chromedriver]
    cannot be imported, and the empty dict is returned. *)
Definition _auto_bootstrap
    (cookies : option (list (list (string * Pipelines.json))))
  : option (list (string * Pipelines.json)) :=
  match cookies with
  | None => Some []
  | Some cookies =>
      formatted ← formatted cookies;
      Some [("cookies", Pipelines.JList formatted);
            ("origins",
             Pipelines.JList
               [Pipelines.JDict
                  [("origin", Pipelines.JStr "https://forums.dansdeals.com");
                   ("localStorage", Pipelines.JList []);
                   ("sessionStorage", Pipelines.JList [])]])]
  end.

(** Specification side: the keys of a formatted cookie, and the values of
    [sameSite] that a storage state may hold. *)
Definition cookie_keys : list string :=
  ["name"; "value"; "domain"; "path"; "expires"; "httpOnly"; "secure"; "sameSite"].

Definition same_site_values : list Pipelines.json :=
  [Pipelines.JStr "Strict"; Pipelines.JStr "Lax"; Pipelines.JStr "None"].

End Bootstrap.

(** ** Concrete inputs used in the examples below *)

Module Examples.

(** A query reader for URLs of the shape [path?name=value]: enough of
    [parse_qs] for the examples. *)
Definition first_value (href param : string) : option string :=
  let query := Py.before "&" (Py.after "?" href) in
  if String.eqb (Py.before "=" query) param && Py.contains "=" query
  then Some (Py.after "=" query)
  else None.

Definition spider : Spider.spider :=
  Spider.SpiderState Spider.Auto Spider.BootstrapAuto "8" true None None None
    0 ∅ false None 0 None 43200.

Definition empty_page : Spider.page := Spider.Page None None None "" [] [] [].

(** The request of [start_requests]. *)
Definition start_request : Spider.request :=
  Spider.Request (Spider.BoardUrl "8" 0) Spider.ParseBoard
    (Spider._build_meta spider
       (Spider.Extra (Some 0) None None None None None (Some 0)) false).2
    false.

Definition challenges : list (Z * string * Spider.page) :=
  [(403, "https://forums.dansdeals.com/index.php?board=8.0", empty_page);
   (520, "https://forums.dansdeals.com/index.php?board=8.0", empty_page);
   (403, "https://forums.dansdeals.com/index.php?board=8.0", empty_page);
   (403, "https://forums.dansdeals.com/index.php?board=8.0", empty_page);
   (403, "https://forums.dansdeals.com/index.php?board=8.0", empty_page)].

Definition row (href subject : string) : Spider.topic_row :=
  Spider.TopicRow (Some (Some href, subject)) None None None None None None.

(** Two board pages; topic 101 is listed on both. *)
Definition board_page_1 : Spider.page :=
  Spider.Page (Some "Tech Talk") None None ""
    [row "index.php?topic=101.0" "first"; row "index.php?topic=102.0" "second"]
    [Some "index.php?board=8.25"] [].

Definition board_page_2 : Spider.page :=
  Spider.Page (Some "Tech Talk") None None ""
    [row "index.php?topic=103.0" "third"; row "index.php?topic=101.0" "first"]
    [Some "index.php?board=8.0"] [].

Definition board_responses : list Spider.response :=
  [Spider.Response 200 "index.php?board=8.0" start_request board_page_1;
   Spider.Response 200 "index.php?board=8.25"
     (Spider.Request (Spider.BoardUrl "8" 25) Spider.ParseBoard
        (Spider._build_meta spider
           (Spider.Extra (Some 25) (Some 25) None None None None (Some 0)) false).2
        false)
     board_page_2].

Definition wrapper (id : string) : Spider.post_wrapper :=
  Spider.PostWrapper (Some id) "".

Definition topic_page_1 : Spider.page :=
  Spider.Page None None None "" [] []
    [wrapper "msg_5001"; wrapper "msg_5002"; wrapper "msg_5003";
     wrapper "msg_5004"; wrapper "msg_5005"].

Definition topic_page_2 : Spider.page :=
  Spider.Page None None None "" [] []
    [wrapper "msg_5006"; wrapper "msg_5007"; wrapper "msg_5008"].

(** A page whose second wrapper has no [div.post div.inner]. *)
Definition topic_page_gap : Spider.page :=
  Spider.Page None None None "" [] []
    [wrapper "msg_5001"; Spider.PostWrapper None ""; wrapper "msg_5003"].

(** A stale artifact on disk and a bootstrap that captures one cookie. *)
Definition dumps (state : Spider.storage_state_dict) : string :=
  "{cookies: " +:+ Py.join (Spider.cookies state) +:+ "}".




(** The fields of a [TopicSummaryItem], in the order [_extract_topics]
    sets them. *)
Definition topic_fields (offset : Z) (id subject : string)
  : list (string * Pipelines.json) :=
  [("board_id", Pipelines.JStr "8");
   ("board_offset", Pipelines.JInt offset);
   ("topic_id", Pipelines.JStr id);
   ("subject", Pipelines.JStr subject);
   ("starter", Pipelines.JStr "");
   ("replies", Pipelines.JNull);
   ("views", Pipelines.JNull);
   ("last_post_author", Pipelines.JNull);
   ("last_post_time", Pipelines.JNull);
   ("last_post_link", Pipelines.JNull);
   ("topic_url", Pipelines.JStr ("index.php?topic=" +:+ id +:+ ".0"));
   ("page_url", Pipelines.JStr "index.php?board=8.0")].

Definition topic_item (offset : Z) (id subject : string) : Pipelines.item :=
  Pipelines.Item Pipelines.TopicSummaryItem (topic_fields offset id subject).

(** A stored topic: the fields and the time of an earlier run. *)
Definition stored_topic (offset : Z) (id subject : string) : Pipelines.json :=
  Pipelines.JDict
    (topic_fields offset id subject ++ [("fetched_at", Pipelines.JStr "t0")]).

(** The index with A at offset 0 and B at offset 25, and the batch with B
    (new subject) and C at offset 50. *)
Definition existing_index : Pipelines.json :=
  Pipelines.JDict
    [("board_id", Pipelines.JStr "8");
     ("collected_at", Pipelines.JStr "t0");
     ("topics", Pipelines.JList [stored_topic 0 "A" "a"; stored_topic 25 "B" "b"])].

Definition new_batch : list (string * list (string * Pipelines.json)) :=
  [("B", topic_fields 25 "B" "b, edited" ++ [("fetched_at", Pipelines.JStr "t1")]);
   ("C", topic_fields 50 "C" "c" ++ [("fetched_at", Pipelines.JStr "t1")])].

Definition batch_items : list Pipelines.item :=
  [topic_item 25 "B" "b, edited"; topic_item 50 "C" "c"].

Definition disk_with_index : Pipelines.disk :=
  Pipelines.write Pipelines.no_files (Pipelines.TopicsIndexFile "8") existing_index.

(** Two runs over the same batch, at two times. *)
Definition first_clock (n : nat) : string := "t1".
Definition second_clock (n : nat) : string := "t2".

Definition after_first_run : Pipelines.disk :=
  default Pipelines.no_files
    (Pipelines.run first_clock batch_items disk_with_index).

Definition after_second_run : Pipelines.disk :=
  default Pipelines.no_files
    (Pipelines.run second_clock batch_items after_first_run).

(** [str.isspace] on the ASCII characters, and the text of a statistics
    cell with a line break in it. *)
Definition isspace (c : ascii) : bool :=
  let n := nat_of_ascii c in
  (((9 <=? n) && (n <=? 13)) || ((28 <=? n) && (n <=? 32)))%nat.

Definition stats_cell : list ascii :=
  list_ascii_of_string ("  12 Posts" +:+ String "010" "   3 Topics ").

(** A spider with limits: one board page, two topics, two pages a topic. *)
Definition limited_spider : Spider.spider :=
  Spider.SpiderState Spider.Auto Spider.BootstrapAuto "8" true (Some 1) (Some 2)
    (Some 2) 0 ∅ false None 0 None 43200.

(** The first board page, challenged. *)
Definition challenged_response : Spider.response :=
  Spider.Response 403 "index.php?board=8.0" start_request board_page_1.

(** The request of [_schedule_topic] for topic 101, and three pages of the
    topic, the first two with an anchor to the next. *)
Definition topic_request : Spider.request :=
  Spider.Request (Spider.Href (Some "index.php?topic=101.0")) Spider.ParseTopic
    (Spider._build_meta spider
       (Spider.Extra None None (Some 0) (Some "8") (Some "101") None (Some 0))
       false).2
    false.

Definition topic_page_linked (next : string) : Spider.page :=
  Spider.Page None None None "" [] [Some ("index.php?topic=101." +:+ next)]
    [wrapper "msg_5001"; wrapper "msg_5002"].

Definition topic_response : Spider.response :=
  Spider.Response 200 "index.php?topic=101.0" topic_request
    (topic_page_linked "5").

Definition topic_answers : list (Z * string * Spider.page) :=
  [(200, "index.php?topic=101.0", topic_page_linked "5");
   (200, "index.php?topic=101.5", topic_page_linked "10");
   (200, "index.php?topic=101.10", topic_page_2)].

(** A topic page of topic 101, challenged on its second page. *)
Definition challenged_topic_response : Spider.response :=
  Spider.Response 403 "index.php?topic=101.5"
    (Spider.Request (Spider.TopicUrl "101" 5) Spider.ParseTopic
       (Spider._build_meta spider
          (Spider.Extra None None (Some 5) (Some "8") (Some "101") (Some 1)
             (Some 0)) false).2
       false)
    empty_page.

(** Items of a crawl of board 8: the description, a topic and two posts;
    a stored topic file with a field of its own; a disk whose topic index
    is not JSON. *)
Definition post_fields (position : Z) (id text : string)
  : list (string * Pipelines.json) :=
  [("board_id", Pipelines.JStr "8");
   ("topic_id", Pipelines.JStr "101");
   ("post_id", Pipelines.JStr id);
   ("position", Pipelines.JInt position);
   ("content_text", Pipelines.JStr text)].




Definition stored_post (position : Z) (id text : string) : Pipelines.json :=
  Pipelines.JDict
    (post_fields position id text ++ [("fetched_at", Pipelines.JStr "t0")]).

Definition existing_topic_file : Pipelines.json :=
  Pipelines.JDict
    [("board_id", Pipelines.JStr "8");
     ("topic_id", Pipelines.JStr "101");
     ("posts_total", Pipelines.JInt 2);
     ("updated_at", Pipelines.JStr "t0");
     ("posts",
      Pipelines.JList [stored_post 1 "5001" "one"; stored_post 2 "5002" "two"]);
     ("note", Pipelines.JStr "checked")].

Definition new_posts : list (string * list (string * Pipelines.json)) :=
  [("5002",
    post_fields 2 "5002" "two, edited" ++ [("fetched_at", Pipelines.JStr "t1")]);
   ("5003",
    post_fields 3 "5003" "three" ++ [("fetched_at", Pipelines.JStr "t1")])].


(** The cookies of a helper browser: one complete, one without a name. *)
Definition browser_cookies : list (list (string * Pipelines.json)) :=
  [[("name", Pipelines.JStr "cf_clearance");
    ("value", Pipelines.JStr "abc");
    ("domain", Pipelines.JStr ".dansdeals.com");
    ("sameSite", Pipelines.JStr "LAX")];
   [("name", Pipelines.JStr ""); ("value", Pipelines.JStr "x")]].

End Examples.

(* ================================================================= *)
(** * Properties *)

(** ** Python built-ins *)

Section py_min.
Implicit Types (xs : list Z) (m x : Z).

Lemma fold_min_le xs x : fold_left Z.min xs x ≤ x.
Proof.
  revert x. induction xs as [|y xs IH]; intros x; simpl; [lia|].
  specialize (IH (Z.min x y)). lia.
Qed.

Lemma fold_min_lower xs x y : y ∈ xs → fold_left Z.min xs x ≤ y.
Proof.
  revert x. induction xs as [|z xs IH]; intros x Hy; simpl.
  - by apply elem_of_nil in Hy.
  - apply elem_of_cons in Hy as [->|Hy]; [|by apply IH].
    pose proof (fold_min_le xs (Z.min x z)). lia.
Qed.

Lemma fold_min_elem xs x : fold_left Z.min xs x = x ∨ fold_left Z.min xs x ∈ xs.
Proof.
  revert x. induction xs as [|z xs IH]; intros x; simpl; [by left|].
  destruct (IH (Z.min x z)) as [E|E].
  - rewrite E. destruct (Z.min_spec x z) as [[_ ->]|[_ ->]]; [by left|].
    right. by left.
  - right. by right.
Qed.

Lemma py_min_Some xs m :
  Py.min xs = Some m → m ∈ xs ∧ ∀ x, x ∈ xs → m ≤ x.
Proof.
  destruct xs as [|y xs]; simpl; [done|]. intros [= <-]. split.
  - destruct (fold_min_elem xs y) as [->|E]; [by left|by right].
  - intros x [->|Hx]%elem_of_cons; [apply fold_min_le|by apply fold_min_lower].
Qed.

Lemma py_min_None xs : Py.min xs = None → xs = [].
Proof. by destruct xs. Qed.
End py_min.

(** ** C1: [next_offset] *)

(** C1. For every set of offsets [S] and current offset [c],
    [next_offset S c] is the least element of [S] strictly greater than
    [c], and is [None] when no element of [S] is greater than [c]. *)
Theorem next_offset_least (S : gset Z) (c : Z) :
  match Utils.next_offset S c with
  | Some m => m ∈ S ∧ c < m ∧ ∀ x, x ∈ S → c < x → m ≤ x
  | None => ∀ x, x ∈ S → x ≤ c
  end.
Proof.
  unfold Utils.next_offset.
  destruct (Py.min _) as [m|] eqn:E.
  - apply py_min_Some in E as [Hm Hle].
    apply list_elem_of_filter in Hm as [Hcm Hm].
    apply elem_of_elements in Hm. split_and!; [done..|].
    intros x Hx Hcx. apply Hle, list_elem_of_filter.
    split; [done|by apply elem_of_elements].
  - apply py_min_None in E. intros x Hx.
    destruct (decide (c < x)) as [Hcx|]; [|lia].
    assert (x ∈ filter (λ value, c < value) (elements S)) as Hin.
    { apply list_elem_of_filter. split; [done|by apply elem_of_elements]. }
    rewrite E in Hin. by apply elem_of_nil in Hin.
Qed.

(** ** C10: [parse_int] *)

Section parse_int.
Implicit Types (s run : string) (c : ascii).









Lemma is_digit_comma c : Py.is_digit c = true → Ascii.eqb c "," = false.
Proof.
  intros Hd. destruct (Ascii.eqb_spec c ",") as [->|]; [|done].
  by vm_compute in Hd.
Qed.


End parse_int.


(** ** C7: [detect_step] *)

Section detect_step.
Implicit Types (l : list Z) (S : gset Z) (a b x d : Z).

Lemma sorted_strict l :
  NoDup l → StronglySorted Z.lt (Py.sorted l) ∧ ∀ x, x ∈ Py.sorted l ↔ x ∈ l.
Proof.
  intros Hnd. unfold Py.sorted.
  pose proof (merge_sort_Permutation Z.le l) as Hperm.
  pose proof (StronglySorted_merge_sort Z.le l) as Hsorted.
  rewrite <-Hperm in Hnd. split; [|intros x; by rewrite Hperm].
  clear Hperm. induction Hsorted as [|y l' _ IH Hall]; [constructor|].
  apply NoDup_cons in Hnd as [Hy Hnd]. constructor; [by apply IH|].
  apply Forall_forall. intros x Hx.
  rewrite Forall_forall in Hall. specialize (Hall x Hx).
  assert (x ≠ y) by (by intros ->). lia.
Qed.

(** On a strictly increasing list, zipping the list with its tail lists
    exactly the neighbouring pairs. *)
Lemma zip_tail_neighbours l :
  StronglySorted Z.lt l →
  ∀ a b, (a, b) ∈ Py.zip l (Py.drop1 l) ↔
    a ∈ l ∧ b ∈ l ∧ a < b ∧ ∀ x, x ∈ l → ¬ (a < x ∧ x < b).
Proof.
  induction 1 as [|x l Hsorted IH Hall]; intros a b.
  { simpl. rewrite elem_of_nil. split; [done|]. intros [Hnil _].
    by apply elem_of_nil in Hnil. }
  rewrite Forall_forall in Hall.
  destruct l as [|y l'].
  { simpl. rewrite elem_of_nil. split; [done|].
    intros (->%list_elem_of_singleton & ->%list_elem_of_singleton & ? & _). lia. }
  change (Py.zip (x :: y :: l') (Py.drop1 (x :: y :: l')))
    with ((x, y) :: Py.zip (y :: l') (Py.drop1 (y :: l'))).
  rewrite elem_of_cons, IH. clear IH.
  assert (x < y) as Hxy by (apply Hall; by left).
  apply StronglySorted_cons in Hsorted as [Hy _].
  rewrite Forall_forall in Hy.
  split.
  - intros [[= -> ->]|(Ha & Hb & Hab & Hbetween)].
    + split_and!; [by left|right; by left|done|].
      intros z [->|[->|Hz]%elem_of_cons]%elem_of_cons; [lia..|].
      specialize (Hy z Hz). lia.
    + split_and!; [by right|by right|done|].
      intros z [->|Hz]%elem_of_cons; [|by apply Hbetween].
      specialize (Hall a Ha). lia.
  - intros (Ha & Hb & Hab & Hbetween).
    apply elem_of_cons in Ha as [->|Ha].
    + left. apply elem_of_cons in Hb as [->|Hb]; [lia|].
      apply elem_of_cons in Hb as [->|Hb]; [done|].
      specialize (Hy b Hb). destruct (Hbetween y); [right; by left|lia].
    + right. apply elem_of_cons in Hb as [->|Hb].
      { specialize (Hall a Ha). lia. }
      split_and!; [done..|]. intros z Hz. apply Hbetween. by right.
Qed.

Lemma ordered_neighbours S a b :
  (a, b) ∈ Py.zip (Py.sorted (elements S)) (Py.drop1 (Py.sorted (elements S)))
  ↔ Utils.adjacent S a b.
Proof.
  destruct (sorted_strict (elements S)) as [Hsorted Hin]; [apply NoDup_elements|].
  rewrite (zip_tail_neighbours _ Hsorted). unfold Utils.adjacent.
  rewrite !Hin, !elem_of_elements.
  by setoid_rewrite Hin; setoid_rewrite elem_of_elements.
Qed.

Lemma positives_gap S d :
  d ∈ filter (λ d, 0 < d)
        ((λ ab : Z * Z, ab.2 - ab.1) <$>
           filter (λ ab : Z * Z, ab.1 < ab.2)
             (Py.zip (Py.sorted (elements S))
                (Py.drop1 (Py.sorted (elements S)))))
  ↔ ∃ a b, Utils.adjacent S a b ∧ d = b - a.
Proof.
  rewrite list_elem_of_filter, list_elem_of_fmap. split.
  - intros (_ & [a b] & -> & [_ Hin%ordered_neighbours]%list_elem_of_filter).
    by exists a, b.
  - intros (a & b & Hadj & ->).
    assert (a < b) by apply Hadj. split; [lia|].
    exists (a, b). split; [done|].
    apply list_elem_of_filter. split; [done|by apply ordered_neighbours].
Qed.

Lemma detect_step_cases S default :
  (∃ a b, Utils.adjacent S a b ∧ Utils.detect_step S default = b - a ∧
          ∀ a' b', Utils.adjacent S a' b' → b - a ≤ b' - a')
  ∨ ((∀ a b, ¬ Utils.adjacent S a b) ∧ Utils.detect_step S default = default).
Proof.
  unfold Utils.detect_step.
  destruct (Py.min _) as [d|] eqn:E.
  - left. apply py_min_Some in E as [Hd Hle].
    apply positives_gap in Hd as (a & b & Hadj & ->).
    exists a, b. split_and!; [done..|].
    intros a' b' Hadj'. apply Hle, positives_gap. by exists a', b'.
  - right. apply py_min_None in E. split; [|done].
    intros a b Hadj.
    assert (b - a ∈ @nil Z) as Hin; [|by apply elem_of_nil in Hin].
    rewrite <-E. apply positives_gap. by exists a, b.
Qed.

Lemma detect_step_bound S default a b :
  Utils.adjacent S a b → 0 < Utils.detect_step S default ≤ b - a.
Proof.
  intros Hadj.
  destruct (detect_step_cases S default) as [(a' & b' & Hadj' & -> & Hmin)|[Hnone _]].
  - specialize (Hmin a b Hadj). destruct Hadj' as (_ & _ & ? & _). lia.
  - by destruct (Hnone a b).
Qed.
End detect_step.

(** C7 (as amended). [detect_step S default] is the least difference between
    neighbours of the sorted offsets, and [default] when there are no
    neighbours; it is [25] on [{0, 25, 50}], positive and at most [25] on
    every set that contains [{0, 25, 50}], and [default] on [{0}]. *)
Theorem detect_step_min_gap (S : gset Z) (default : Z) :
  ((∃ a b, Utils.adjacent S a b ∧ Utils.detect_step S default = b - a ∧
           ∀ a' b', Utils.adjacent S a' b' → b - a ≤ b' - a')
   ∨ ((∀ a b, ¬ Utils.adjacent S a b) ∧ Utils.detect_step S default = default))
  ∧ Utils.detect_step {[0; 25; 50]} default = 25
  ∧ ({[0; 25; 50]} ⊆ S → 0 < Utils.detect_step S default ≤ 25)
  ∧ Utils.detect_step {[0]} default = default.
Proof.
  split_and!.
  - apply detect_step_cases.
  - vm_compute. reflexivity.
  - intros Hsub.
    pose proof (next_offset_least S 0) as Hnext.
    destruct (Utils.next_offset S 0) as [m|].
    + destruct Hnext as (Hm & Hpos & Hleast).
      assert (m ≤ 25) by (apply Hleast; [set_solver|lia]).
      assert (Utils.adjacent S 0 m) as Hadj.
      { split_and!; [set_solver|done|done|].
        intros x Hx [Hx0 Hxm]. specialize (Hleast x Hx Hx0). lia. }
      pose proof (detect_step_bound S default 0 m Hadj). lia.
    + assert (25 ≤ 0); [apply Hnext; set_solver|lia].
  - vm_compute. reflexivity.
Qed.

(** C7, the claim as written fails: a set that contains [{0, 25, 50}] and a
    closer pair has a smaller step. *)
Lemma detect_step_superset_counterexample :
  ({[0; 25; 50]} : gset Z) ⊆ {[0; 5; 25; 50]}
  ∧ Utils.detect_step {[0; 5; 25; 50]} 25 = 5
  ∧ Utils.detect_step {[0; 5; 25; 50]} 25 ≠ 25.
Proof.
  split_and!; [set_solver| vm_compute; reflexivity | vm_compute; discriminate].
Qed.

(** ** C8: [collect_offsets] *)

Section collect_offsets.
Variable first_value : string → string → option string.
Implicit Types (links : list (option string)) (param ident : string) (n : Z).

Lemma collect_fold_elem links param ident (acc : gset Z) n :
  n ∈ fold_left
        (λ (offsets : gset Z) href,
           match Utils.link_offset first_value param ident href with
           | Some n => offsets ∪ {[ n ]}
           | None => offsets
           end) links acc
  ↔ n ∈ acc ∨ ∃ href, href ∈ links ∧
                Utils.link_offset first_value param ident href = Some n.
Proof.
  revert acc. induction links as [|href links IH]; intros acc; simpl.
  - split; [by left|]. intros [?|(? & Hnil & _)]; [done|].
    by apply elem_of_nil in Hnil.
  - rewrite IH. clear IH. split.
    + intros [Hacc|(h & Hh & Hoff)].
      * destruct (Utils.link_offset _ _ _ href) as [m|] eqn:E; [|by left].
        apply elem_of_union in Hacc as [?| ->%elem_of_singleton]; [by left|].
        right. exists href. split; [by left|done].
      * right. exists h. split; [by right|done].
    + intros [Hacc|(h & [->|Hh]%elem_of_cons & Hoff)].
      * left. destruct (Utils.link_offset _ _ _ href); set_solver.
      * left. rewrite Hoff. set_solver.
      * right. by exists h.
Qed.

Lemma link_offset_Some param ident href n :
  Utils.link_offset first_value param ident href = Some n →
  ∃ h value,
    href = Some h ∧ first_value h param = Some value ∧
    Py.contains "." (Py.before ";" value) = true ∧
    Py.before "." (Py.before ";" value) = ident ∧
    Py.leading_digits (Py.before "#" (Py.after "." (Py.before ";" value))) ≠ "" ∧
    n = Py.int (Py.leading_digits
                  (Py.before "#" (Py.after "." (Py.before ";" value)))).
Proof.
  unfold Utils.link_offset. intros Hoff.
  destruct href as [h|]; [|done].
  assert (match first_value h param with
          | Some value =>
              if negb (Py.contains "." (Py.before ";" value)) then None
              else if negb (Py.before "." (Py.before ";" value) =? ident)%string
              then None
              else match Py.match_digits
                           (Py.before "#" (Py.after "." (Py.before ";" value)))
                   with Some run => Some (Py.int run) | None => None end
          | None => None
          end = Some n) as Hoff' by (by destruct h).
  clear Hoff. destruct (first_value h param) as [value|] eqn:Hv; [|done].
  exists h, value.
  destruct (Py.contains _ _) eqn:Hdot; [|done]. simpl in Hoff'.
  destruct (String.eqb_spec (Py.before "." (Py.before ";" value)) ident)
    as [Hid|]; [|done].
  simpl in Hoff'. unfold Py.match_digits in Hoff'.
  destruct (Py.leading_digits _) as [|c run] eqn:Hrun; [done|].
  injection Hoff' as <-. by split_and!.
Qed.
End collect_offsets.

(** ** C2: the retry ceiling *)

Section retry.
Variable first_value : string → string → option string.
Implicit Types (self : Spider.spider) (req : Spider.request)
  (resp : Spider.response) (answers : list (Z * string * Spider.page)).

Lemma challenged_status st u req pg :
  st = 403 ∨ st = 520 → Spider.challenged (Spider.Response st u req pg) = true.
Proof. intros [-> | ->]; reflexivity. Qed.

(** A challenged response goes to [_retry_with_new_context], whatever the
    callback. *)
Lemma handle_challenged self resp :
  Spider.challenged resp = true →
  Spider.handle first_value self resp =
    Some ((Spider._retry_with_new_context self resp).1,
          match (Spider._retry_with_new_context self resp).2 with
          | Some r => [Spider.YieldRequest r]
          | None => []
          end).
Proof.
  intros Hch. unfold Spider.handle, Spider.parse_board, Spider.parse_topic.
  rewrite Hch. by destruct (Spider.req_callback _), (Spider._retry_with_new_context _ _).
Qed.

Lemma retry_manual self resp :
  Spider.self_cf_mode self = Spider.Manual →
  Spider._retry_with_new_context self resp = (self, None).
Proof. unfold Spider._retry_with_new_context. by intros ->. Qed.

Lemma retry_exhausted self resp :
  3 ≤ default 0 (Spider.cf_retry (Spider.resp_meta resp)) →
  (Spider._retry_with_new_context self resp).2 = None.
Proof.
  intros Hk. unfold Spider._retry_with_new_context, Spider.cf_max_retries.
  destruct (Spider.self_cf_mode self); [|done].
  rewrite bool_decide_eq_true_2; [done|lia].
Qed.

Lemma retry_auto self resp :
  Spider.self_cf_mode self = Spider.Auto →
  default 0 (Spider.cf_retry (Spider.resp_meta resp)) < 3 →
  ∃ r,
    Spider._retry_with_new_context self resp =
      (Spider.with_uuid_draws self (S (Spider.uuid_draws self)), Some r)
    ∧ Spider.req_url r = Spider.req_url (Spider.resp_request resp)
    ∧ Spider.req_callback r = Spider.req_callback (Spider.resp_request resp)
    ∧ Spider.dont_filter r = true
    ∧ Spider.playwright_context (Spider.req_meta r) = Some (Spider.uuid_draws self)
    ∧ Spider.cf_retry (Spider.keys (Spider.req_meta r)) =
        Some (default 0 (Spider.cf_retry (Spider.resp_meta resp)) + 1).
Proof.
  intros Hmode Hk. unfold Spider._retry_with_new_context, Spider.cf_max_retries.
  rewrite Hmode, bool_decide_eq_false_2 by lia.
  eexists. split; [reflexivity|]. by split_and!.
Qed.

(** The retries of a request whose counter is [k], in automatic mode. *)
Lemma attempts_auto answers : ∀ self req k,
  Spider.self_cf_mode self = Spider.Auto →
  Forall Spider.challenge_status answers →
  default 0 (Spider.cf_retry (Spider.keys (Spider.req_meta req))) = k →
  let retries := (Spider.attempts first_value self req answers).2 in
  length retries = Nat.min (Z.to_nat (3 - k)) (length answers)
  ∧ Forall (λ r, Spider.req_url r = Spider.req_url req
                 ∧ Spider.req_callback r = Spider.req_callback req
                 ∧ Spider.dont_filter r = true) retries
  ∧ (λ r, Spider.cf_retry (Spider.keys (Spider.req_meta r))) <$> retries
    = (λ i, Some (k + Z.of_nat i)) <$> seq 1 (length retries)
  ∧ (λ r, Spider.playwright_context (Spider.req_meta r)) <$> retries
    = Some <$> seq (Spider.uuid_draws self) (length retries).
Proof.
  induction answers as [|[[st u] pg] answers IH]; intros self req k Hmode Hall Hk.
  { simpl. split_and!; [lia|done..]. }
  apply Forall_cons in Hall as [Hst Hall].
  cbn [Spider.attempts].
  rewrite handle_challenged by (by apply challenged_status).
  destruct (decide (k < 3)) as [Hlt|Hge].
  - destruct (retry_auto self (Spider.Response st u req pg) Hmode)
      as (r & -> & Hurl & Hcb & Hdf & Hctx & Hretry);
      [unfold Spider.resp_meta; simpl; lia|].
    cbn [fst snd].
    specialize (IH (Spider.with_uuid_draws self (S (Spider.uuid_draws self)))
                  r (k + 1) Hmode Hall).
    destruct (Spider.attempts _ _ r answers) as [self'' later].
    cbn [fst snd] in *.
    destruct IH as (Hlen & Hsame & Hcount & Hctxs).
    { rewrite Hretry. simpl. unfold Spider.resp_meta. simpl. lia. }
    split_and!.
    + simpl. rewrite Hlen. lia.
    + constructor; [done|]. eapply Forall_impl; [exact Hsame|].
      simpl. intros r' (-> & -> & ->). done.
    + cbn [length seq]. rewrite !fmap_cons, Hretry, Hcount.
      unfold Spider.resp_meta. cbn [Spider.resp_request]. rewrite Hk.
      change (Z.of_nat 1) with 1. f_equal.
      rewrite <-(fmap_S_seq 1), <-list_fmap_compose.
      apply list_fmap_ext. intros ? i _. simpl. f_equal. lia.
    + cbn [length seq]. rewrite !fmap_cons, Hctx, Hctxs. done.
  - rewrite retry_exhausted by (unfold Spider.resp_meta; simpl; lia).
    simpl. split_and!; [lia|done..].
Qed.

Lemma attempts_manual answers self req :
  Spider.self_cf_mode self = Spider.Manual →
  Forall Spider.challenge_status answers →
  (Spider.attempts first_value self req answers).2 = [].
Proof.
  intros Hmode Hall. destruct answers as [|[[st u] pg] answers]; [done|].
  apply Forall_cons in Hall as [Hst _]. cbn [Spider.attempts].
  rewrite handle_challenged by (by apply challenged_status).
  by rewrite retry_manual.
Qed.
End retry.

(** C2. A request (created with retry counter 0) whose every response has a
    challenge status, 403 or 520, is retried at most 3 times: in automatic
    mode exactly 3 times when the challenges go on, each retry being the
    same request in a new browsing context with the counter 1, 2, 3; in
    manual mode never.  Once the counter is 3 the retry controller returns
    no request. *)
Theorem challenge_retry_ceiling
    (first_value : string → string → option string)
    (self : Spider.spider) (req : Spider.request)
    (answers : list (Z * string * Spider.page)) :
  Forall Spider.challenge_status answers →
  default 0 (Spider.cf_retry (Spider.keys (Spider.req_meta req))) = 0 →
  let retries := (Spider.attempts first_value self req answers).2 in
  (length retries ≤ 3)%nat
  ∧ (Spider.self_cf_mode self = Spider.Auto →
     length retries = Nat.min 3 (length answers))
  ∧ (Spider.self_cf_mode self = Spider.Manual → retries = [])
  ∧ Forall (λ r, Spider.req_url r = Spider.req_url req
                 ∧ Spider.req_callback r = Spider.req_callback req
                 ∧ Spider.dont_filter r = true) retries
  ∧ (λ r, Spider.cf_retry (Spider.keys (Spider.req_meta r))) <$> retries
    = (λ i, Some (Z.of_nat i)) <$> seq 1 (length retries)
  ∧ (λ r, Spider.playwright_context (Spider.req_meta r)) <$> retries
    = Some <$> seq (Spider.uuid_draws self) (length retries)
  ∧ (∀ self' resp,
       Spider.cf_max_retries ≤ default 0 (Spider.cf_retry (Spider.resp_meta resp)) →
       (Spider._retry_with_new_context self' resp).2 = None).
Proof.
  intros Hall Hk retries. subst retries.
  destruct (Spider.self_cf_mode self) eqn:Hmode.
  - destruct (attempts_auto first_value answers self req 0 Hmode Hall Hk)
      as (Hlen & Hsame & Hcount & Hctx).
    split_and!; [change (Z.to_nat (3 - 0)) with 3%nat in Hlen; lia
                |done|done|done|done|done|].
    intros self' resp. apply retry_exhausted.
  - rewrite (attempts_manual first_value answers self req Hmode Hall).
    split_and!; [simpl; lia|done..|].
    intros self' resp. apply retry_exhausted.
Qed.

(** ** C3: topics are scheduled once *)

Section dedup.
Variable first_value : string → string → option string.
Implicit Types (self : Spider.spider) (resp : Spider.response)
  (topics : list Spider.TopicSummaryItem) (id : string).

Lemma dedup_step_nothing self self' :
  Spider.topic_seen self' = Spider.topic_seen self →
  Spider.dedup_step self (self', []).
Proof.
  intros E. unfold Spider.dedup_step. simpl. rewrite E.
  split_and!; [done|constructor| |done].
  intros id Hid. by apply elem_of_nil in Hid.
Qed.

Lemma board_topics_loop_dedup topics : ∀ self,
  Spider.dedup_step self (Spider.board_topics_loop self topics).
Proof.
  induction topics as [|topic topics IH]; intros self.
  { by apply dedup_step_nothing. }
  cbn [Spider.board_topics_loop].
  case_bool_decide as Hseen; [apply IH|].
  destruct (_ && _); [by apply dedup_step_nothing|].
  set (self1 := Spider.with_topic_seen self _).
  specialize (IH self1).
  destruct (Spider.board_topics_loop self1 topics) as [self' outs].
  destruct IH as (Hsub & Hnd & Hnew & Hsched). simpl in *.
  unfold Spider.dedup_step. simpl.
  set (sched := if Spider.fetch_posts self then _ else _).
  assert (Spider.summarized_topics (sched ++ outs)
          = Spider.summarized_topics outs) as ->.
  { subst sched. by destruct (Spider.fetch_posts self). }
  split_and!.
  - set_solver.
  - apply NoDup_cons. split; [|done].
    intros Hin. apply Hnew in Hin as [Hin _]. set_solver.
  - intros id [->|Hin]%elem_of_cons; [set_solver|].
    apply Hnew in Hin as [Hin ?]. set_solver.
  - subst sched. destruct (Spider.fetch_posts self).
    + by apply sublist_skip.
    + by apply sublist_cons.
Qed.

Lemma summarized_app outs1 outs2 :
  Spider.summarized_topics (outs1 ++ outs2) =
  Spider.summarized_topics outs1 ++ Spider.summarized_topics outs2.
Proof. apply omap_app. Qed.

Lemma scheduled_app outs1 outs2 :
  Spider.scheduled_topics (outs1 ++ outs2) =
  Spider.scheduled_topics outs1 ++ Spider.scheduled_topics outs2.
Proof. apply omap_app. Qed.

Lemma parse_board_dedup self resp :
  Spider.req_callback (Spider.resp_request resp) = Spider.ParseBoard →
  Spider.dedup_step self (Spider.parse_board first_value self resp).
Proof.
  intros Hcb. unfold Spider.parse_board.
  destruct (Spider.challenged resp).
  { unfold Spider._retry_with_new_context.
    destruct (Spider.self_cf_mode self); [|by apply dedup_step_nothing].
    case_bool_decide; [by apply dedup_step_nothing|].
    simpl. unfold Spider.dedup_step. simpl.
    unfold Spider.scheduled_topics, Spider.summarized_topics. simpl.
    rewrite Hcb. split_and!; [done|constructor| |done].
    intros id Hid. by apply elem_of_nil in Hid. }
  set (offset := default 0 _).
  set (self1 := if Spider.board_metadata_emitted self then _ else _).
  assert (Spider.topic_seen self1.1 = Spider.topic_seen self
          ∧ Spider.summarized_topics self1.2 = []
          ∧ Spider.scheduled_topics self1.2 = []) as (Eseen & Esum & Esched).
  { subst self1. by destruct (Spider.board_metadata_emitted self). }
  destruct self1 as [self1 info]. simpl in *.
  pose proof (board_topics_loop_dedup
                (Spider._extract_topics first_value self1 (Spider.soup resp)
                   offset (Spider.resp_url resp)) self1) as Hloop.
  destruct (Spider.board_topics_loop self1 _) as [self2 emitted].
  destruct Hloop as (Hsub & Hnd & Hnew & Hsched). simpl in *.
  rewrite Eseen in *.
  assert (∀ tail,
            Spider.summarized_topics tail = [] →
            Spider.scheduled_topics tail = [] →
            Spider.dedup_step self
              (Spider.with_board_pages_processed self2
                 (Spider.board_pages_processed self2 + 1),
               info ++ emitted ++ tail)) as Hout.
  { intros tail Hts Htr. unfold Spider.dedup_step. simpl.
    rewrite !summarized_app, !scheduled_app, Esum, Esched, Hts, Htr.
    simpl. by rewrite !app_nil_r. }
  destruct (_ && _).
  { specialize (Hout [] eq_refl eq_refl). by rewrite app_nil_r in Hout. }
  destruct (Utils.next_offset _ _).
  - by apply Hout.
  - specialize (Hout [] eq_refl eq_refl). by rewrite app_nil_r in Hout.
Qed.

Lemma run_boards_dedup resps : ∀ self,
  Forall (λ resp, Spider.req_callback (Spider.resp_request resp) = Spider.ParseBoard)
    resps →
  Spider.dedup_step self (Spider.run_boards first_value self resps).
Proof.
  induction resps as [|resp resps IH]; intros self Hall.
  { by apply dedup_step_nothing. }
  apply Forall_cons in Hall as [Hcb Hall]. cbn [Spider.run_boards].
  pose proof (parse_board_dedup self resp Hcb) as Hfirst.
  destruct (Spider.parse_board first_value self resp) as [self1 outs].
  specialize (IH self1 Hall).
  destruct (Spider.run_boards first_value self1 resps) as [self2 outs'].
  destruct Hfirst as (Hsub1 & Hnd1 & Hnew1 & Hsched1).
  destruct IH as (Hsub2 & Hnd2 & Hnew2 & Hsched2). simpl in *.
  unfold Spider.dedup_step. simpl. rewrite summarized_app, scheduled_app.
  split_and!.
  - set_solver.
  - apply NoDup_app. split_and!; [done| |done].
    intros id Hin1 Hin2. apply Hnew1 in Hin1 as [_ Hin1].
    apply Hnew2 in Hin2 as [Hin2 _]. done.
  - intros id [Hin|Hin]%elem_of_app.
    + apply Hnew1 in Hin as [? ?]. set_solver.
    + apply Hnew2 in Hin as [? ?]. set_solver.
  - by apply sublist_app.
Qed.
End dedup.

(** C3. Over the board pages of one run, handled one after the other from
    any state of the dedup set, the topics for which [parse_board] yields a
    request to [parse_topic] are pairwise distinct, as are those for which
    it yields a summary; a topic already in the dedup set gets neither, on
    this page or on a later one. *)
Theorem topics_scheduled_once
    (first_value : string → string → option string)
    (self : Spider.spider) (resps : list Spider.response) :
  Forall (λ resp, Spider.req_callback (Spider.resp_request resp) = Spider.ParseBoard)
    resps →
  let outs := (Spider.run_boards first_value self resps).2 in
  NoDup (Spider.scheduled_topics outs)
  ∧ NoDup (Spider.summarized_topics outs)
  ∧ (∀ id, id ∈ Spider.topic_seen self →
           (id ∉ Spider.scheduled_topics outs)
           ∧ (id ∉ Spider.summarized_topics outs)).
Proof.
  intros Hall outs. subst outs.
  destruct (run_boards_dedup first_value resps self Hall)
    as (_ & Hnd & Hnew & Hsched).
  split_and!.
  - by eapply sublist_NoDup.
  - done.
  - intros id Hseen.
    assert (id ∉ Spider.summarized_topics
                   (Spider.run_boards first_value self resps).2) as Hnot.
    { intros Hin. by apply Hnew in Hin as [? _]. }
    split; [|done]. intros Hin. apply Hnot.
    by eapply elem_of_sublist.
Qed.

(** ** C8, continued: a page without pagination links ends the traversal *)

Section last_page.
Variable first_value : string → string → option string.
Implicit Types (self : Spider.spider) (resp : Spider.response).





End last_page.


(** ** C6: post positions *)

Section positions.
Implicit Types (ws : list Spider.post_wrapper) (idx k : Z)
  (board topic url : string).

Lemma extract_positions_above ws : ∀ idx board topic k url,
  Forall (λ p, k + idx < Spider.po_position p)
    (Spider.extract_posts_from idx ws board topic k url).
Proof.
  induction ws as [|w ws IH]; intros idx board topic k url; simpl; [constructor|].
  assert (Forall (λ p, k + idx < Spider.po_position p)
            (Spider.extract_posts_from (idx + 1) ws board topic k url)) as Hrest.
  { eapply Forall_impl; [apply IH|]. simpl. intros; lia. }
  destruct (Spider.inner_id w) as [attr|]; [|done].
  destruct (String.prefix "msg_" attr); simpl; [|done].
  constructor; [simpl; lia|done].
Qed.

Lemma extract_positions_increasing ws : ∀ idx board topic k url,
  StronglySorted Z.lt
    (Spider.po_position <$> Spider.extract_posts_from idx ws board topic k url).
Proof.
  induction ws as [|w ws IH]; intros idx board topic k url; simpl; [constructor|].
  destruct (Spider.inner_id w) as [attr|]; [|apply IH].
  destruct (String.prefix "msg_" attr); simpl; [|apply IH].
  constructor; [apply IH|].
  apply Forall_fmap.
  eapply Forall_impl; [apply (extract_positions_above ws (idx + 1))|].
  simpl. intros; lia.
Qed.

Lemma extract_posts_origin ws : ∀ idx board topic k url p,
  p ∈ Spider.extract_posts_from idx ws board topic k url →
  ∃ (i : nat) w attr,
    ws !! i = Some w ∧ Spider.inner_id w = Some attr
    ∧ String.prefix "msg_" attr = true
    ∧ Spider.po_post_id p = Py.remove_all "msg_" attr
    ∧ Spider.po_position p = k + (idx + Z.of_nat i) + 1.
Proof.
  induction ws as [|w ws IH]; intros idx board topic k url p Hp; simpl in Hp.
  { by apply elem_of_nil in Hp. }
  assert (p ∈ Spider.extract_posts_from (idx + 1) ws board topic k url →
          ∃ (i : nat) w' attr,
            (w :: ws) !! i = Some w' ∧ Spider.inner_id w' = Some attr
            ∧ String.prefix "msg_" attr = true
            ∧ Spider.po_post_id p = Py.remove_all "msg_" attr
            ∧ Spider.po_position p = k + (idx + Z.of_nat i) + 1) as Hrest.
  { intros (i & w' & attr & Hi & ? & ? & ? & Hpos)%IH.
    exists (S i), w', attr. split_and!; [done..|]. lia. }
  destruct (Spider.inner_id w) as [attr|] eqn:Hattr; [|by apply Hrest].
  destruct (String.prefix "msg_" attr) eqn:Hpre; simpl in Hp; [|by apply Hrest].
  apply elem_of_cons in Hp as [->|Hp]; [|by apply Hrest].
  exists 0%nat, w, attr. simpl. split_and!; [done..|]. lia.
Qed.

Lemma extract_posts_cover ws : ∀ idx board topic k url (i : nat) w,
  ws !! i = Some w → Spider.extractable w →
  ∃ p, p ∈ Spider.extract_posts_from idx ws board topic k url
       ∧ Spider.po_position p = k + (idx + Z.of_nat i) + 1.
Proof.
  induction ws as [|w' ws IH]; intros idx board topic k url i w Hi Hw; [done|].
  simpl. destruct i as [|i]; simpl in Hi.
  - injection Hi as ->. destruct Hw as (attr & -> & ->). simpl.
    eexists. split; [by left|]. simpl. lia.
  - destruct (IH (idx + 1) board topic k url i w Hi Hw) as (p & Hp & Hpos).
    exists p. split; [|lia].
    destruct (Spider.inner_id w'); [|done].
    destruct (String.prefix _ _); simpl; [by right|done].
Qed.

Lemma extract_positions_contiguous ws : ∀ idx board topic k url,
  Forall Spider.extractable ws →
  Spider.po_position <$> Spider.extract_posts_from idx ws board topic k url
  = seqZ (k + idx + 1) (Z.of_nat (length ws)).
Proof.
  induction ws as [|w ws IH]; intros idx board topic k url Hall; [done|].
  apply Forall_cons in Hall as [(attr & Hattr & Hpre) Hall].
  cbn [Spider.extract_posts_from length]. rewrite Hattr, Hpre. simpl negb. cbv iota.
  rewrite fmap_cons, IH by done. cbn [Spider.po_position].
  rewrite (seqZ_cons (k + idx + 1)) by lia.
  f_equal. f_equal; lia.
Qed.
End positions.

(** C6 (as amended). The positions of the posts of a page are strictly
    increasing; the post made from the wrapper at index [i] of the page has
    position [k + i + 1], for the starting offset [k]; when every wrapper of
    the page yields a post the positions are [k + 1 .. k + n].  Five posts
    at offset 0 get 1..5 and three posts at offset 5 get 6..8. *)
Theorem post_positions (pg : Spider.page) (board topic : string) (k : Z)
    (url : string) :
  let posts := Spider._extract_posts pg board topic k url in
  StronglySorted Z.lt (Spider.po_position <$> posts)
  ∧ (∀ p, p ∈ posts →
       ∃ (i : nat) w attr,
         Spider.post_wrappers pg !! i = Some w
         ∧ Spider.inner_id w = Some attr
         ∧ String.prefix "msg_" attr = true
         ∧ Spider.po_post_id p = Py.remove_all "msg_" attr
         ∧ Spider.po_position p = k + Z.of_nat i + 1)
  ∧ (∀ (i : nat) w,
       Spider.post_wrappers pg !! i = Some w → Spider.extractable w →
       ∃ p, p ∈ posts ∧ Spider.po_position p = k + Z.of_nat i + 1)
  ∧ (Forall Spider.extractable (Spider.post_wrappers pg) →
     Spider.po_position <$> posts
     = seqZ (k + 1) (Z.of_nat (length (Spider.post_wrappers pg))))
  ∧ (λ p, (Spider.po_post_id p, Spider.po_position p))
      <$> Spider._extract_posts Examples.topic_page_1 board topic 0 url
    = [("5001", 1); ("5002", 2); ("5003", 3); ("5004", 4); ("5005", 5)]
  ∧ (λ p, (Spider.po_post_id p, Spider.po_position p))
      <$> Spider._extract_posts Examples.topic_page_2 board topic 5 url
    = [("5006", 6); ("5007", 7); ("5008", 8)].
Proof.
  intros posts. subst posts. unfold Spider._extract_posts. split_and!.
  - apply extract_positions_increasing.
  - intros p Hp.
    destruct (extract_posts_origin _ _ _ _ _ _ _ Hp)
      as (i & w & attr & ? & ? & ? & ? & Hpos).
    exists i, w, attr. split_and!; [done..|]. lia.
  - intros i w Hi Hw.
    destruct (extract_posts_cover _ 0 board topic k url i w Hi Hw) as (p & ? & Hpos).
    exists p. split; [done|]. lia.
  - intros Hall. rewrite extract_positions_contiguous by done. f_equal. lia.
  - reflexivity.
  - reflexivity.
Qed.

(** C6, the claim as written fails: when a wrapper is skipped the two posts
    extracted at offset 0 get the positions 1 and 3, not 1 and 2. *)
Lemma post_positions_gap_counterexample :
  length (Spider._extract_posts Examples.topic_page_gap "8" "101" 0 "u") = 2%nat
  ∧ Spider.po_position
      <$> Spider._extract_posts Examples.topic_page_gap "8" "101" 0 "u" = [1; 3]
  ∧ Spider.po_position
      <$> Spider._extract_posts Examples.topic_page_gap "8" "101" 0 "u"
    ≠ seqZ (0 + 1) 2.
Proof. split_and!; [reflexivity|reflexivity|discriminate]. Qed.

(** C2, at a concrete input: the request of [start_requests], challenged
    five times in a row, is retried three times. *)
Lemma challenge_retry_ceiling_witness :
  length (Spider.attempts Examples.first_value Examples.spider
            Examples.start_request Examples.challenges).2 = 3%nat.
Proof.
  refine (proj1 (proj2 (challenge_retry_ceiling Examples.first_value
                          Examples.spider Examples.start_request
                          Examples.challenges _ _)) eq_refl).
  - unfold Examples.challenges, Spider.challenge_status.
    repeat (apply Forall_cons_2;
            [first [left; reflexivity|right; reflexivity]|]).
    apply Forall_nil_2.
  - reflexivity.
Defined.

(** C3, at a concrete input: topic 101 is listed on both board pages and is
    scheduled once. *)
Lemma topics_scheduled_once_witness :
  NoDup (Spider.scheduled_topics
           (Spider.run_boards Examples.first_value Examples.spider
              Examples.board_responses).2).
Proof.
  refine (proj1 (topics_scheduled_once Examples.first_value Examples.spider
                   Examples.board_responses _)).
  unfold Examples.board_responses. repeat constructor.
Defined.

Example topics_scheduled_once_ex :
  Spider.scheduled_topics
    (Spider.run_boards Examples.first_value Examples.spider
       Examples.board_responses).2 = ["101"; "102"; "103"].
Proof. vm_compute. reflexivity. Qed.

(** ** C9: saving the session artifact *)

Section save.
Variable dumps : Spider.storage_state_dict → string.
Variable default_output_dir : string.
Implicit Types (fs : gmap string Spider.file) (path data : string).




(** The steps of [_ensure_storage_state]: the directory, then no, one or
    two in-place writes of the same data. *)
Lemma ensure_storage_state_steps self fs now operator auto_result :
  ∃ (n : nat) st,
    (Spider._ensure_storage_state dumps default_output_dir self fs now
       operator auto_result).2
    = Spider.Mkdir (default default_output_dir (Spider.data_dir self))
      :: concat (replicate n
                   (Spider.write_text
                      (Spider._ensure_storage_state dumps default_output_dir
                         self fs now operator auto_result).1
                      (dumps st)))
    ∧ (Spider._ensure_storage_state dumps default_output_dir self fs now
         operator auto_result).1
      = default default_output_dir (Spider.data_dir self)
        +:+ "/playwright_state.json".
Proof.
  unfold Spider._ensure_storage_state.
  set (path := _ +:+ "/playwright_state.json").
  set (st0 := Spider.StorageState [] []).
  destruct (match fs !! path with Some _ => _ | None => _ end).
  { by exists 0%nat, st0. }
  destruct (Spider.self_cf_mode self).
  - destruct (Spider.self_bootstrap_mode self); [|by exists 0%nat, st0].
    destruct auto_result as [st|]; [|by exists 0%nat, st0].
    destruct (Spider.cookies st); [by exists 0%nat, st0|by exists 1%nat, st].
  - destruct operator as [st|]; simpl; [|by exists 0%nat, st0].
    destruct (Spider.cookies st); [by exists 1%nat, st|by exists 2%nat, st].
Qed.
End save.



(** ** Python dicts *)

Section dict_facts.
Context {K : Type} `{EqDecision K} {V : Type}.
Implicit Types (d new l : list (K * V)) (k : K) (v : V).

Lemma dict_get_set k k' v d :
  Pipelines.dict_get k' (Pipelines.dict_set k v d)
  = if decide (k = k') then Some v else Pipelines.dict_get k' d.
Proof.
  induction d as [|[k0 v0] d IH]; simpl; [done|].
  destruct (decide (k0 = k)) as [->|Hne]; simpl; rewrite ?IH;
    repeat case_decide; by simplify_eq.
Qed.

Lemma dict_get_app k l1 l2 :
  Pipelines.dict_get k (l1 ++ l2)
  = match Pipelines.dict_get k l1 with
    | Some v => Some v
    | None => Pipelines.dict_get k l2
    end.
Proof.
  induction l1 as [|[k0 v0] l1 IH]; simpl; [done|]. by case_decide.
Qed.

Lemma dict_get_elem k v l : Pipelines.dict_get k l = Some v → (k, v) ∈ l.
Proof.
  induction l as [|[k0 v0] l IH]; simpl; [done|].
  case_decide as E; [intros [= ->]; subst; by left|]. intros ?. right. by apply IH.
Qed.

Lemma dict_get_None k l : Pipelines.dict_get k l = None ↔ k ∉ l.*1.
Proof.
  induction l as [|[k0 v0] l IH]; simpl.
  - split; [intros _ Hin; by apply elem_of_nil in Hin|done].
  - rewrite not_elem_of_cons. case_decide as E; [|naive_solver].
    split; [done|]. intros [? _]. by subst.
Qed.

Lemma dict_get_NoDup k v l :
  NoDup l.*1 → (k, v) ∈ l → Pipelines.dict_get k l = Some v.
Proof.
  induction l as [|[k0 v0] l IH]; simpl; intros Hnd Hin.
  { by apply elem_of_nil in Hin. }
  apply NoDup_cons in Hnd as [Hk0 Hnd].
  apply elem_of_cons in Hin as [[= -> ->]|Hin]; [by rewrite decide_True|].
  rewrite decide_False; [by apply IH|]. intros ->. apply Hk0.
  apply list_elem_of_fmap. by exists (k, v).
Qed.

Lemma dict_get_reverse k l :
  NoDup l.*1 → Pipelines.dict_get k (reverse l) = Pipelines.dict_get k l.
Proof.
  intros Hnd. destruct (Pipelines.dict_get k l) as [v|] eqn:E.
  - apply dict_get_NoDup.
    + by rewrite fmap_reverse, reverse_Permutation.
    + apply elem_of_reverse. by apply dict_get_elem.
  - apply dict_get_None. rewrite fmap_reverse, elem_of_reverse.
    by apply dict_get_None.
Qed.

Lemma dict_set_notin k v d : k ∉ d.*1 → Pipelines.dict_set k v d = d ++ [(k, v)].
Proof.
  induction d as [|[k0 v0] d IH]; simpl; [done|].
  rewrite not_elem_of_cons. intros [Hne Hk].
  rewrite decide_False by done. by rewrite IH.
Qed.

Lemma dict_set_keys_in k v d : k ∈ d.*1 → (Pipelines.dict_set k v d).*1 = d.*1.
Proof.
  induction d as [|[k0 v0] d IH]; simpl; intros Hin.
  { by apply elem_of_nil in Hin. }
  case_decide as E; [by subst|]. simpl. f_equal. apply IH.
  apply elem_of_cons in Hin as [?|?]; [by subst|done].
Qed.

Lemma dict_set_NoDup k v d : NoDup d.*1 → NoDup (Pipelines.dict_set k v d).*1.
Proof.
  intros Hnd. destruct (decide (k ∈ d.*1)) as [Hin|Hin].
  - by rewrite dict_set_keys_in.
  - rewrite dict_set_notin, fmap_app by done. simpl.
    apply NoDup_app. split_and!; [done| |apply NoDup_singleton].
    intros k' Hk' ->%list_elem_of_singleton. done.
Qed.

Lemma dict_set_elem k v d kv :
  kv ∈ Pipelines.dict_set k v d → kv = (k, v) ∨ kv ∈ d.
Proof.
  induction d as [|[k0 v0] d IH]; simpl.
  { intros ->%list_elem_of_singleton. by left. }
  case_decide.
  - intros [->|?]%elem_of_cons; [by left|right; by right].
  - intros [->|Hin]%elem_of_cons; [right; by left|].
    destruct (IH Hin); [by left|right; by right].
Qed.

Lemma dict_set_length_in k v d :
  k ∈ d.*1 → length (Pipelines.dict_set k v d) = length d.
Proof.
  intros Hin. rewrite <-(length_fmap fst), dict_set_keys_in by done.
  by rewrite length_fmap.
Qed.

Lemma dict_update_cons d k v new :
  Pipelines.dict_update d ((k, v) :: new)
  = Pipelines.dict_update (Pipelines.dict_set k v d) new.
Proof. reflexivity. Qed.

Lemma dict_update_elem d new kv :
  kv ∈ Pipelines.dict_update d new → kv ∈ new ∨ kv ∈ d.
Proof.
  revert d. induction new as [|[k v] new IH]; intros d; [by right|].
  rewrite dict_update_cons. intros [?|Hin]%IH; [left; by right|].
  apply dict_set_elem in Hin as [->|?]; [left; by left|by right].
Qed.

Lemma dict_update_NoDup d new : NoDup d.*1 → NoDup (Pipelines.dict_update d new).*1.
Proof.
  revert d. induction new as [|[k v] new IH]; intros d Hnd; [done|].
  rewrite dict_update_cons. by apply IH, dict_set_NoDup.
Qed.

Lemma dict_get_update k d new :
  Pipelines.dict_get k (Pipelines.dict_update d new)
  = match Pipelines.dict_get k (reverse new) with
    | Some v => Some v
    | None => Pipelines.dict_get k d
    end.
Proof.
  revert d. induction new as [|[k0 v0] new IH]; intros d; [done|].
  rewrite dict_update_cons, IH, reverse_cons, dict_get_app, dict_get_set. simpl.
  destruct (Pipelines.dict_get k (reverse new)); [done|].
  by case_decide.
Qed.

Lemma dict_update_append d l :
  NoDup (d ++ l).*1 → Pipelines.dict_update d l = d ++ l.
Proof.
  revert d. induction l as [|[k v] l IH]; intros d Hnd.
  { by rewrite app_nil_r. }
  rewrite dict_update_cons, dict_set_notin.
  - rewrite IH; [by rewrite <-app_assoc|]. by rewrite <-app_assoc.
  - rewrite fmap_app in Hnd. apply NoDup_app in Hnd as (_ & Hdisj & _).
    intros Hin. apply (Hdisj k Hin). by left.
Qed.

Lemma dict_of_NoDup l : NoDup l.*1 → Pipelines.dict_of l = l.
Proof. intros. by apply (dict_update_append []). Qed.

Lemma dict_set_replace k v d :
  NoDup d.*1 → k ∈ d.*1 →
  Pipelines.dict_set k v d
  = (λ e, if decide (e.1 = k) then (k, v) else e) <$> d.
Proof.
  induction d as [|[k0 v0] d IH]; simpl; intros Hnd Hin.
  { by apply elem_of_nil in Hin. }
  apply NoDup_cons in Hnd as [Hk0 Hnd]. case_decide as E.
  - subst. f_equal. symmetry. rewrite <-(list_fmap_id d) at 2.
    apply list_fmap_ext. intros i [k' v'] Hi. simpl.
    rewrite decide_False; [done|]. intros ->. apply Hk0.
    apply list_elem_of_fmap. exists (k, v'). split; [done|].
    by eapply list_elem_of_lookup_2.
  - f_equal. apply IH; [done|].
    apply elem_of_cons in Hin as [?|?]; [by subst|done].
Qed.

(** Updating only keys that are present changes values in place. *)
Lemma dict_update_in_place d new :
  NoDup d.*1 → new.*1 ⊆ d.*1 →
  Pipelines.dict_update d new
  = (λ e, (e.1, default e.2 (Pipelines.dict_get e.1 (reverse new)))) <$> d.
Proof.
  revert d. induction new as [|[k v] new IH]; intros d Hnd Hsub.
  { simpl. rewrite <-(list_fmap_id d) at 1. apply list_fmap_ext. by intros i [??] _. }
  assert (k ∈ d.*1) as Hk by (apply Hsub; by left).
  rewrite dict_update_cons, IH.
  - rewrite dict_set_replace, <-list_fmap_compose by done.
    apply list_fmap_ext. intros i [k' v'] _. simpl.
    rewrite reverse_cons, dict_get_app. simpl.
    case_decide as E; simpl.
    + subst. f_equal. destruct (Pipelines.dict_get k (reverse new)); [done|].
      simpl. by rewrite decide_True.
    + f_equal. destruct (Pipelines.dict_get k' (reverse new)); [done|].
      simpl. by rewrite decide_False.
  - by apply dict_set_NoDup.
  - rewrite dict_set_keys_in by done. intros x Hx. apply Hsub. by right.
Qed.
End dict_facts.

(** ** The sort *)

Section key_order.
Implicit Types (a b c : Z * string).

Lemma string_not_ltb s1 s2 : String.ltb s2 s1 = false ↔ String.le s1 s2.
Proof.
  unfold String.ltb, String.le, String.leb.
  rewrite (String.compare_antisym s1 s2).
  destruct (String.compare s2 s1); simpl; naive_solver.
Qed.

Lemma key_not_lt a b :
  Pipelines.key_lt b a = false ↔ a.1 < b.1 ∨ (a.1 = b.1 ∧ String.le a.2 b.2).
Proof.
  unfold Pipelines.key_lt. rewrite orb_false_iff, andb_false_iff.
  rewrite Z.ltb_ge, Z.eqb_neq, string_not_ltb.
  split; [|intros [?|[-> ?]]; split; auto with lia].
  intros [Hle [Hne|Hs]].
  - left. lia.
  - destruct (decide (a.1 = b.1)); [right; by split|left; lia].
Qed.

Lemma key_not_lt_trans a b c :
  Pipelines.key_lt b a = false → Pipelines.key_lt c b = false →
  Pipelines.key_lt c a = false.
Proof.
  rewrite !key_not_lt. intros [?|[? ?]] [?|[? ?]]; [left; lia..|].
  right. split; [congruence|]. by etrans.
Qed.

Lemma key_not_lt_antisym a b :
  Pipelines.key_lt b a = false → Pipelines.key_lt a b = false → a = b.
Proof.
  rewrite !key_not_lt. intros [?|[? ?]] [?|[? ?]]; [lia..|].
  destruct a, b; simpl in *. f_equal; [done|]. by apply (anti_symm String.le).
Qed.

Lemma key_lt_not_lt a b : Pipelines.key_lt a b = true → Pipelines.key_lt b a = false.
Proof.
  intros Hlt. destruct (Pipelines.key_lt b a) eqn:Hba; [|done].
  assert (Pipelines.key_lt a b = false); [|congruence].
  clear Hlt. revert Hba. unfold Pipelines.key_lt.
  rewrite orb_true_iff, andb_true_iff, orb_false_iff, andb_false_iff.
  rewrite Z.ltb_lt, Z.eqb_eq, Z.ltb_ge, Z.eqb_neq.
  intros [?|[? Hs]]; [split; [lia|left; lia]|].
  split; [lia|]. right. apply string_not_ltb.
  unfold String.ltb in Hs. unfold String.le, String.leb.
  by destruct (String.compare b.2 a.2).
Qed.
End key_order.

Section sort_facts.
Context {A : Type}.
Implicit Types (x y : (Z * string) * A) (l : list ((Z * string) * A)).

Lemma insert_by_key_perm x l : Pipelines.insert_by_key x l ≡ₚ x :: l.
Proof.
  induction l as [|y l IH]; simpl; [done|].
  destruct (Pipelines.key_lt y.1 x.1); [|done].
  by rewrite IH, Permutation_swap.
Qed.

Lemma sort_by_key_perm l : Pipelines.sort_by_key l ≡ₚ l.
Proof.
  induction l as [|x l IH]; simpl; [done|]. by rewrite insert_by_key_perm, IH.
Qed.

Lemma insert_by_key_HdRel y x l :
  Pipelines.key_le y x → HdRel Pipelines.key_le y l →
  HdRel Pipelines.key_le y (Pipelines.insert_by_key x l).
Proof.
  intros Hyx Hhd. destruct l as [|z l]; simpl; [by constructor|].
  destruct (Pipelines.key_lt z.1 x.1); constructor; [|done].
  by apply HdRel_inv in Hhd.
Qed.

Lemma insert_by_key_Sorted x l :
  Sorted Pipelines.key_le l → Sorted Pipelines.key_le (Pipelines.insert_by_key x l).
Proof.
  induction 1 as [|y l Hsorted IH Hhd]; simpl.
  { by repeat constructor. }
  destruct (Pipelines.key_lt y.1 x.1) eqn:Hlt.
  - constructor; [done|]. apply insert_by_key_HdRel; [|done].
    by apply key_lt_not_lt.
  - constructor; [by constructor|]. by constructor.
Qed.

Lemma sort_by_key_Sorted l : Sorted Pipelines.key_le (Pipelines.sort_by_key l).
Proof.
  induction l as [|x l IH]; simpl; [constructor|]. by apply insert_by_key_Sorted.
Qed.

(** The sort leaves a sorted list as it is. *)
Lemma sort_by_key_id l : Sorted Pipelines.key_le l → Pipelines.sort_by_key l = l.
Proof.
  induction 1 as [|x l Hsorted IH Hhd]; simpl; [done|]. rewrite IH.
  destruct Hhd as [|y l Hxy]; simpl; [done|].
  unfold Pipelines.key_le in Hxy. by rewrite Hxy.
Qed.

End sort_facts.

(** Being sorted is a matter of the keys only. *)
Lemma Sorted_key_le_keys {A B} (l : list ((Z * string) * A))
    (l' : list ((Z * string) * B)) :
  l.*1 = l'.*1 → Sorted Pipelines.key_le l → Sorted Pipelines.key_le l'.
Proof.
  intros Hkeys Hsorted. revert l' Hkeys.
  induction Hsorted as [|x l Hsorted IH Hhd]; intros l' Hkeys.
  { destruct l'; [constructor|done]. }
  destruct l' as [|x' l']; [done|]. injection Hkeys as Hx Hkeys.
  constructor; [by apply IH|].
  destruct Hhd as [|y l0 Hxy]; destruct l' as [|y' l']; try done; constructor.
  injection Hkeys as Hy _. unfold Pipelines.key_le in *. by rewrite <-Hx, <-Hy.
Qed.

Section sorted_facts.
Context {A : Type} (key : A → option (Z * string)).
Implicit Types (xs out : list A) (keyed : list ((Z * string) * A)).

Local Abbreviation with_key := (Pipelines.with_key key).

Lemma with_key_Some x kx : with_key x = Some kx ↔ key x = Some kx.1 ∧ kx.2 = x.
Proof.
  unfold Pipelines.with_key. destruct (key x) as [k|]; simpl; [|naive_solver].
  destruct kx as [k' x']; simpl. naive_solver.
Qed.

Lemma mapM_with_key xs keyed :
  mapM with_key xs = Some keyed ↔
  keyed.*2 = xs ∧ Forall (λ kx, key kx.2 = Some kx.1) keyed.
Proof.
  rewrite mapM_Some. split.
  - induction 1 as [|x kx xs keyed Hx _ [IH1 IH2]]; [done|].
    apply with_key_Some in Hx as [? ?]. rewrite fmap_cons.
    split; [congruence|]. constructor; [congruence|done].
  - intros [<- Hall]. induction Hall as [|kx keyed Hkx _ IH]; simpl; [constructor|].
    constructor; [|done]. by apply with_key_Some.
Qed.

Lemma sorted_Some xs out :
  Pipelines.sorted key xs = Some out ↔
  ∃ keyed, mapM with_key xs = Some keyed
           ∧ out = (Pipelines.sort_by_key keyed).*2.
Proof.
  unfold Pipelines.sorted.
  destruct (mapM with_key xs) as [keyed|]; simpl; [|naive_solver].
  split; [intros [= <-]; by exists keyed|]. by intros (? & [= <-] & ->).
Qed.

(** What a successful sort returns: the elements with their keys, in
    order. *)
Lemma sorted_keyed xs out :
  Pipelines.sorted key xs = Some out →
  ∃ keyed, keyed.*2 = out
           ∧ Forall (λ kx, key kx.2 = Some kx.1) keyed
           ∧ Sorted Pipelines.key_le keyed
           ∧ out ≡ₚ xs.
Proof.
  intros (keyed & Hkeyed & ->)%sorted_Some.
  apply mapM_with_key in Hkeyed as [<- Hall].
  exists (Pipelines.sort_by_key keyed). split_and!; [done| | |].
  - by rewrite sort_by_key_perm.
  - apply sort_by_key_Sorted.
  - by rewrite sort_by_key_perm.
Qed.

(** Elements with their keys, in order, sort to themselves. *)
Lemma sorted_of_keyed keyed :
  Forall (λ kx, key kx.2 = Some kx.1) keyed → Sorted Pipelines.key_le keyed →
  Pipelines.sorted key keyed.*2 = Some keyed.*2.
Proof.
  intros Hall Hsorted. apply sorted_Some. exists keyed. split.
  - by apply mapM_with_key.
  - by rewrite sort_by_key_id.
Qed.

Lemma sorted_defined xs :
  Forall (λ x, is_Some (key x)) xs → is_Some (Pipelines.sorted key xs).
Proof.
  intros Hall.
  assert (is_Some (mapM with_key xs)) as [keyed Hkeyed].
  { apply mapM_is_Some. eapply Forall_impl; [exact Hall|].
    intros x [k Hk]. exists (k, x). unfold Pipelines.with_key. by rewrite Hk. }
  exists (Pipelines.sort_by_key keyed).*2. apply sorted_Some. by exists keyed.
Qed.
End sorted_facts.

(** ** Related dicts and restamped payloads *)

Section dict_rel_facts.
Context {K : Type} `{EqDecision K} {V : Type} (R : V → V → Prop).
Implicit Types (d : list (K * V)) (k : K).

Lemma dict_rel_keys d1 d2 : Pipelines.dict_rel R d1 d2 → d1.*1 = d2.*1.
Proof.
  induction 1 as [|[k1 v1] [k2 v2] d1 d2 [Hk _] _ IH]; [done|].
  rewrite !fmap_cons. simpl in Hk. by rewrite Hk, IH.
Qed.

Lemma dict_rel_get d1 d2 k :
  Pipelines.dict_rel R d1 d2 →
  option_Forall2 R (Pipelines.dict_get k d1) (Pipelines.dict_get k d2).
Proof.
  induction 1 as [|[k1 v1] [k2 v2] d1 d2 [Hk Hv] _ IH]; simpl; [constructor|].
  simpl in *. subst. case_decide; [by constructor|done].
Qed.

Lemma dict_rel_set d1 d2 k v1 v2 :
  Pipelines.dict_rel R d1 d2 → R v1 v2 →
  Pipelines.dict_rel R (Pipelines.dict_set k v1 d1) (Pipelines.dict_set k v2 d2).
Proof.
  intros Hrel Hv.
  induction Hrel as [|[k1 w1] [k2 w2] d1 d2 [Hk Hw] Hrel IH]; simpl.
  { by repeat constructor. }
  simpl in *. subst. case_decide; constructor; done.
Qed.

Lemma dict_rel_refl d : (∀ v, R v v) → Pipelines.dict_rel R d d.
Proof. intros Hrefl. induction d; constructor; done. Qed.
End dict_rel_facts.

Section scrub_facts.
Variable stamps : list string.
Implicit Types (p d : list (string * Pipelines.json)).

Local Abbreviation scrub_entry := (Pipelines.scrub_entry stamps).

Lemma scrub_dict d :
  Pipelines.scrub stamps (Pipelines.JDict d)
  = Pipelines.JDict ((λ e, (e.1, scrub_entry e.1 e.2)) <$> d).
Proof.
  simpl. f_equal. apply list_fmap_ext. by intros i [k v] _.
Qed.

Lemma scrub_list (l : list Pipelines.json) :
  Pipelines.scrub stamps (Pipelines.JList l)
  = Pipelines.JList (Pipelines.scrub stamps <$> l).
Proof. reflexivity. Qed.

Lemma fmap_dict_set {V W} (h : string → V → W) k v (d : list (string * V)) :
  (λ e, (e.1, h e.1 e.2)) <$> Pipelines.dict_set k v d
  = Pipelines.dict_set k (h k v) ((λ e, (e.1, h e.1 e.2)) <$> d).
Proof.
  induction d as [|[k0 v0] d IH]; [done|].
  rewrite fmap_cons. cbn [Pipelines.dict_set fst snd].
  case_decide; rewrite !fmap_cons; [done|]. by rewrite IH.
Qed.

Lemma restamped_get k p1 p2 :
  k ≠ "fetched_at" → Pipelines.restamped p1 p2 →
  Pipelines.dict_get k p1 = Pipelines.dict_get k p2.
Proof.
  intros Hk (base & t1 & t2 & -> & ->).
  rewrite !dict_get_set. by rewrite !decide_False.
Qed.

Lemma restamped_scrub p1 p2 :
  "fetched_at" ∈ stamps → Pipelines.restamped p1 p2 →
  Pipelines.scrub stamps (Pipelines.JDict p1)
  = Pipelines.scrub stamps (Pipelines.JDict p2).
Proof.
  intros Hin (base & t1 & t2 & -> & ->).
  rewrite !scrub_dict, !(fmap_dict_set scrub_entry).
  unfold Pipelines.scrub_entry at 1 3. by rewrite !bool_decide_eq_true_2.
Qed.

Lemma restamped_key sort_field id_field p1 p2 :
  sort_field ≠ "fetched_at" → id_field ≠ "fetched_at" →
  Pipelines.restamped p1 p2 →
  Pipelines.record_key sort_field id_field (Pipelines.JDict p1)
  = Pipelines.record_key sort_field id_field (Pipelines.JDict p2).
Proof.
  intros Hs Hi Hre. unfold Pipelines.record_key. simpl.
  by rewrite (restamped_get sort_field p1 p2), (restamped_get id_field p1 p2).
Qed.

Lemma restamped_sym p1 p2 : Pipelines.restamped p1 p2 → Pipelines.restamped p2 p1.
Proof. intros (base & t1 & t2 & -> & ->). by exists base, t2, t1. Qed.
End scrub_facts.

(** ** Merging buffered records into stored ones *)

Section merge.
Variables (list_field sort_field id_field : string).
Hypothesis sort_field_kept : sort_field ≠ "fetched_at".
Hypothesis id_field_kept : id_field ≠ "fetched_at".
Variable stamps : list string.
Hypothesis fetched_at_blanked : "fetched_at" ∈ stamps.

Local Abbreviation key := (Pipelines.record_key sort_field id_field).
Local Abbreviation rid := (Pipelines.record_id id_field).
Local Abbreviation wrap := (fmap (M:=list) (prod_map id Pipelines.JDict)).
Implicit Types (buf : list (string * list (string * Pipelines.json)))
  (st M : list (string * Pipelines.json)) (out : list Pipelines.json)
  (x : Pipelines.json) (i : string).

Lemma record_key_id x k : key x = Some k → rid x = Some k.2.
Proof.
  unfold Pipelines.record_key, Pipelines.record_id.
  destruct (_ ≫= Pipelines.as_int); simpl; [|done].
  destruct (_ ≫= Pipelines.as_str); simpl; [|done]. by intros [= <-].
Qed.

Lemma mapM_fmap_Some {A B C} (f : A → option B) (g : C → A) (h : C → B)
    (l : list C) :
  Forall (λ c, f (g c) = Some (h c)) l → mapM f (g <$> l) = Some (h <$> l).
Proof.
  intros Hall. apply mapM_Some.
  induction Hall; simpl; constructor; done.
Qed.

Lemma stored_by_id_spec existing st :
  Pipelines.stored_by_id existing list_field id_field = Some st →
  NoDup st.*1 ∧ Pipelines.ids_are_keys id_field st.
Proof.
  unfold Pipelines.stored_by_id.
  destruct (Pipelines.truthy existing); [|intros [= <-]; split; constructor].
  destruct (_ ≫= Pipelines.iterate) as [records|]; simpl; [|done].
  destruct (mapM _ records) as [pairs|] eqn:Hpairs; simpl; [|done].
  intros [= <-]. split.
  - apply (dict_update_NoDup []). constructor.
  - apply Forall_forall. intros kv [Hin|Hin]%dict_update_elem;
      [|by apply elem_of_nil in Hin].
    apply mapM_Some in Hpairs.
    apply list_elem_of_lookup_1 in Hin as [n Hn].
    destruct (Forall2_lookup_r _ _ _ _ _ Hpairs Hn) as (x & _ & Hx).
    unfold Pipelines.record_id.
    destruct (Pipelines.subscript x id_field ≫= Pipelines.as_str) eqn:E;
      simpl in Hx; [|done].
    by injection Hx as <-.
Qed.

Lemma wrap_keys buf : (wrap buf).*1 = buf.*1.
Proof. rewrite <-list_fmap_compose. apply list_fmap_ext. by intros ? [] _. Qed.

Lemma wrap_get i buf :
  Pipelines.dict_get i (wrap buf) = Pipelines.JDict <$> Pipelines.dict_get i buf.
Proof.
  induction buf as [|[k p] buf IH]; [done|].
  rewrite fmap_cons. simpl. by case_decide.
Qed.

Lemma merged_get i st buf :
  NoDup buf.*1 →
  Pipelines.dict_get i (Pipelines.dict_update st (wrap buf))
  = match Pipelines.dict_get i buf with
    | Some p => Some (Pipelines.JDict p)
    | None => Pipelines.dict_get i st
    end.
Proof.
  intros Hnd. rewrite dict_get_update, dict_get_reverse, wrap_get
    by (by rewrite wrap_keys).
  by destruct (Pipelines.dict_get i buf).
Qed.

Lemma merged_ids_are_keys st buf :
  Pipelines.ids_are_keys id_field st → Pipelines.keyed_by id_field buf →
  Pipelines.ids_are_keys id_field (Pipelines.dict_update st (wrap buf)).
Proof.
  intros Hst [_ Hbuf]. unfold Pipelines.ids_are_keys in *. apply Forall_forall.
  intros kv [Hin|Hin]%dict_update_elem.
  - apply list_elem_of_fmap in Hin as ([k p] & -> & Hin).
    rewrite Forall_forall in Hbuf. specialize (Hbuf _ Hin). simpl in *.
    unfold Pipelines.record_id. simpl. by rewrite Hbuf.
  - rewrite Forall_forall in Hst. by apply Hst.
Qed.

(** In a dict with distinct keys whose records sit under their own
    identifier, a record is found under its identifier. *)
Lemma ids_are_keys_get M x i :
  NoDup M.*1 → Pipelines.ids_are_keys id_field M →
  x ∈ M.*2 → rid x = Some i → Pipelines.dict_get i M = Some x.
Proof.
  intros Hnd Hids Hin Hi. unfold Pipelines.ids_are_keys in Hids.
  apply list_elem_of_fmap in Hin as ([k y] & -> & Hin).
  rewrite Forall_forall in Hids. specialize (Hids _ Hin). simpl in *.
  assert (k = i) as -> by congruence. by apply dict_get_NoDup.
Qed.

Lemma ids_are_keys_unzip M :
  Pipelines.ids_are_keys id_field M →
  M = (λ x, (default "" (rid x), x)) <$> M.*2.
Proof.
  intros Hids. unfold Pipelines.ids_are_keys in Hids. rewrite <-list_fmap_compose.
  rewrite <-(list_fmap_id M) at 1. apply list_fmap_ext.
  intros n [k x] Hn. rewrite Forall_forall in Hids.
  specialize (Hids (k, x) (list_elem_of_lookup_2 _ _ _ Hn)). simpl in *.
  by rewrite Hids.
Qed.

(** The second merge: the stored records are the output of a first merge
    and the buffer holds the same payloads, restamped. The output is the
    first output with the buffered payloads restamped in place. *)
Lemma merge_again existing st buf buf2 out payload :
  Pipelines.stored_by_id existing list_field id_field = Some st →
  Pipelines.sorted key
    (Pipelines.dict_values (Pipelines.dict_update st (wrap buf))) = Some out →
  Pipelines.keyed_by id_field buf →
  Pipelines.dict_rel Pipelines.restamped buf buf2 →
  Pipelines.dict_get list_field payload = Some (Pipelines.JList out) →
  ∃ st2 out2,
    Pipelines.stored_by_id (Pipelines.JDict payload) list_field id_field = Some st2
    ∧ Pipelines.sorted key
        (Pipelines.dict_values (Pipelines.dict_update st2 (wrap buf2))) = Some out2
    ∧ length (Pipelines.dict_update st2 (wrap buf2))
      = length (Pipelines.dict_update st (wrap buf))
    ∧ Pipelines.scrub stamps <$> out2 = Pipelines.scrub stamps <$> out.
Proof.
  intros Hst Hout Hbuf Hrel Hpayload.
  destruct (stored_by_id_spec _ _ Hst) as [Hst_nd Hst_ids].
  set (M := Pipelines.dict_update st (wrap buf)) in *.
  assert (NoDup M.*1) as HM_nd by (by apply dict_update_NoDup).
  assert (Pipelines.ids_are_keys id_field M) as HM_ids
    by (by apply merged_ids_are_keys).
  destruct Hbuf as [Hbuf_nd Hbuf_ids].
  destruct (sorted_keyed _ _ _ Hout) as (KS & HKS & Hkeys & Hsorted & Hperm).
  unfold Pipelines.dict_values in Hperm.
  set (pairs := (λ kx : Z * string * Pipelines.json, (kx.1.2, kx.2)) <$> KS).
  assert (pairs = (λ x, (default "" (rid x), x)) <$> out) as Hpairs_out.
  { subst pairs. rewrite <-HKS, <-list_fmap_compose. apply list_fmap_ext.
    intros n kx Hn. rewrite Forall_forall in Hkeys.
    specialize (Hkeys kx (list_elem_of_lookup_2 _ _ _ Hn)). simpl.
    by rewrite (record_key_id _ _ Hkeys). }
  assert (pairs ≡ₚ M) as Hpairs_M.
  { rewrite Hpairs_out, (ids_are_keys_unzip M) by done. by rewrite Hperm. }
  assert (NoDup pairs.*1) as Hpairs_nd by (by rewrite Hpairs_M).
  assert (Pipelines.stored_by_id (Pipelines.JDict payload) list_field id_field
          = Some pairs) as Hst2.
  { unfold Pipelines.stored_by_id.
    assert (Pipelines.truthy (Pipelines.JDict payload) = true) as ->
      by (by destruct payload).
    simpl. rewrite Hpayload. simpl. rewrite <-HKS.
    rewrite (mapM_fmap_Some _ snd
               (λ kx : Z * string * Pipelines.json, (kx.1.2, kx.2))).
    - simpl. by rewrite dict_of_NoDup.
    - eapply Forall_impl; [exact Hkeys|]. intros kx Hkx. simpl.
      apply record_key_id in Hkx. unfold Pipelines.record_id in Hkx.
      by rewrite Hkx. }
  assert (NoDup (wrap buf2).*1) as Hbuf2_nd.
  { by rewrite wrap_keys, <-(dict_rel_keys _ _ _ Hrel). }
  set (f' := λ kx : Z * string * Pipelines.json,
               default kx.2
                 (Pipelines.dict_get kx.1.2 (reverse (wrap buf2)))).
  set (KS' := (λ kx, (kx.1, f' kx)) <$> KS).
  assert (Forall (λ kx, key (f' kx) = Some kx.1
                        ∧ Pipelines.scrub stamps (f' kx)
                          = Pipelines.scrub stamps kx.2) KS) as Hf.
  { apply Forall_forall. intros kx Hkx.
    rewrite Forall_forall in Hkeys. specialize (Hkeys kx Hkx).
    subst f'. simpl. rewrite dict_get_reverse, wrap_get by done.
    pose proof (dict_rel_get _ _ _ kx.1.2 Hrel) as Hget.
    destruct (Pipelines.dict_get kx.1.2 buf) as [p1|] eqn:Hp1,
      (Pipelines.dict_get kx.1.2 buf2) as [p2|] eqn:Hp2;
      [|exfalso; by inversion Hget|exfalso; by inversion Hget|done].
    assert (Pipelines.restamped p1 p2) as Hre by (by inversion Hget).
    simpl.
    assert (kx.2 = Pipelines.JDict p1) as Hx.
    { assert (Pipelines.dict_get kx.1.2 M = Some kx.2) as HxM.
      { apply ids_are_keys_get; [done|done| |by apply record_key_id].
        rewrite <-Hperm, <-HKS. apply list_elem_of_fmap. by exists kx. }
      subst M. rewrite merged_get, Hp1 in HxM by done. congruence. }
    rewrite Hx in *. split.
    - by rewrite <-(restamped_key _ _ p1 p2).
    - symmetry. by apply restamped_scrub. }
  assert (Pipelines.dict_update pairs (wrap buf2)
          = (λ kx, (kx.1.2, f' kx)) <$> KS) as HM2.
  { rewrite dict_update_in_place; [|done|].
    - subst pairs. rewrite <-list_fmap_compose. done.
    - rewrite wrap_keys, <-(dict_rel_keys _ _ _ Hrel). intros i Hi.
      rewrite Hpairs_M.
      destruct (decide (i ∈ M.*1)) as [|Hnot]; [done|].
      apply dict_get_None in Hnot. subst M.
      rewrite merged_get in Hnot by done.
      destruct (Pipelines.dict_get i buf) eqn:E; [done|].
      by apply dict_get_None in E. }
  exists pairs, KS'.*2. split_and!.
  - done.
  - rewrite HM2. unfold Pipelines.dict_values.
    replace (((λ kx, (kx.1.2, f' kx)) <$> KS).*2) with KS'.*2
      by (subst KS'; by rewrite <-!list_fmap_compose).
    apply sorted_of_keyed.
    + subst KS'. apply Forall_fmap. eapply Forall_impl; [exact Hf|].
      by intros kx [? _].
    + apply (Sorted_key_le_keys KS); [|done].
      subst KS'. by rewrite <-list_fmap_compose.
  - rewrite HM2, length_fmap.
    rewrite <-(length_fmap snd M), <-Hperm, <-HKS. by rewrite length_fmap.
  - rewrite <-HKS. subst KS'. rewrite <-!list_fmap_compose.
    apply list_fmap_ext. intros n kx Hn. rewrite Forall_forall in Hf.
    by destruct (Hf kx (list_elem_of_lookup_2 _ _ _ Hn)).
Qed.
End merge.

(** ** Writing a file twice *)

Section payload_again.
Variable stamps : list string.
Hypothesis fetched_at_blanked : "fetched_at" ∈ stamps.
Hypothesis collected_at_blanked : "collected_at" ∈ stamps.
Hypothesis updated_at_blanked : "updated_at" ∈ stamps.
Implicit Types (buf : list (string * list (string * Pipelines.json)))
  (infos : list (string * list (string * Pipelines.json)))
  (payload : list (string * Pipelines.json)).

Lemma dict_update_keys_new {K V} `{EqDecision K} (d new : list (K * V)) :
  new.*1 ⊆ (Pipelines.dict_update d new).*1.
Proof.
  intros k Hk. destruct (decide (k ∈ (Pipelines.dict_update d new).*1)) as [|Hnot];
    [done|].
  apply dict_get_None in Hnot. rewrite dict_get_update in Hnot.
  destruct (Pipelines.dict_get k (reverse new)) eqn:E; [done|].
  apply dict_get_None in E. by rewrite fmap_reverse, elem_of_reverse in E.
Qed.

Lemma topics_index_again infos infos2 now1 now2 board buf buf2 existing payload :
  Pipelines.keyed_by "topic_id" buf →
  Pipelines.dict_rel Pipelines.restamped buf buf2 →
  Pipelines.dict_rel Pipelines.restamped infos infos2 →
  Pipelines.topics_index_payload infos now1 board buf existing = Some payload →
  ∃ payload2,
    Pipelines.topics_index_payload infos2 now2 board buf2 (Pipelines.JDict payload)
    = Some payload2
    ∧ Pipelines.scrub stamps (Pipelines.JDict payload2)
      = Pipelines.scrub stamps (Pipelines.JDict payload).
Proof.
  intros Hbuf Hrel Hinfos. unfold Pipelines.topics_index_payload.
  destruct (Pipelines.stored_by_id existing _ _) as [st|] eqn:Hst; simpl; [|done].
  destruct (Pipelines.sorted _ _) as [out|] eqn:Hout; simpl; [|done].
  intros [= <-].
  set (base := [("board_id", Pipelines.JStr board);
                ("collected_at", Pipelines.JStr now1);
                ("topics", Pipelines.JList out)]).
  set (payload := match Pipelines.dict_get board infos with
                  | Some info => _ | None => base end).
  assert (Pipelines.dict_get "topics" payload = Some (Pipelines.JList out)) as Hget.
  { subst payload. by destruct (Pipelines.dict_get board infos). }
  destruct (merge_again "topics" "board_offset" "topic_id" ltac:(done) ltac:(done)
              stamps fetched_at_blanked existing st buf buf2 out payload
              Hst Hout Hbuf Hrel Hget)
    as (st2 & out2 & -> & Hout2 & _ & Hscrub).
  simpl. unfold Pipelines.topic_key. rewrite Hout2. simpl.
  eexists. split; [reflexivity|].
  subst payload base.
  pose proof (dict_rel_get _ _ _ board Hinfos) as Hinfo.
  destruct (Pipelines.dict_get board infos) as [info|],
    (Pipelines.dict_get board infos2) as [info2|];
    [|exfalso; by inversion Hinfo|exfalso; by inversion Hinfo|].
  - assert (Pipelines.restamped info info2) as Hre by (by inversion Hinfo).
    rewrite <-(restamped_get "name" info info2 ltac:(done) Hre).
    cbn [map]. rewrite !(bool_decide_eq_true_2 _ collected_at_blanked).
    by rewrite !scrub_list, Hscrub.
  - cbn [map]. rewrite !(bool_decide_eq_true_2 _ collected_at_blanked).
    by rewrite !scrub_list, Hscrub.
Qed.

Lemma topic_posts_again now1 now2 board topic buf buf2 existing payload :
  Pipelines.distinct_keys existing →
  Pipelines.keyed_by "post_id" buf →
  Pipelines.dict_rel Pipelines.restamped buf buf2 →
  Pipelines.topic_posts_payload now1 board topic buf existing = Some payload →
  ∃ payload2,
    Pipelines.topic_posts_payload now2 board topic buf2 (Pipelines.JDict payload)
    = Some payload2
    ∧ Pipelines.scrub stamps (Pipelines.JDict payload2)
      = Pipelines.scrub stamps (Pipelines.JDict payload).
Proof.
  intros Hdistinct Hbuf Hrel. unfold Pipelines.topic_posts_payload.
  destruct (Pipelines.stored_by_id existing _ _) as [st|] eqn:Hst; [|done].
  cbn [mbind option_bind].
  destruct (if Pipelines.truthy existing then _ else _) as [base|] eqn:Hbase;
    [|done].
  cbn [mbind option_bind].
  destruct (Pipelines.sorted _ _) as [out|] eqn:Hout; [|done].
  cbn [mbind option_bind].
  intros Heq. apply (inj Some) in Heq. subst payload.
  assert (NoDup base.*1) as Hbase_nd.
  { destruct (Pipelines.truthy existing); [|injection Hbase as <-; constructor].
    destruct existing; try done. by injection Hbase as <-. }
  set (total := Pipelines.JInt (Z.of_nat (length (Pipelines.dict_update st _)))).
  set (new1 := [("board_id", Pipelines.JStr board);
                ("topic_id", Pipelines.JStr topic);
                ("posts_total", total);
                ("updated_at", Pipelines.JStr now1);
                ("posts", Pipelines.JList out)]).
  set (payload := Pipelines.dict_update base new1).
  assert (NoDup payload.*1) as Hpayload_nd by (by apply dict_update_NoDup).
  assert (Pipelines.dict_get "posts" payload = Some (Pipelines.JList out)) as Hget.
  { subst payload. by rewrite dict_get_update. }
  destruct (merge_again "posts" "position" "post_id" ltac:(done) ltac:(done)
              stamps fetched_at_blanked existing st buf buf2 out payload
              Hst Hout Hbuf Hrel Hget)
    as (st2 & out2 & -> & Hout2 & Hlen & Hscrub).
  assert (Pipelines.truthy (Pipelines.JDict payload) = true) as ->
    by (by destruct payload).
  cbn [mbind option_bind]. unfold Pipelines.post_key. rewrite Hout2.
  cbn [mbind option_bind].
  eexists. split; [reflexivity|]. rewrite Hlen. fold total.
  set (new2 := [("board_id", Pipelines.JStr board);
                ("topic_id", Pipelines.JStr topic);
                ("posts_total", total);
                ("updated_at", Pipelines.JStr now2);
                ("posts", Pipelines.JList out2)]).
  rewrite (dict_update_in_place payload new2); [|done|].
  2:{ change (new2.*1) with (new1.*1). apply dict_update_keys_new. }
  rewrite !scrub_dict. f_equal. rewrite <-list_fmap_compose.
  apply list_fmap_ext. intros n [k v] Hn. simpl. f_equal.
  assert (Pipelines.dict_get k payload = Some v) as Hkv.
  { apply dict_get_NoDup; [done|]. by eapply list_elem_of_lookup_2. }
  subst payload. rewrite dict_get_update in Hkv.
  subst new1 new2. unfold Pipelines.scrub_entry.
  simpl in *.
  destruct (decide ("posts" = k)) as [<-|_].
  { injection Hkv as <-. simpl default. by rewrite !scrub_list, Hscrub. }
  destruct (decide ("updated_at" = k)) as [<-|_].
  { by rewrite (bool_decide_eq_true_2 _ updated_at_blanked). }
  repeat case_decide; by simplify_eq.
Qed.
End payload_again.

(** ** Buffering the same items at two times *)

Lemma as_str_Some (j : Pipelines.json) s :
  Pipelines.as_str j = Some s → j = Pipelines.JStr s.
Proof. destruct j; simpl; congruence. Qed.

Lemma get_str_Some (d : list (string * Pipelines.json)) k s :
  Pipelines.dict_get k d ≫= Pipelines.as_str = Some s →
  Pipelines.dict_get k d = Some (Pipelines.JStr s).
Proof.
  destruct (Pipelines.dict_get k d) as [j|]; simpl; [|done].
  by intros ->%as_str_Some.
Qed.

Lemma for_each_preserves {A S} (body : S → A → option S) (I : S → Prop) xs :
  (∀ s x s', I s → body s x = Some s' → I s') →
  ∀ s s', I s → Pipelines.for_each body xs s = Some s' → I s'.
Proof.
  intros Hstep. induction xs as [|x xs IH]; intros s s' Hs; simpl.
  { by intros [= <-]. }
  destruct (body s x) as [s1|] eqn:E; simpl; [|done]. eauto.
Qed.

Lemma for_each_related {A S} (body1 body2 : S → A → option S)
    (R : S → S → Prop) xs :
  (∀ s1 s2 x s1', R s1 s2 → body1 s1 x = Some s1' →
     ∃ s2', body2 s2 x = Some s2' ∧ R s1' s2') →
  ∀ s1 s2 s1', R s1 s2 → Pipelines.for_each body1 xs s1 = Some s1' →
    ∃ s2', Pipelines.for_each body2 xs s2 = Some s2' ∧ R s1' s2'.
Proof.
  intros Hstep. induction xs as [|x xs IH]; intros s1 s2 s1' HR; simpl.
  { intros [= <-]. by exists s2. }
  destruct (body1 s1 x) as [t1|] eqn:E; simpl; [|done].
  destruct (Hstep _ _ _ _ HR E) as (t2 & -> & HR'). simpl. eauto.
Qed.

Section buffering.
Variables clock1 clock2 : nat → string.
Implicit Types (self : Pipelines.pipeline) (it : Pipelines.item).

Lemma stamped_restamped self1 self2 it :
  Pipelines.restamped (Pipelines.stamped clock1 self1 it)
    (Pipelines.stamped clock2 self2 it).
Proof. by eexists _, _, _. Qed.

Lemma default_dict_rel {K V} `{EqDecision K} (R : V → V → Prop)
    {J} `{EqDecision J} (k : J) (d1 d2 : list (J * list (K * V))) :
  Pipelines.dict_rel (Pipelines.dict_rel R) d1 d2 →
  Pipelines.dict_rel R (default [] (Pipelines.dict_get k d1))
    (default [] (Pipelines.dict_get k d2)).
Proof.
  intros Hrel. destruct (dict_rel_get _ _ _ k Hrel); [done|constructor].
Qed.

Lemma process_item_same self1 self2 it self1' :
  Pipelines.same_buffers self1 self2 →
  Pipelines.process_item clock1 self1 it = Some self1' →
  ∃ self2', Pipelines.process_item clock2 self2 it = Some self2'
            ∧ Pipelines.same_buffers self1' self2'.
Proof.
  intros (Hinfo & Htopics & Hposts). unfold Pipelines.process_item.
  pose proof (stamped_restamped self1 self2 it) as Hstamp.
  destruct (Pipelines.item_class_of it).
  - destruct (_ ≫= Pipelines.as_str) as [board|]; simpl; [|done].
    intros [= <-]. eexists. split; [done|].
    split_and!; simpl; [|done..]. by apply dict_rel_set.
  - destruct (Pipelines.dict_get "board_id" _ ≫= Pipelines.as_str) as [board|];
      simpl; [|done].
    destruct (Pipelines.dict_get "topic_id" _ ≫= Pipelines.as_str) as [topic|];
      simpl; [|done].
    intros [= <-]. eexists. split; [done|].
    split_and!; simpl; [done| |done].
    apply dict_rel_set; [done|]. apply dict_rel_set; [|done].
    by apply default_dict_rel.
  - destruct (Pipelines.dict_get "board_id" _ ≫= Pipelines.as_str) as [board|];
      simpl; [|done].
    destruct (Pipelines.dict_get "topic_id" _ ≫= Pipelines.as_str) as [topic|];
      simpl; [|done].
    destruct (Pipelines.dict_get "post_id" _ ≫= Pipelines.as_str) as [post|];
      simpl; [|done].
    intros [= <-]. eexists. split; [done|].
    split_and!; simpl; [done|done|].
    apply dict_rel_set; [done|]. apply dict_rel_set; [|done].
    by apply default_dict_rel.
  - intros [= <-]. by exists self2.
Qed.
End buffering.

Section keyed.
Variable clock : nat → string.
Implicit Types (self : Pipelines.pipeline) (it : Pipelines.item).

Lemma keyed_by_nil id_field : Pipelines.keyed_by id_field [].
Proof. split; constructor. Qed.

Lemma keyed_by_default id_field {J} `{EqDecision J} (k : J)
    (d : list (J * list (string * list (string * Pipelines.json)))) :
  Forall (λ e, Pipelines.keyed_by id_field e.2) d →
  Pipelines.keyed_by id_field (default [] (Pipelines.dict_get k d)).
Proof.
  intros Hall. destruct (Pipelines.dict_get k d) as [buf|] eqn:E;
    [|apply keyed_by_nil].
  rewrite Forall_forall in Hall. apply (Hall (k, buf)). by apply dict_get_elem.
Qed.

Lemma keyed_by_set id_field self it id buf :
  id_field ≠ "fetched_at" →
  Pipelines.dict_get id_field (Pipelines.asdict it) ≫= Pipelines.as_str = Some id →
  Pipelines.keyed_by id_field buf →
  Pipelines.keyed_by id_field
    (Pipelines.dict_set id (Pipelines.stamped clock self it) buf).
Proof.
  intros Hne Hid [Hnd Hall]. split; [by apply dict_set_NoDup|].
  apply Forall_forall. intros kp [->|Hin]%dict_set_elem.
  - simpl. unfold Pipelines.stamped. rewrite dict_get_set.
    rewrite decide_False by done. by apply get_str_Some.
  - rewrite Forall_forall in Hall. by apply Hall.
Qed.

Lemma Forall_dict_set {K V} `{EqDecision K} (Q : K * V → Prop) k v
    (d : list (K * V)) :
  Q (k, v) → Forall Q d → Forall Q (Pipelines.dict_set k v d).
Proof.
  intros Hkv Hall. apply Forall_forall. intros kv [->|Hin]%dict_set_elem; [done|].
  rewrite Forall_forall in Hall. by apply Hall.
Qed.

Lemma process_item_keyed self it self' :
  Pipelines.buffers_keyed self →
  Pipelines.process_item clock self it = Some self' →
  Pipelines.buffers_keyed self'.
Proof.
  intros (Hinfo & Htopics & Hposts & Htk & Hpk). unfold Pipelines.process_item.
  destruct (Pipelines.item_class_of it).
  - destruct (_ ≫= Pipelines.as_str) as [board|]; simpl; [|done].
    intros [= <-]. split_and!; simpl; [|done..]. by apply dict_set_NoDup.
  - destruct (Pipelines.dict_get "board_id" _ ≫= Pipelines.as_str) as [board|];
      simpl; [|done].
    destruct (Pipelines.dict_get "topic_id" _ ≫= Pipelines.as_str) as [topic|] eqn:Ht;
      simpl; [|done].
    intros [= <-]. split_and!; simpl; [done|by apply dict_set_NoDup|done| |done].
    apply Forall_dict_set; [|done]. simpl.
    apply keyed_by_set; [done|done|]. by apply keyed_by_default.
  - destruct (Pipelines.dict_get "board_id" _ ≫= Pipelines.as_str) as [board|];
      simpl; [|done].
    destruct (Pipelines.dict_get "topic_id" _ ≫= Pipelines.as_str) as [topic|];
      simpl; [|done].
    destruct (Pipelines.dict_get "post_id" _ ≫= Pipelines.as_str) as [post|] eqn:Hp;
      simpl; [|done].
    intros [= <-]. split_and!; simpl; [done|done|by apply dict_set_NoDup|done|].
    apply Forall_dict_set; [|done]. simpl.
    apply keyed_by_set; [done|done|]. by apply keyed_by_default.
  - by intros [= <-].
Qed.

Lemma new_pipeline_keyed : Pipelines.buffers_keyed Pipelines.new_pipeline.
Proof. split_and!; constructor. Qed.

Lemma new_pipeline_same :
  Pipelines.same_buffers Pipelines.new_pipeline Pipelines.new_pipeline.
Proof. split_and!; constructor. Qed.
End keyed.

(** ** The loops of [close_spider] *)

Lemma load_write_ne (d : Pipelines.disk) p q j fallback :
  q ≠ p →
  Pipelines._load_json (Pipelines.write d p j) q fallback
  = Pipelines._load_json d q fallback.
Proof.
  intros Hne. unfold Pipelines._load_json, Pipelines.write.
  by rewrite decide_False.
Qed.

Section flush_loop.
Context {E : Type} (P : E → Pipelines.path)
  (F : nat → E → Pipelines.json → option (list (string * Pipelines.json)))
  (adv : nat → nat)
  (body : Pipelines.disk * nat → E → option (Pipelines.disk * nat)).
Hypothesis body_eq : ∀ s e,
  body s e =
    payload ← F s.2 e (Pipelines._load_json s.1 (P e) (Pipelines.JDict []));
    Some (Pipelines._write_json s.1 (P e) payload, adv s.2).

(** Each iteration reads and writes the file of its entry only, so the
    loop leaves the other files alone and writes for each entry what the
    body makes of the file as it was before the loop. *)
Lemma flush_loop_forward entries : ∀ d n s',
  NoDup (P <$> entries) →
  Pipelines.for_each body entries (d, n) = Some s' →
  (∀ p, p ∉ P <$> entries → s'.1 p = d p)
  ∧ (∀ e, e ∈ entries →
       ∃ tick payload,
         F tick e (Pipelines._load_json d (P e) (Pipelines.JDict [])) = Some payload
         ∧ s'.1 (P e) = Some (Pipelines.Doc (Pipelines.JDict payload))).
Proof.
  induction entries as [|e entries IH]; intros d n s' Hnd; simpl.
  { intros [= <-]. split; [done|]. intros e He. by apply elem_of_nil in He. }
  rewrite body_eq. simpl.
  destruct (F n e _) as [payload|] eqn:HF; simpl; [|done].
  intros Hrest. rewrite fmap_cons in Hnd. apply NoDup_cons in Hnd as [He Hnd].
  destruct (IH _ _ _ Hnd Hrest) as [Hother Hmine]. split.
  - intros p [Hp Hps]%not_elem_of_cons. rewrite Hother by done.
    unfold Pipelines._write_json, Pipelines.write. by rewrite decide_False.
  - intros e' [->|He']%elem_of_cons.
    + exists n, payload. split; [done|]. rewrite Hother by done.
      unfold Pipelines._write_json, Pipelines.write. by rewrite decide_True.
    + destruct (Hmine e' He') as (tick & payload' & HF' & Hd).
      exists tick, payload'. split; [|done].
      rewrite <-HF'. f_equal. symmetry. apply load_write_ne.
      intros Heq. apply He. rewrite <-Heq. apply list_elem_of_fmap. by exists e'.
Qed.

Lemma flush_loop_backward entries : ∀ d n,
  NoDup (P <$> entries) →
  (∀ e tick, e ∈ entries →
     is_Some (F tick e (Pipelines._load_json d (P e) (Pipelines.JDict [])))) →
  is_Some (Pipelines.for_each body entries (d, n)).
Proof.
  induction entries as [|e entries IH]; intros d n Hnd Hall; simpl; [done|].
  rewrite body_eq. simpl.
  destruct (Hall e n) as [payload ->]; [by left|]. simpl.
  rewrite fmap_cons in Hnd. apply NoDup_cons in Hnd as [He Hnd].
  apply IH; [done|]. intros e' tick He'.
  unfold Pipelines._write_json. rewrite load_write_ne; [apply Hall; by right|].
  intros Heq. apply He. rewrite <-Heq. apply list_elem_of_fmap. by exists e'.
Qed.
End flush_loop.

Section close_spider.
Variable clock : nat → string.
Implicit Types (self : Pipelines.pipeline) (d : Pipelines.disk).

Local Abbreviation empty := (Pipelines.JDict []).

Lemma flush_board_info_eq s (e : string * list (string * Pipelines.json)) :
  Pipelines.flush_board_info s e =
    payload ← Some e.2;
    Some (Pipelines._write_json s.1 (Pipelines.BoardInfoFile e.1) payload, id s.2).
Proof.
  destruct e as [board info]. unfold Pipelines.flush_board_info, Pipelines._merge_json.
  by rewrite andb_false_r.
Qed.

Lemma paths_NoDup {K V} (P : K → Pipelines.path) (entries : list (K * V)) :
  (∀ a b, P a = P b → a = b) →
  NoDup entries.*1 → NoDup ((λ e, P e.1) <$> entries).
Proof.
  intros Hinj Hnd.
  replace ((λ e : K * V, P e.1) <$> entries) with (P <$> entries.*1)
    by (by rewrite <-list_fmap_compose).
  by apply (NoDup_fmap_2 P (Inj0:=Hinj)).
Qed.

Lemma BoardInfoFile_inj a b :
  Pipelines.BoardInfoFile a = Pipelines.BoardInfoFile b → a = b.
Proof. by intros [= ->]. Qed.

Lemma TopicsIndexFile_inj a b :
  Pipelines.TopicsIndexFile a = Pipelines.TopicsIndexFile b → a = b.
Proof. by intros [= ->]. Qed.

Lemma TopicFile_inj (a b : string * string) :
  Pipelines.TopicFile a.1 a.2 = Pipelines.TopicFile b.1 b.2 → a = b.
Proof. destruct a, b. by intros [= -> ->]. Qed.

(** The three kinds of files after [close_spider], from the files before
    it. *)
Lemma close_spider_forward self d d' :
  NoDup (Pipelines.board_info self).*1 →
  NoDup (Pipelines.topic_summaries self).*1 →
  NoDup (Pipelines.topic_posts self).*1 →
  Pipelines.close_spider clock self d = Some d' →
  (∀ board,
     d' (Pipelines.BoardInfoFile board)
     = match Pipelines.dict_get board (Pipelines.board_info self) with
       | Some info => Some (Pipelines.Doc (Pipelines.JDict info))
       | None => d (Pipelines.BoardInfoFile board)
       end)
  ∧ (∀ board,
       match Pipelines.dict_get board (Pipelines.topic_summaries self) with
       | Some topics =>
           ∃ tick payload,
             Pipelines.topics_index_payload (Pipelines.board_info self)
               (clock tick) board topics
               (Pipelines._load_json d (Pipelines.TopicsIndexFile board) empty)
             = Some payload
             ∧ d' (Pipelines.TopicsIndexFile board)
               = Some (Pipelines.Doc (Pipelines.JDict payload))
       | None =>
           d' (Pipelines.TopicsIndexFile board) = d (Pipelines.TopicsIndexFile board)
       end)
  ∧ (∀ board topic,
       match Pipelines.dict_get (board, topic) (Pipelines.topic_posts self) with
       | Some posts =>
           ∃ tick payload,
             Pipelines.topic_posts_payload (clock tick) board topic posts
               (Pipelines._load_json d (Pipelines.TopicFile board topic) empty)
             = Some payload
             ∧ d' (Pipelines.TopicFile board topic)
               = Some (Pipelines.Doc (Pipelines.JDict payload))
       | None =>
           d' (Pipelines.TopicFile board topic) = d (Pipelines.TopicFile board topic)
       end).
Proof.
  intros Hinfo Htopics Hposts. unfold Pipelines.close_spider.
  destruct (Pipelines.for_each Pipelines.flush_board_info _ _) as [[d1 n1]|] eqn:H1;
    simpl; [|done].
  destruct (Pipelines.for_each (Pipelines.flush_topics_index _ _) _ _)
    as [[d2 n2]|] eqn:H2; simpl; [|done].
  destruct (Pipelines.for_each (Pipelines.flush_topic_posts _) _ _)
    as [[d3 n3]|] eqn:H3; simpl; [|done].
  intros [= <-].
  destruct (flush_loop_forward (λ e, Pipelines.BoardInfoFile e.1)
              (λ _ e _, Some e.2) id _ flush_board_info_eq _ _ _ _
              (paths_NoDup Pipelines.BoardInfoFile _ BoardInfoFile_inj Hinfo) H1) as [Ho1 Hm1].
  destruct (flush_loop_forward (λ e, Pipelines.TopicsIndexFile e.1)
              (λ tick e existing,
                 Pipelines.topics_index_payload (Pipelines.board_info self)
                   (clock tick) e.1 e.2 existing) S _
              (λ _ _, eq_refl) _ _ _ _
              (paths_NoDup Pipelines.TopicsIndexFile _ TopicsIndexFile_inj Htopics) H2) as [Ho2 Hm2].
  destruct (flush_loop_forward (λ e, Pipelines.TopicFile e.1.1 e.1.2)
              (λ tick e existing,
                 Pipelines.topic_posts_payload (clock tick) e.1.1 e.1.2 e.2 existing)
              S _ (λ _ _, eq_refl) _ _ _ _
              (paths_NoDup (λ bt, Pipelines.TopicFile bt.1 bt.2) _ TopicFile_inj Hposts) H3)
    as [Ho3 Hm3].
  simpl in *.
  assert (∀ {V} (entries : list (string * V)) board,
            Pipelines.BoardInfoFile board
            ∉ (λ e, Pipelines.TopicsIndexFile e.1) <$> entries) as Hbi_ti.
  { intros V entries board (? & ? & _)%list_elem_of_fmap. done. }
  assert (∀ {V} (entries : list (string * string * V)) board,
            Pipelines.BoardInfoFile board
            ∉ (λ e, Pipelines.TopicFile e.1.1 e.1.2) <$> entries) as Hbi_tf.
  { intros V entries board (? & ? & _)%list_elem_of_fmap. done. }
  assert (∀ {V} (entries : list (string * V)) board,
            Pipelines.TopicsIndexFile board
            ∉ (λ e, Pipelines.BoardInfoFile e.1) <$> entries) as Hti_bi.
  { intros V entries board (? & ? & _)%list_elem_of_fmap. done. }
  assert (∀ {V} (entries : list (string * string * V)) board,
            Pipelines.TopicsIndexFile board
            ∉ (λ e, Pipelines.TopicFile e.1.1 e.1.2) <$> entries) as Hti_tf.
  { intros V entries board (? & ? & _)%list_elem_of_fmap. done. }
  assert (∀ {V} (entries : list (string * V)) board topic,
            Pipelines.TopicFile board topic
            ∉ (λ e, Pipelines.BoardInfoFile e.1) <$> entries) as Htf_bi.
  { intros V entries board topic (? & ? & _)%list_elem_of_fmap. done. }
  assert (∀ {V} (entries : list (string * V)) board topic,
            Pipelines.TopicFile board topic
            ∉ (λ e, Pipelines.TopicsIndexFile e.1) <$> entries) as Htf_ti.
  { intros V entries board topic (? & ? & _)%list_elem_of_fmap. done. }
  split_and!.
  - intros board. rewrite Ho3, Ho2 by done.
    destruct (Pipelines.dict_get board (Pipelines.board_info self)) as [info|] eqn:E.
    + apply dict_get_elem in E.
      destruct (Hm1 _ E) as (_ & payload & [= <-] & Hd). done.
    + apply Ho1. intros (e & [= ->] & He)%list_elem_of_fmap.
      apply dict_get_None in E. apply E, list_elem_of_fmap. by exists e.
  - intros board.
    destruct (Pipelines.dict_get board (Pipelines.topic_summaries self))
      as [topics|] eqn:E.
    + apply dict_get_elem in E.
      destruct (Hm2 _ E) as (tick & payload & HF & Hd). simpl in *.
      exists tick, payload. split; [|by rewrite Ho3].
      rewrite <-HF. unfold Pipelines._load_json. by rewrite Ho1.
    + rewrite Ho3 by done. rewrite Ho2; [by rewrite Ho1|].
      intros (e & [= ->] & He)%list_elem_of_fmap.
      apply dict_get_None in E. apply E, list_elem_of_fmap. by exists e.
  - intros board topic.
    destruct (Pipelines.dict_get (board, topic) (Pipelines.topic_posts self))
      as [posts|] eqn:E.
    + apply dict_get_elem in E.
      destruct (Hm3 _ E) as (tick & payload & HF & Hd). simpl in *.
      exists tick, payload. split; [|done].
      rewrite <-HF. unfold Pipelines._load_json. by rewrite Ho2, Ho1.
    + rewrite Ho3; [by rewrite Ho2, Ho1|].
      intros ([[b t] v] & [= -> ->] & He)%list_elem_of_fmap.
      apply dict_get_None in E. apply E, list_elem_of_fmap. by exists (b, t, v).
Qed.
End close_spider.

Section close_spider_runs.
Variable clock : nat → string.
Implicit Types (self : Pipelines.pipeline) (d : Pipelines.disk).

Local Abbreviation empty := (Pipelines.JDict []).

Lemma close_spider_backward self d :
  NoDup (Pipelines.board_info self).*1 →
  NoDup (Pipelines.topic_summaries self).*1 →
  NoDup (Pipelines.topic_posts self).*1 →
  (∀ board topics tick,
     Pipelines.dict_get board (Pipelines.topic_summaries self) = Some topics →
     is_Some (Pipelines.topics_index_payload (Pipelines.board_info self)
                (clock tick) board topics
                (Pipelines._load_json d (Pipelines.TopicsIndexFile board) empty))) →
  (∀ board topic posts tick,
     Pipelines.dict_get (board, topic) (Pipelines.topic_posts self) = Some posts →
     is_Some (Pipelines.topic_posts_payload (clock tick) board topic posts
                (Pipelines._load_json d (Pipelines.TopicFile board topic) empty))) →
  is_Some (Pipelines.close_spider clock self d).
Proof.
  intros Hinfo Htopics Hposts Hindex Htopic. unfold Pipelines.close_spider.
  pose proof (paths_NoDup Pipelines.BoardInfoFile _ BoardInfoFile_inj Hinfo) as Hp1.
  pose proof (paths_NoDup Pipelines.TopicsIndexFile _ TopicsIndexFile_inj Htopics) as Hp2.
  pose proof (paths_NoDup (λ bt, Pipelines.TopicFile bt.1 bt.2) _ TopicFile_inj Hposts) as Hp3.
  destruct (flush_loop_backward (λ e, Pipelines.BoardInfoFile e.1)
              (λ _ e _, Some e.2) id _ (flush_board_info_eq)
              (Pipelines.board_info self) d (Pipelines.ticks self) Hp1)
    as [[d1 n1] H1]; [by eauto|].
  rewrite H1. simpl.
  destruct (flush_loop_forward (λ e, Pipelines.BoardInfoFile e.1)
              (λ _ e _, Some e.2) id _ flush_board_info_eq _ _ _ _ Hp1 H1)
    as [Ho1 _]. simpl in Ho1.
  destruct (flush_loop_backward (λ e, Pipelines.TopicsIndexFile e.1)
              (λ tick e existing,
                 Pipelines.topics_index_payload (Pipelines.board_info self)
                   (clock tick) e.1 e.2 existing) S
              (Pipelines.flush_topics_index clock (Pipelines.board_info self))
              (λ _ _, eq_refl)
              (Pipelines.topic_summaries self) d1 n1 Hp2)
    as [[d2 n2] H2].
  { intros [board topics] tick He. simpl. unfold Pipelines._load_json.
    rewrite Ho1; [|by intros (? & ? & _)%list_elem_of_fmap].
    apply Hindex. by apply dict_get_NoDup. }
  rewrite H2. simpl.
  destruct (flush_loop_forward (λ e, Pipelines.TopicsIndexFile e.1)
              (λ tick e existing,
                 Pipelines.topics_index_payload (Pipelines.board_info self)
                   (clock tick) e.1 e.2 existing) S
              (Pipelines.flush_topics_index clock (Pipelines.board_info self))
              (λ _ _, eq_refl) _ _ _ _ Hp2 H2) as [Ho2 _]. simpl in Ho2.
  destruct (flush_loop_backward (λ e, Pipelines.TopicFile e.1.1 e.1.2)
              (λ tick e existing,
                 Pipelines.topic_posts_payload (clock tick) e.1.1 e.1.2 e.2 existing)
              S (Pipelines.flush_topic_posts clock) (λ _ _, eq_refl)
              (Pipelines.topic_posts self) d2 n2 Hp3)
    as [[d3 n3] H3].
  { intros [[board topic] posts] tick He. simpl. unfold Pipelines._load_json.
    rewrite Ho2; [|by intros (? & ? & _)%list_elem_of_fmap].
    rewrite Ho1; [|by intros (? & ? & _)%list_elem_of_fmap].
    apply Htopic. by apply dict_get_NoDup. }
  rewrite H3. done.
Qed.
End close_spider_runs.

(** ** C5: running the flush twice *)

Section twice.
Variables clock1 clock2 : nat → string.
Variable stamps : list string.
Hypothesis fetched_at_blanked : "fetched_at" ∈ stamps.
Hypothesis collected_at_blanked : "collected_at" ∈ stamps.
Hypothesis updated_at_blanked : "updated_at" ∈ stamps.
Implicit Types (self : Pipelines.pipeline) (d : Pipelines.disk).

Local Abbreviation empty := (Pipelines.JDict []).

Lemma load_distinct_keys d p :
  (∀ q j, d q = Some (Pipelines.Doc j) → Pipelines.distinct_keys j) →
  Pipelines.distinct_keys (Pipelines._load_json d p empty).
Proof.
  intros Hd. unfold Pipelines._load_json.
  destruct (d p) as [[|j]|] eqn:E; [constructor|by eapply Hd|constructor].
Qed.

Lemma load_Doc d p j fallback :
  d p = Some (Pipelines.Doc j) → Pipelines._load_json d p fallback = j.
Proof. unfold Pipelines._load_json. by intros ->. Qed.

Lemma close_spider_twice self1 self2 d0 d1 :
  (∀ p j, d0 p = Some (Pipelines.Doc j) → Pipelines.distinct_keys j) →
  Pipelines.buffers_keyed self1 → Pipelines.buffers_keyed self2 →
  Pipelines.same_buffers self1 self2 →
  Pipelines.close_spider clock1 self1 d0 = Some d1 →
  ∃ d2, Pipelines.close_spider clock2 self2 d1 = Some d2
        ∧ ∀ p, Pipelines.scrub_file stamps (d2 p) = Pipelines.scrub_file stamps (d1 p).
Proof.
  intros Hd0 (Hi1 & Ht1 & Hp1 & Htk1 & Hpk1) (Hi2 & Ht2 & Hp2 & Htk2 & Hpk2)
    (Rinfo & Rtopics & Rposts) Hrun1.
  destruct (close_spider_forward clock1 self1 d0 d1 Hi1 Ht1 Hp1 Hrun1)
    as (B1 & T1 & P1).
  (* What the second run computes for an index and for a topic file. *)
  assert (∀ board topics2 now2,
            Pipelines.dict_get board (Pipelines.topic_summaries self2) = Some topics2 →
            ∃ payload1 payload2,
              d1 (Pipelines.TopicsIndexFile board)
              = Some (Pipelines.Doc (Pipelines.JDict payload1))
              ∧ Pipelines.topics_index_payload (Pipelines.board_info self2) now2
                  board topics2
                  (Pipelines._load_json d1 (Pipelines.TopicsIndexFile board) empty)
                = Some payload2
              ∧ Pipelines.scrub stamps (Pipelines.JDict payload2)
                = Pipelines.scrub stamps (Pipelines.JDict payload1)) as Hindex.
  { intros board topics2 now2 Hget2.
    pose proof (dict_rel_get _ _ _ board Rtopics) as Hrel.
    specialize (T1 board).
    destruct (Pipelines.dict_get board (Pipelines.topic_summaries self1))
      as [topics1|] eqn:Hget1; [|rewrite Hget2 in Hrel; by inversion Hrel].
    assert (Pipelines.dict_rel Pipelines.restamped topics1 topics2) as Hre
      by (rewrite Hget2 in Hrel; by inversion Hrel).
    destruct T1 as (tick & payload1 & Hpay1 & Hd1).
    assert (Pipelines.keyed_by "topic_id" topics1) as Hkeyed.
    { rewrite Forall_forall in Htk1.
      apply (Htk1 (board, topics1)). by apply dict_get_elem. }
    destruct (topics_index_again stamps fetched_at_blanked collected_at_blanked
                _ _ _ now2 _ _ _ _ _ Hkeyed Hre Rinfo Hpay1)
      as (payload2 & Hpay2 & Hscrub).
    exists payload1, payload2. split_and!; [done| |done].
    by rewrite (load_Doc _ _ _ _ Hd1). }
  assert (∀ board topic posts2 now2,
            Pipelines.dict_get (board, topic) (Pipelines.topic_posts self2)
            = Some posts2 →
            ∃ payload1 payload2,
              d1 (Pipelines.TopicFile board topic)
              = Some (Pipelines.Doc (Pipelines.JDict payload1))
              ∧ Pipelines.topic_posts_payload now2 board topic posts2
                  (Pipelines._load_json d1 (Pipelines.TopicFile board topic) empty)
                = Some payload2
              ∧ Pipelines.scrub stamps (Pipelines.JDict payload2)
                = Pipelines.scrub stamps (Pipelines.JDict payload1)) as Htopic.
  { intros board topic posts2 now2 Hget2.
    pose proof (dict_rel_get _ _ _ (board, topic) Rposts) as Hrel.
    specialize (P1 board topic).
    destruct (Pipelines.dict_get (board, topic) (Pipelines.topic_posts self1))
      as [posts1|] eqn:Hget1; [|rewrite Hget2 in Hrel; by inversion Hrel].
    assert (Pipelines.dict_rel Pipelines.restamped posts1 posts2) as Hre
      by (rewrite Hget2 in Hrel; by inversion Hrel).
    destruct P1 as (tick & payload1 & Hpay1 & Hd1).
    assert (Pipelines.keyed_by "post_id" posts1) as Hkeyed.
    { rewrite Forall_forall in Hpk1.
      apply (Hpk1 (board, topic, posts1)). by apply dict_get_elem. }
    destruct (topic_posts_again stamps fetched_at_blanked updated_at_blanked
                _ now2 _ _ _ _ _ _ (load_distinct_keys d0 _ Hd0) Hkeyed Hre Hpay1)
      as (payload2 & Hpay2 & Hscrub).
    exists payload1, payload2. split_and!; [done| |done].
    by rewrite (load_Doc _ _ _ _ Hd1). }
  destruct (close_spider_backward clock2 self2 d1 Hi2 Ht2 Hp2) as [d2 Hrun2].
  { intros board topics2 tick Hget2.
    destruct (Hindex board topics2 (clock2 tick) Hget2) as (? & ? & _ & -> & _).
    done. }
  { intros board topic posts2 tick Hget2.
    destruct (Htopic board topic posts2 (clock2 tick) Hget2) as (? & ? & _ & -> & _).
    done. }
  exists d2. split; [done|].
  destruct (close_spider_forward clock2 self2 d1 d2 Hi2 Ht2 Hp2 Hrun2)
    as (B2 & T2 & P2).
  intros [board|board|board topic].
  - rewrite B2, B1.
    pose proof (dict_rel_get _ _ _ board Rinfo) as Hrel.
    destruct Hrel as [info1 info2 Hre|]; [|done].
    unfold Pipelines.scrub_file.
    by rewrite (restamped_scrub stamps info1 info2).
  - specialize (T2 board).
    destruct (Pipelines.dict_get board (Pipelines.topic_summaries self2))
      as [topics2|] eqn:Hget2; [|by rewrite T2].
    destruct T2 as (tick & payload2 & Hpay2 & ->).
    destruct (Hindex board topics2 (clock2 tick) Hget2)
      as (payload1 & payload2' & -> & Hpay2' & Hscrub).
    assert (payload2 = payload2') as -> by congruence.
    unfold Pipelines.scrub_file. by rewrite Hscrub.
  - specialize (P2 board topic).
    destruct (Pipelines.dict_get (board, topic) (Pipelines.topic_posts self2))
      as [posts2|] eqn:Hget2; [|by rewrite P2].
    destruct P2 as (tick & payload2 & Hpay2 & ->).
    destruct (Htopic board topic posts2 (clock2 tick) Hget2)
      as (payload1 & payload2' & -> & Hpay2' & Hscrub).
    assert (payload2 = payload2') as -> by congruence.
    unfold Pipelines.scrub_file. by rewrite Hscrub.
Qed.
End twice.

(** ** C4: the merge of the topic index *)

Section index_merge.
Variables (list_field sort_field id_field : string).
Local Abbreviation key := (Pipelines.record_key sort_field id_field).
Local Abbreviation rid := (Pipelines.record_id id_field).
Local Abbreviation wrap := (fmap (M:=list) (prod_map id Pipelines.JDict)).
Local Abbreviation paired :=
  (fmap (M:=list) (λ x : Pipelines.json, (default "" (rid x), x))).
Implicit Types (buf : list (string * list (string * Pipelines.json)))
  (l old ordered : list Pipelines.json) (x : Pipelines.json) (i : string).

Lemma first_with_id_paired i l :
  Forall (λ x, is_Some (rid x)) l →
  Pipelines.dict_get i (paired l) = Pipelines.first_with_id id_field i l.
Proof.
  unfold Pipelines.first_with_id.
  induction 1 as [|x l [j Hj] _ IH]; [done|].
  rewrite fmap_cons, filter_cons. simpl. rewrite Hj. simpl.
  destruct (decide (j = i)) as [->|Hne].
  - by rewrite decide_True.
  - rewrite decide_False by congruence. done.
Qed.

Lemma dict_get_perm {V} (d d' : list (string * V)) i :
  NoDup d.*1 → d ≡ₚ d' → Pipelines.dict_get i d = Pipelines.dict_get i d'.
Proof.
  intros Hnd Hperm.
  destruct (Pipelines.dict_get i d) as [v|] eqn:E; symmetry.
  - apply dict_get_NoDup; [by rewrite <-Hperm|].
    rewrite <-Hperm. by apply dict_get_elem.
  - apply dict_get_None. rewrite <-Hperm. by apply dict_get_None.
Qed.

Lemma stored_by_id_records existing old :
  Pipelines.stored_records existing list_field = Some old →
  Forall (λ x, is_Some (rid x)) old →
  Pipelines.stored_by_id existing list_field id_field
  = Some (Pipelines.dict_of (paired old)).
Proof.
  unfold Pipelines.stored_records, Pipelines.stored_by_id.
  destruct (Pipelines.truthy existing); [|by intros [= <-]].
  intros -> Hall. simpl.
  rewrite <-(list_fmap_id old) at 1.
  rewrite (mapM_fmap_Some _ id (λ x, (default "" (rid x), x))); [done|].
  eapply Forall_impl; [exact Hall|]. intros x [j Hj]. simpl.
  unfold Pipelines.record_id in *. by rewrite Hj.
Qed.

Lemma strictly_sorted (keys : list (Z * string)) :
  Sorted (λ a b, Pipelines.key_lt b a = false) keys → NoDup keys →
  StronglySorted (λ a b, Pipelines.key_lt a b = true) keys.
Proof.
  intros Hsorted Hnd.
  assert (Transitive (λ a b : Z * string, Pipelines.key_lt b a = false)) as Htrans.
  { intros a b c. apply key_not_lt_trans. }
  apply Sorted_StronglySorted in Hsorted; [|done].
  induction Hsorted as [|a keys _ IH Hall]; [constructor|].
  apply NoDup_cons in Hnd as [Ha Hnd]. constructor; [by apply IH|].
  apply Forall_forall. intros b Hb. rewrite Forall_forall in Hall.
  specialize (Hall b Hb).
  destruct (Pipelines.key_lt a b) eqn:E; [done|].
  assert (a = b) as -> by (by apply key_not_lt_antisym). done.
Qed.

(** The merge of the records of [old] with the buffer [buf], for records
    and payloads whose sort key is defined. *)
Lemma merge_records existing old buf :
  Pipelines.keyed_by id_field buf →
  Forall (λ kp, is_Some (key (Pipelines.JDict kp.2))) buf →
  Pipelines.stored_records existing list_field = Some old →
  Forall (λ x, is_Some (key x)) old →
  ∃ st ordered keys,
    Pipelines.stored_by_id existing list_field id_field = Some st
    ∧ Pipelines.sorted key
        (Pipelines.dict_values (Pipelines.dict_update st (wrap buf))) = Some ordered
    ∧ (∀ i, Pipelines.first_with_id id_field i ordered
            = match Pipelines.dict_get i buf with
              | Some p => Some (Pipelines.JDict p)
              | None => Pipelines.last_with_id id_field i old
              end)
    ∧ NoDup (rid <$> ordered)
    ∧ Forall2 (λ x k, key x = Some k) ordered keys
    ∧ StronglySorted (λ a b, Pipelines.key_lt a b = true) keys.
Proof.
  intros Hbuf Hbuf_keys Hold Hold_keys.
  assert (Forall (λ x, is_Some (rid x)) old) as Hold_ids.
  { eapply Forall_impl; [exact Hold_keys|]. intros x [k Hk].
    exists k.2. by eapply record_key_id. }
  pose proof (stored_by_id_records existing old Hold Hold_ids) as Hst.
  set (st := Pipelines.dict_of (paired old)) in *.
  destruct (stored_by_id_spec _ _ _ _ Hst) as [Hst_nd Hst_ids].
  set (M := Pipelines.dict_update st (wrap buf)).
  assert (NoDup M.*1) as HM_nd by (by apply dict_update_NoDup).
  assert (Pipelines.ids_are_keys id_field M) as HM_ids
    by (by apply merged_ids_are_keys).
  assert (Forall (λ x, is_Some (key x)) (Pipelines.dict_values M)) as HM_keys.
  { apply Forall_forall. intros x ([i y] & -> & Hin)%list_elem_of_fmap.
    apply dict_update_elem in Hin as [Hin|Hin].
    - apply list_elem_of_fmap in Hin as ([j p] & [= -> ->] & Hin).
      exact (proj1 (Forall_forall _ _) Hbuf_keys (j, p) Hin).
    - apply dict_update_elem in Hin as [Hin|Hin]; [|by apply elem_of_nil in Hin].
      apply list_elem_of_fmap in Hin as (x & [= -> ->] & Hin).
      exact (proj1 (Forall_forall _ _) Hold_keys x Hin). }
  destruct (sorted_defined key _ HM_keys) as [ordered Hordered].
  destruct (sorted_keyed _ _ _ Hordered) as (KS & HKS & Hkeys & Hsorted & Hperm).
  unfold Pipelines.dict_values in Hperm.
  assert (Forall (λ x, is_Some (rid x)) ordered) as Hordered_ids.
  { rewrite <-HKS. apply Forall_fmap. eapply Forall_impl; [exact Hkeys|].
    intros kx Hkx. exists kx.1.2. exact (record_key_id _ _ _ _ Hkx). }
  assert (paired ordered ≡ₚ M) as Hpaired.
  { rewrite (ids_are_keys_unzip id_field M) by done. by rewrite Hperm. }
  assert (NoDup (paired ordered).*1) as Hpaired_nd by (by rewrite Hpaired).
  assert (rid <$> ordered = Some <$> (paired ordered).*1) as Hids.
  { rewrite <-!list_fmap_compose. apply list_fmap_ext. intros n x Hn.
    rewrite Forall_forall in Hordered_ids.
    destruct (Hordered_ids x (list_elem_of_lookup_2 _ _ _ Hn)) as [j Hj].
    simpl. by rewrite Hj. }
  exists st, ordered, KS.*1. split_and!; [done|done| | | |].
  - intros i. rewrite <-first_with_id_paired by done.
    rewrite (dict_get_perm _ M) by done.
    subst M. destruct Hbuf as [Hbuf_nd _]. rewrite merged_get by done.
    destruct (Pipelines.dict_get i buf); [done|].
    subst st. unfold Pipelines.dict_of. rewrite dict_get_update.
    rewrite <-fmap_reverse, first_with_id_paired
      by (by apply Forall_reverse).
    unfold Pipelines.last_with_id.
    by destruct (Pipelines.first_with_id id_field i (reverse old)).
  - rewrite Hids. by apply (NoDup_fmap_2 Some).
  - rewrite <-HKS. apply Forall2_fmap, Forall_Forall2_diag.
    eapply Forall_impl; [exact Hkeys|]. done.
  - apply strictly_sorted.
    + apply (Sorted_fmap fst Pipelines.key_le); [|done]. by intros ??.
    + apply (NoDup_fmap_1 snd).
      replace (KS.*1.*2) with ((paired ordered).*1); [done|].
      rewrite <-HKS, <-!list_fmap_compose. apply list_fmap_ext. intros n kx Hn.
      rewrite Forall_forall in Hkeys.
      specialize (Hkeys kx (list_elem_of_lookup_2 _ _ _ Hn)). simpl.
      by rewrite (record_key_id _ _ _ _ Hkeys).
Qed.
End index_merge.

(** C4. The loaded index being [existing] with the records [old], and the
    buffered summaries [topics] being keyed by their [topic_id], the flush
    writes an index whose topics are, for each [topic_id], the buffered
    record when there is one and else the stored record (the last listed),
    each [topic_id] once, in strictly increasing order of
    [(board_offset, topic_id)].  Merging the batch B (new subject), C into
    the index A, B gives A, B (new subject), C. *)
Theorem topic_index_merge
    (infos : list (string * list (string * Pipelines.json))) (now board : string)
    (topics : list (string * list (string * Pipelines.json)))
    (existing : Pipelines.json) (old : list Pipelines.json) :
  Pipelines.keyed_by "topic_id" topics →
  Forall (λ kp, is_Some (Pipelines.topic_key (Pipelines.JDict kp.2))) topics →
  Pipelines.stored_records existing "topics" = Some old →
  Forall (λ x, is_Some (Pipelines.topic_key x)) old →
  (∃ ordered keys,
     Pipelines.topics_index_payload infos now board topics existing
     = Some (let payload :=
               [("board_id", Pipelines.JStr board);
                ("collected_at", Pipelines.JStr now);
                ("topics", Pipelines.JList ordered)] in
             match Pipelines.dict_get board infos with
             | Some info =>
                 Pipelines.dict_set "board_name"
                   (default Pipelines.JNull (Pipelines.dict_get "name" info)) payload
             | None => payload
             end)
     ∧ (∀ id, Pipelines.first_with_id "topic_id" id ordered
              = match Pipelines.dict_get id topics with
                | Some p => Some (Pipelines.JDict p)
                | None => Pipelines.last_with_id "topic_id" id old
                end)
     ∧ NoDup (Pipelines.record_id "topic_id" <$> ordered)
     ∧ Forall2 (λ x k, Pipelines.topic_key x = Some k) ordered keys
     ∧ StronglySorted (λ a b, Pipelines.key_lt a b = true) keys)
  ∧ Pipelines.topics_index_payload [] "t1" "8" Examples.new_batch
      Examples.existing_index
    = Some [("board_id", Pipelines.JStr "8");
            ("collected_at", Pipelines.JStr "t1");
            ("topics",
             Pipelines.JList
               [Examples.stored_topic 0 "A" "a";
                Pipelines.JDict
                  (Examples.topic_fields 25 "B" "b, edited"
                   ++ [("fetched_at", Pipelines.JStr "t1")]);
                Pipelines.JDict
                  (Examples.topic_fields 50 "C" "c"
                   ++ [("fetched_at", Pipelines.JStr "t1")])])]
  ∧ Examples.after_first_run (Pipelines.TopicsIndexFile "8")
    = Some (Pipelines.Doc
              (Pipelines.JDict
                 [("board_id", Pipelines.JStr "8");
                  ("collected_at", Pipelines.JStr "t1");
                  ("topics",
                   Pipelines.JList
                     [Examples.stored_topic 0 "A" "a";
                      Pipelines.JDict
                        (Examples.topic_fields 25 "B" "b, edited"
                         ++ [("fetched_at", Pipelines.JStr "t1")]);
                      Pipelines.JDict
                        (Examples.topic_fields 50 "C" "c"
                         ++ [("fetched_at", Pipelines.JStr "t1")])])])).
Proof.
  intros Hbuf Hbuf_keys Hold Hold_keys. split_and!; [|by vm_compute..].
  destruct (merge_records "topics" "board_offset" "topic_id" existing old topics
              Hbuf Hbuf_keys Hold Hold_keys)
    as (st & ordered & keys & Hst & Hordered & Hfirst & Hnd & Hkeys & Hsorted).
  exists ordered, keys. split_and!; [|done..].
  unfold Pipelines.topics_index_payload. rewrite Hst. simpl.
  unfold Pipelines.topic_key. rewrite Hordered. done.
Qed.

(** C4, at a concrete input: the index A, B and the batch B, C. *)
Lemma topic_index_merge_witness :
  Pipelines.topics_index_payload [] "t1" "8" Examples.new_batch
    Examples.existing_index
  = Some [("board_id", Pipelines.JStr "8");
          ("collected_at", Pipelines.JStr "t1");
          ("topics",
           Pipelines.JList
             [Examples.stored_topic 0 "A" "a";
              Pipelines.JDict
                (Examples.topic_fields 25 "B" "b, edited"
                 ++ [("fetched_at", Pipelines.JStr "t1")]);
              Pipelines.JDict
                (Examples.topic_fields 50 "C" "c"
                 ++ [("fetched_at", Pipelines.JStr "t1")])])].
Proof.
  refine (proj1 (proj2 (topic_index_merge [] "t1" "8" Examples.new_batch
                          Examples.existing_index
                          [Examples.stored_topic 0 "A" "a";
                           Examples.stored_topic 25 "B" "b"] _ _ _ _))).
  - split.
    + apply (bool_decide_unpack _). vm_compute. exact I.
    + repeat (apply Forall_cons_2; [reflexivity|]). apply Forall_nil_2.
  - repeat (apply Forall_cons_2; [eexists; reflexivity|]). apply Forall_nil_2.
  - reflexivity.
  - repeat (apply Forall_cons_2; [eexists; reflexivity|]). apply Forall_nil_2.
Defined.

(** C5 (as amended). When a run of the pipeline over some items has written
    its files, a second run over the same items, started from those files
    at another time, succeeds and writes the same documents but for the
    values of [fetched_at], [updated_at] and [collected_at]. *)
Theorem flush_twice_same_documents (clock1 clock2 : nat → string)
    (items : list Pipelines.item) (d0 d1 : Pipelines.disk) :
  (∀ p j, d0 p = Some (Pipelines.Doc j) → Pipelines.distinct_keys j) →
  Pipelines.run clock1 items d0 = Some d1 →
  ∃ d2,
    Pipelines.run clock2 items d1 = Some d2
    ∧ ∀ p, Pipelines.scrub_file Pipelines.timestamp_fields (d2 p)
           = Pipelines.scrub_file Pipelines.timestamp_fields (d1 p).
Proof.
  intros Hd0. unfold Pipelines.run.
  destruct (Pipelines.for_each (Pipelines.process_item clock1) items _)
    as [self1|] eqn:Hitems1; simpl; [|done].
  intros Hclose1.
  destruct (for_each_related _ (Pipelines.process_item clock2)
              Pipelines.same_buffers items (process_item_same clock1 clock2)
              _ _ _ new_pipeline_same Hitems1)
    as (self2 & Hitems2 & Hsame).
  rewrite Hitems2. simpl.
  apply (close_spider_twice clock1 clock2 Pipelines.timestamp_fields)
    with (self1 := self1) (d0 := d0);
    [unfold Pipelines.timestamp_fields; set_solver..|done| | |done|done].
  - eapply (for_each_preserves _ Pipelines.buffers_keyed);
      [apply process_item_keyed|apply new_pipeline_keyed|exact Hitems1].
  - eapply (for_each_preserves _ Pipelines.buffers_keyed);
      [apply process_item_keyed|apply new_pipeline_keyed|exact Hitems2].
Qed.

(** C5, at a concrete input: the batch B, C merged twice into the index
    with A and B. *)
Lemma flush_twice_same_documents_witness :
  ∃ d2,
    Pipelines.run Examples.second_clock Examples.batch_items
      Examples.after_first_run = Some d2
    ∧ ∀ p, Pipelines.scrub_file Pipelines.timestamp_fields (d2 p)
           = Pipelines.scrub_file Pipelines.timestamp_fields
               (Examples.after_first_run p).
Proof.
  apply (flush_twice_same_documents Examples.first_clock Examples.second_clock
           Examples.batch_items Examples.disk_with_index).
  - intros p j. unfold Examples.disk_with_index, Pipelines.write.
    destruct (decide (p = Pipelines.TopicsIndexFile "8")); [|discriminate].
    intros [= <-]. apply (bool_decide_unpack _). vm_compute. exact I.
  - vm_compute. reflexivity.
Defined.

(** C5, the claim as written fails: the two runs write different values of
    [collected_at] into the topic index, so the two indexes differ once
    only [fetched_at] and [updated_at] are blanked. *)
Lemma flush_twice_collected_at_counterexample :
  Pipelines.run Examples.first_clock Examples.batch_items Examples.disk_with_index
  = Some Examples.after_first_run
  ∧ Pipelines.run Examples.second_clock Examples.batch_items Examples.after_first_run
    = Some Examples.after_second_run
  ∧ Pipelines.scrub_file Pipelines.claimed_timestamp_fields
      (Examples.after_second_run (Pipelines.TopicsIndexFile "8"))
    ≠ Pipelines.scrub_file Pipelines.claimed_timestamp_fields
        (Examples.after_first_run (Pipelines.TopicsIndexFile "8")).
Proof.
  split_and!.
  - vm_compute. reflexivity.
  - vm_compute. reflexivity.
  - vm_compute. discriminate.
Qed.

Example parse_int_ex : Utils.parse_int (Some "12 Posts 3 Topics") = Some 123.
Proof. reflexivity. Qed.

Example next_offset_ex : Utils.next_offset {[0; 25; 50]} 0 = Some 25.
Proof. vm_compute. reflexivity. Qed.

Example detect_step_ex : Utils.detect_step {[0; 25; 50]} 7 = 25.
Proof. vm_compute. reflexivity. Qed.

(* ================================================================= *)
(** * Further properties *)

(** ** [normalize_space] *)

Section normalize_space.
Context {char : Type} (isspace : char → bool) (space : char).
Hypothesis space_isspace : isspace space = true.
Implicit Types (s t word : list char) (c : char) (ws : list (list char)).

Local Abbreviation sub_whitespace := (Utils.sub_whitespace isspace space).
Local Abbreviation lstrip := (Utils.lstrip isspace).
Local Abbreviation rstrip := (Utils.rstrip isspace).
Local Abbreviation words_from := (Utils.words_from isspace).
Local Abbreviation join_spaced := (Utils.join_spaced space).
Local Abbreviation solid := (Forall (λ c, isspace c = false)).
Local Abbreviation good_words :=
  (Forall (λ word : list char, word ≠ [] ∧ solid word)).

Lemma lstrip_app s t :
  lstrip (s ++ t) = match lstrip s with [] => lstrip t | r => r ++ t end.
Proof.
  induction s as [|c s IH]; [done|].
  simpl. destruct (isspace c); [exact IH|done].
Qed.

Lemma rstrip_cons c s :
  rstrip (c :: s)
  = match rstrip s with
    | [] => if isspace c then [] else [c]
    | r => c :: r
    end.
Proof.
  unfold Utils.rstrip. rewrite reverse_cons, lstrip_app.
  destruct (lstrip (reverse s)) as [|d r] eqn:Hr.
  - simpl. by destruct (isspace c).
  - rewrite reverse_app, reverse_singleton. simpl.
    destruct (reverse (d :: r)) eqn:Hrev; [|done].
    apply (f_equal reverse) in Hrev. rewrite reverse_involutive in Hrev.
    done.
Qed.

Lemma rstrip_nil : rstrip [] = [].
Proof. done. Qed.

Lemma rstrip_solid_app word s : solid word → rstrip (word ++ s) = word ++ rstrip s.
Proof.
  induction 1 as [|c word Hc _ IH]; [done|].
  simpl. rewrite rstrip_cons, IH, Hc. by destruct (word ++ rstrip s).
Qed.

Lemma lstrip_idemp s : lstrip (lstrip s) = lstrip s.
Proof.
  induction s as [|c s IH]; [done|].
  simpl. destruct (isspace c) eqn:Hc; [done|]. simpl. by rewrite Hc.
Qed.

Lemma sub_whitespace_in_run s : sub_whitespace true s = sub_whitespace false (lstrip s).
Proof.
  induction s as [|c s IH]; [done|].
  simpl. destruct (isspace c) eqn:Hc; [done|]. simpl. by rewrite Hc.
Qed.

Lemma lstrip_sub_whitespace s :
  ∀ b, lstrip (sub_whitespace b s) = sub_whitespace false (lstrip s).
Proof.
  induction s as [|c s IH]; intros b; [done|].
  simpl. destruct (isspace c) eqn:Hc.
  - destruct b; simpl; rewrite ?space_isspace; apply IH.
  - simpl. by rewrite Hc.
Qed.

Lemma words_from_good s : ∀ word, solid word → good_words (words_from word s).
Proof.
  induction s as [|c s IH]; intros word Hword; simpl.
  - destruct word; simpl; [constructor|]. by apply Forall_singleton.
  - destruct (isspace c) eqn:Hc.
    + apply Forall_app. split; [|by apply IH].
      destruct word; simpl; [constructor|]. by apply Forall_singleton.
    + apply IH. apply Forall_app. split; [done|]. by apply Forall_singleton.
Qed.

Lemma join_spaced_nil ws : good_words ws → join_spaced ws = [] → ws = [].
Proof.
  destruct 1 as [|word ws [Hne _] _]; [done|].
  simpl. destruct ws; [done|]. by destruct word.
Qed.

Lemma join_spaced_cons word ws :
  join_spaced (word :: ws)
  = match ws with [] => word | _ => word ++ space :: join_spaced ws end.
Proof. done. Qed.

Lemma normalize_space_from s : ∀ word,
  solid word →
  join_spaced (words_from word s)
  = rstrip (match word with
            | [] => lstrip (sub_whitespace false s)
            | _ => word ++ sub_whitespace false s
            end).
Proof.
  induction s as [|c s IH]; intros word Hword.
  - simpl. destruct word as [|d word]; [done|].
    rewrite app_nil_r. rewrite <-(app_nil_r (d :: word)) at 2.
    by rewrite rstrip_solid_app, rstrip_nil, app_nil_r.
  - cbn [Utils.words_from Utils.sub_whitespace]. destruct (isspace c) eqn:Hc.
    + pose proof (IH [] (Forall_nil_2 _)) as IH0. cbn [app] in IH0.
      pose proof (words_from_good s [] (Forall_nil_2 _)) as Hgood.
      destruct word as [|d word].
      * cbn [Utils.flush_word app]. rewrite IH0.
        cbn [Utils.lstrip]. rewrite space_isspace.
        by rewrite !lstrip_sub_whitespace.
      * cbn [Utils.flush_word app].
        change (d :: word ++ space :: sub_whitespace true s)
          with ((d :: word) ++ space :: sub_whitespace true s).
        rewrite rstrip_solid_app by done.
        rewrite rstrip_cons, space_isspace.
        rewrite sub_whitespace_in_run, <-(lstrip_sub_whitespace s false), <-IH0.
        rewrite join_spaced_cons.
        destruct (words_from [] s) as [|w ws] eqn:Hws; [by rewrite app_nil_r|].
        destruct (join_spaced (w :: ws)) eqn:Hj; [|done].
        by apply join_spaced_nil in Hj.
    + rewrite IH by (apply Forall_app; split; [done|by apply Forall_singleton]).
      destruct word as [|d word].
      * cbn [app Utils.lstrip]. by rewrite Hc.
      * cbn [app]. by rewrite <-app_assoc.
Qed.

Lemma normalize_space_words s :
  Utils.normalize_space isspace space s = join_spaced (words_from [] s).
Proof.
  unfold Utils.normalize_space, Utils.strip.
  by rewrite (normalize_space_from s [] (Forall_nil_2 _)).
Qed.

Lemma words_from_solid_app word s : ∀ acc,
  solid word → words_from acc (word ++ s) = words_from (acc ++ word) s.
Proof.
  induction word as [|c word IH]; intros acc Hword; [by rewrite app_nil_r|].
  apply Forall_cons in Hword as [Hc Hword].
  simpl. rewrite Hc, IH by done. by rewrite <-app_assoc.
Qed.

Lemma words_join_spaced ws :
  good_words ws → words_from [] (join_spaced ws) = ws.
Proof.
  induction 1 as [|word ws [Hne Hword] Hws IH]; [done|].
  rewrite join_spaced_cons. destruct ws as [|w ws].
  - rewrite <-(app_nil_r word), words_from_solid_app by done.
    simpl. rewrite app_nil_r. by destruct word.
  - rewrite words_from_solid_app by done.
    cbn [Utils.words_from app]. rewrite space_isspace, IH.
    by destruct word.
Qed.

Lemma join_spaced_shape ws :
  good_words ws →
  Utils.trimmed isspace (join_spaced ws)
  ∧ Utils.single_spaced isspace space (join_spaced ws).
Proof.
  induction 1 as [|word ws [Hne Hword] Hws [IHt IHs]]; [done|].
  rewrite join_spaced_cons.
  assert (∀ t, Utils.single_spaced isspace space t →
               Utils.single_spaced isspace space (word ++ t)) as Happ.
  { intros t Ht. clear Hne. induction Hword as [|c word Hc _ IHw]; [done|].
    simpl. split; [|done]. intros Hc'. congruence. }
  destruct ws as [|w ws].
  - split.
    + destruct Hword; [done|done].
    + rewrite <-(app_nil_r word). by apply Happ.
  - split.
    + destruct Hword; [done|done].
    + apply Happ. split; [|done]. intros _. split; [done|].
      destruct (join_spaced (w :: ws)) eqn:Hj; [|exact IHt].
      by apply join_spaced_nil in Hj.
Qed.
End normalize_space.

(** X1. [normalize_space] returns the words of its argument, the maximal
    runs of characters that are not whitespace, joined by single spaces:
    it equals [" ".join(value.split())]. *)
Theorem normalize_space_joins_words {char : Type} (isspace : char → bool)
    (space : char) (value : list char) :
  isspace space = true →
  Utils.normalize_space isspace space value
  = Utils.join_spaced space (Utils.words isspace value).
Proof. intros Hspace. by apply normalize_space_words. Qed.

(** X2. The result of [normalize_space] has no whitespace at either end,
    and its only whitespace characters are single spaces, each followed by
    a character that is not whitespace; normalizing it again changes
    nothing. *)
Theorem normalize_space_normal {char : Type} (isspace : char → bool)
    (space : char) (value : list char) :
  isspace space = true →
  let result := Utils.normalize_space isspace space value in
  Utils.trimmed isspace result
  ∧ Utils.single_spaced isspace space result
  ∧ Utils.normalize_space isspace space result = result.
Proof.
  intros Hspace result. subst result.
  pose proof (words_from_good isspace value [] (Forall_nil_2 _)) as Hgood.
  rewrite !(normalize_space_words isspace space Hspace).
  destruct (join_spaced_shape isspace space _ Hgood) as [Ht Hs].
  split; [done|]. split; [done|].
  by rewrite (words_join_spaced isspace space Hspace).
Qed.

(** ** [parse_board_id], [parse_topic_id] and the topic rows *)

Section identifiers.
Implicit Types (s : string) (c d : ascii).

Lemma contains_before_same c s : Py.contains c (Py.before c s) = false.
Proof.
  induction s as [|e s IH]; [done|].
  simpl. destruct (Ascii.eqb e c) eqn:He; [done|]. simpl. by rewrite He.
Qed.

Lemma contains_before c d s :
  Py.contains c s = false → Py.contains c (Py.before d s) = false.
Proof.
  induction s as [|e s IH]; [done|].
  simpl. intros [He Hs]%orb_false_iff.
  destruct (Ascii.eqb e d); [done|]. simpl. by rewrite He, IH.
Qed.

Lemma identifier_clean s :
  Py.contains "." (Py.before "." (Py.before ";" s)) = false
  ∧ Py.contains ";" (Py.before "." (Py.before ";" s)) = false.
Proof.
  split; [apply contains_before_same|].
  apply contains_before, contains_before_same.
Qed.
End identifiers.

(** X3. [parse_board_id] returns either nothing or a board id that is not
    empty and holds neither [.] nor [;].  When the query of the URL has a
    [board] value, the id is the part of that value before the first [;]
    and [.]; without one, the text after the last [board=] of the URL is
    used in its place; a URL with neither gives nothing. *)
Theorem parse_board_id_clean (first_value : string → string → option string)
    (url : string) :
  match Utils.parse_board_id first_value url with
  | Some id =>
      id ≠ "" ∧ Py.contains "." id = false ∧ Py.contains ";" id = false
  | None => True
  end
  ∧ (∀ v, first_value url "board" = Some v → v ≠ "" →
       Utils.parse_board_id first_value url
       = if String.eqb (Py.before "." (Py.before ";" v)) "" then None
         else Some (Py.before "." (Py.before ";" v)))
  ∧ (default "" (first_value url "board") = "" →
     Py.occurs "board=" url = true →
     Utils.parse_board_id first_value url
     = if String.eqb (Py.before "." (Py.before ";" (Py.after_last "board=" url))) ""
       then None
       else Some (Py.before "." (Py.before ";" (Py.after_last "board=" url))))
  ∧ (default "" (first_value url "board") = "" →
     Py.occurs "board=" url = false →
     Utils.parse_board_id first_value url = None).
Proof.
  unfold Utils.parse_board_id. repeat split.
  - destruct (String.eqb (Py.before "." _) "") eqn:Hpart; [done|].
    apply String.eqb_neq in Hpart. split; [done|apply identifier_clean].
  - intros v -> Hv. simpl. apply String.eqb_neq in Hv. by rewrite Hv.
  - intros -> ->. done.
  - intros -> ->. done.
Qed.




(** ** More on the offsets *)

Section offsets.
Variable first_value : string → string → option string.
Implicit Types (links : list (option string)) (param ident : string)
  (S : gset Z) (n : Z).

Lemma digit_value_bounds c : Py.is_digit c = true → 0 ≤ Py.digit_value c ≤ 9.
Proof.
  unfold Py.is_digit, Py.digit_value.
  intros [H1%Nat.leb_le H2%Nat.leb_le]%andb_true_iff. lia.
Qed.

Lemma leading_digits_digits s :
  Forall (λ c, Py.is_digit c = true) (String.list_ascii_of_string (Py.leading_digits s)).
Proof.
  induction s as [|c s IH]; [constructor|].
  simpl. destruct (Py.is_digit c) eqn:Hc; [|constructor].
  simpl. by constructor.
Qed.

Lemma int_acc_nonneg s : ∀ acc,
  Forall (λ c, Py.is_digit c = true) (String.list_ascii_of_string s) →
  0 ≤ acc → 0 ≤ Py.int_acc acc s.
Proof.
  induction s as [|c s IH]; intros acc Hs Hacc; [done|].
  simpl in *. apply Forall_cons in Hs as [Hc Hs].
  apply IH; [done|]. pose proof (digit_value_bounds c Hc). lia.
Qed.

Lemma link_offset_nonneg param ident href n :
  Utils.link_offset first_value param ident href = Some n → 0 ≤ n.
Proof.
  intros (h & value & _ & _ & _ & _ & _ & ->)%link_offset_Some.
  apply int_acc_nonneg; [apply leading_digits_digits|done].
Qed.

Lemma collect_offsets_elem links param ident n :
  n ∈ Utils.collect_offsets first_value links param ident
  ↔ n = 0 ∨ ∃ href, href ∈ links
                    ∧ Utils.link_offset first_value param ident href = Some n.
Proof.
  unfold Utils.collect_offsets.
  rewrite elem_of_union, collect_fold_elem, elem_of_singleton.
  set_solver.
Qed.

Lemma collect_offsets_nonneg links param ident n :
  n ∈ Utils.collect_offsets first_value links param ident → 0 ≤ n.
Proof.
  intros [->|(href & _ & Hn)]%collect_offsets_elem; [done|].
  by eapply link_offset_nonneg.
Qed.

(** Above a member of a set that is not the greatest, there is a nearest
    member. *)
Lemma adjacent_above S a b :
  a ∈ S → b ∈ S → a < b →
  ∃ m, Utils.adjacent S a m ∧ m ≤ b.
Proof.
  intros Ha Hb Hab.
  destruct (Utils.next_offset S a) as [m|] eqn:Hnext.
  - unfold Utils.next_offset in Hnext.
    apply py_min_Some in Hnext as [Hm Hleast].
    apply list_elem_of_filter in Hm as [Ham Hm%elem_of_elements].
    exists m. split.
    + repeat split; [done..|].
      intros x Hx [Hax Hxm].
      assert (m ≤ x); [|lia].
      apply Hleast, list_elem_of_filter. split; [done|by apply elem_of_elements].
    + apply Hleast, list_elem_of_filter. split; [done|by apply elem_of_elements].
  - unfold Utils.next_offset in Hnext. apply py_min_None in Hnext.
    assert (b ∈ filter (λ value, a < value) (elements S)) as Hin
      by (apply list_elem_of_filter; split; [done|by apply elem_of_elements]).
    rewrite Hnext in Hin. by apply elem_of_nil in Hin.
Qed.
End offsets.

(** X5. The offsets that [collect_offsets] returns are natural numbers, so
    that [0], always a member, is the least of them; and the result does not
    depend on the order of the pagination anchors or on how often each
    occurs. *)
Theorem collect_offsets_natural (first_value : string → string → option string)
    (links : list (option string)) (param ident : string) :
  (∀ n, n ∈ Utils.collect_offsets first_value links param ident → 0 ≤ n)
  ∧ (∀ links',
       (∀ href, href ∈ links ↔ href ∈ links') →
       Utils.collect_offsets first_value links' param ident
       = Utils.collect_offsets first_value links param ident).
Proof.
  split; [apply collect_offsets_nonneg|].
  intros links' Hsame. apply set_eq. intros n.
  rewrite !collect_offsets_elem. by setoid_rewrite Hsame.
Qed.

(** X6. Whenever two different offsets are known, [detect_step] ignores
    the default: its result is positive and no more than the distance
    between any two different members of the set.  When the set has no two
    different members the result is the default. *)
Theorem detect_step_between (S : gset Z) (default : Z) :
  (∀ a b, a ∈ S → b ∈ S → a ≠ b →
     0 < Utils.detect_step S default ≤ Z.abs (b - a))
  ∧ ((∀ a b, a ∈ S → b ∈ S → a = b) → Utils.detect_step S default = default).
Proof.
  split.
  - assert (∀ a b, a ∈ S → b ∈ S → a < b →
              0 < Utils.detect_step S default ≤ b - a) as Hlt.
    { intros a b Ha Hb Hab.
      destruct (adjacent_above S a b Ha Hb Hab) as (m & Hadj & Hm).
      pose proof (detect_step_bound S default a m Hadj). lia. }
    intros a b Ha Hb Hab.
    destruct (Z.lt_total a b) as [Hlt'|[->|Hgt]]; [|done|].
    + pose proof (Hlt a b Ha Hb Hlt'). lia.
    + pose proof (Hlt b a Hb Ha Hgt). lia.
  - intros Hone.
    destruct (detect_step_cases S default)
      as [(a & b & (Ha & Hb & Hab & _) & _)|[_ ->]]; [|done].
    specialize (Hone a b Ha Hb). lia.
Qed.

(** X7. On offsets that are evenly spaced, [0, s, 2s, ..., ks] with at
    least two of them, [detect_step] returns the spacing [s]. *)
Theorem detect_step_even_spacing (s : Z) (k : nat) (default : Z) :
  0 < s → (0 < k)%nat →
  Utils.detect_step
    (list_to_set ((λ i : nat, s * Z.of_nat i) <$> seq 0 (S k))) default = s.
Proof.
  intros Hs Hk.
  set (offsets := list_to_set _ : gset Z).
  assert (∀ x, x ∈ offsets ↔ ∃ i : nat, x = s * Z.of_nat i ∧ (i ≤ k)%nat) as Hin.
  { intros x. unfold offsets. rewrite elem_of_list_to_set, list_elem_of_fmap.
    setoid_rewrite elem_of_seq.
    split; intros (i & ? & ?); exists i; split; [done|lia|done|lia]. }
  assert (Utils.adjacent offsets 0 s) as Hadj.
  { repeat split.
    - apply Hin. exists 0%nat. split; lia.
    - apply Hin. exists 1%nat. split; lia.
    - done.
    - intros x (i & -> & _)%Hin [Hlo Hhi].
      assert (Z.of_nat i < 1) by nia. assert (Z.of_nat i = 0) as Hi by lia.
      rewrite Hi in Hlo. lia. }
  destruct (detect_step_cases offsets default)
    as [(a & b & (Ha & Hb & Hab & _) & -> & Hleast)|[Hnone _]].
  - specialize (Hleast 0 s Hadj).
    apply Hin in Ha as (i & -> & _). apply Hin in Hb as (j & -> & _).
    assert (Z.of_nat i < Z.of_nat j) by nia. nia.
  - by destruct (Hnone 0 s).
Qed.

(** ** The callbacks, page by page *)

Section callbacks.
Variable first_value : string → string → option string.
Implicit Types (self : Spider.spider) (req r : Spider.request)
  (resp : Spider.response) (outs : list Spider.output)
  (topics : list Spider.TopicSummaryItem).

Lemma next_offset_Some (S : gset Z) (c m : Z) :
  Utils.next_offset S c = Some m →
  m ∈ S ∧ c < m ∧ ∀ x, x ∈ S → c < x → m ≤ x.
Proof.
  unfold Utils.next_offset. intros [Hm Hleast]%py_min_Some.
  apply list_elem_of_filter in Hm as [Hcm Hm%elem_of_elements].
  split_and!; [done..|].
  intros x Hx Hcx. apply Hleast, list_elem_of_filter.
  split; [done|by apply elem_of_elements].
Qed.

Lemma next_offset_None (S : gset Z) (c : Z) :
  Utils.next_offset S c = None → ∀ x, x ∈ S → x ≤ c.
Proof.
  unfold Utils.next_offset. intros Hnone%py_min_None x Hx.
  destruct (decide (c < x)) as [Hcx|]; [|lia].
  assert (x ∈ filter (λ value, c < value) (elements S)) as Hin
    by (apply list_elem_of_filter; split; [done|by apply elem_of_elements]).
  rewrite Hnone in Hin. by apply elem_of_nil in Hin.
Qed.

Lemma update_extra_no_extra (ex : Spider.extra) :
  Spider.update_extra Spider.no_extra ex = ex.
Proof.
  destruct ex as [o1 o2 o3 o4 o5 o6 o7]. unfold Spider.update_extra. simpl.
  by destruct o1, o2, o3, o4, o5, o6, o7.
Qed.

Lemma build_meta_keys self ex new_context :
  Spider.keys (Spider._build_meta self ex new_context).2 = ex.
Proof. unfold Spider._build_meta. simpl. apply update_extra_no_extra. Qed.

Lemma build_meta_context self ex new_context :
  Spider.playwright_context (Spider._build_meta self ex new_context).2
  = if new_context then Some (Spider.uuid_draws self) else None.
Proof. done. Qed.

(** What a callback does with a challenged response. *)
Lemma retry_cases self resp :
  let k := default 0 (Spider.cf_retry (Spider.resp_meta resp)) in
  (Spider._retry_with_new_context self resp = (self, None)
   ∧ (Spider.self_cf_mode self = Spider.Manual ∨ 3 ≤ k))
  ∨ (∃ m,
       Spider._retry_with_new_context self resp
       = (Spider.with_uuid_draws self (S (Spider.uuid_draws self)),
          Some (Spider.Request (Spider.req_url (Spider.resp_request resp))
                  (Spider.req_callback (Spider.resp_request resp)) m true))
       ∧ Spider.self_cf_mode self = Spider.Auto ∧ k < 3
       ∧ Spider.playwright_context m = Some (Spider.uuid_draws self)
       ∧ Spider.keys m
         = Spider.Extra (Spider.board_offset (Spider.resp_meta resp)) None
             (Spider.topic_offset (Spider.resp_meta resp))
             (Spider.board_id (Spider.resp_meta resp))
             (Spider.topic_id (Spider.resp_meta resp))
             None (Some (k + 1))).
Proof.
  intros k. subst k. unfold Spider._retry_with_new_context.
  destruct (Spider.self_cf_mode self) eqn:Hmode; [|left; by split; [|left]].
  case_bool_decide as Hk.
  { left. unfold Spider.cf_max_retries in Hk. split; [done|right; lia]. }
  right. unfold Spider.cf_max_retries in Hk.
  eexists. split; [reflexivity|]. split_and!; [done|lia|done|].
  apply update_extra_no_extra.
Qed.

(** [board_topics_loop] changes nothing of the spider but the dedup
    set. *)
Lemma board_topics_loop_state topics : ∀ self,
  (Spider.board_topics_loop self topics).1
  = Spider.with_topic_seen self
      (Spider.topic_seen (Spider.board_topics_loop self topics).1).
Proof.
  induction topics as [|topic topics IH]; intros self.
  { by destruct self. }
  cbn [Spider.board_topics_loop].
  case_bool_decide; [apply IH|].
  destruct (_ && _); [by destruct self|].
  set (self1 := Spider.with_topic_seen self _).
  specialize (IH self1).
  destruct (Spider.board_topics_loop self1 topics) as [self' outs].
  simpl in *. rewrite IH. by destruct self.
Qed.

(** What [board_topics_loop] yields: summaries of listed topics and, when
    posts are fetched, the requests of [_schedule_topic] for them. *)
Lemma board_topics_loop_outputs topics : ∀ self o,
  o ∈ (Spider.board_topics_loop self topics).2 →
  ∃ t, t ∈ topics
       ∧ (o = Spider.YieldTopicSummary t
          ∨ (Spider.fetch_posts self = true
             ∧ o ∈ Spider._schedule_topic self (Spider.ts_topic_id t)
                    (Spider.ts_topic_url t) 0)).
Proof.
  induction topics as [|topic topics IH]; intros self o.
  { intros Hin. by apply elem_of_nil in Hin. }
  cbn [Spider.board_topics_loop].
  case_bool_decide.
  { intros (t & Ht & Ho)%IH. exists t. split; [by right|done]. }
  destruct (_ && _).
  { intros Hin. by apply elem_of_nil in Hin. }
  set (self1 := Spider.with_topic_seen self _).
  specialize (IH self1 o).
  destruct (Spider.board_topics_loop self1 topics) as [self' outs].
  simpl in *. intros [->|[Hsched|Hrest]%elem_of_app]%elem_of_cons.
  - exists topic. split; [by left|by left].
  - exists topic. split; [by left|]. right.
    destruct (Spider.fetch_posts self) eqn:Hfetch; [done|].
    by apply elem_of_nil in Hsched.
  - destruct (IH Hrest) as (t & Ht & Ho). exists t. split; [by right|done].
Qed.

(** The way through [parse_board] of a response that is not challenged. *)
Lemma parse_board_passed self resp :
  Spider.challenged resp = false →
  let offset := default 0 (Spider.board_offset (Spider.resp_meta resp)) in
  let self1 :=
    if Spider.board_metadata_emitted self then self
    else Spider.with_board_metadata_emitted self true in
  let info :=
    if Spider.board_metadata_emitted self then []
    else [Spider.YieldBoardInfo
            (Spider._build_board_info self (Spider.soup resp) (Spider.resp_url resp))] in
  let loop :=
    Spider.board_topics_loop self1
      (Spider._extract_topics first_value self1 (Spider.soup resp) offset
         (Spider.resp_url resp)) in
  let self3 :=
    Spider.with_board_pages_processed loop.1
      (Spider.board_pages_processed loop.1 + 1) in
  let offsets :=
    Utils.collect_offsets first_value (Spider.pagelinks (Spider.soup resp))
      "board" (Spider.self_board_id self) in
  let tail :=
    if Spider.limit_set (Spider.max_board_pages self)
       && bool_decide (Spider.board_pages_processed self + 1
                       >= default 0 (Spider.max_board_pages self))
    then []
    else match Utils.next_offset offsets offset with
         | None => []
         | Some next_off =>
             [Spider.YieldRequest
                (Spider.Request
                   (Spider.BoardUrl (Spider.self_board_id self) next_off)
                   Spider.ParseBoard
                   (Spider._build_meta self3
                      (Spider.Extra (Some next_off)
                         (Some (Utils.detect_step offsets 25))
                         None None None None (Some 0)) false).2
                   false)]
         end in
  Spider.parse_board first_value self resp = (self3, info ++ loop.2 ++ tail).
Proof.
  intros Hch. unfold Spider.parse_board. rewrite Hch.
  cbv zeta.
  set (offset := default 0 _).
  assert ((if Spider.board_metadata_emitted self
           then (self, [])
           else (Spider.with_board_metadata_emitted self true,
                 [Spider.YieldBoardInfo
                    (Spider._build_board_info self (Spider.soup resp)
                       (Spider.resp_url resp))]))
          = (if Spider.board_metadata_emitted self then self
             else Spider.with_board_metadata_emitted self true,
             if Spider.board_metadata_emitted self then []
             else [Spider.YieldBoardInfo
                     (Spider._build_board_info self (Spider.soup resp)
                        (Spider.resp_url resp))])) as ->
    by (by destruct (Spider.board_metadata_emitted self)).
  set (self1 := if Spider.board_metadata_emitted self then self else _).
  set (info := if Spider.board_metadata_emitted self then [] else _).
  pose proof (board_topics_loop_state
                (Spider._extract_topics first_value self1 (Spider.soup resp)
                   offset (Spider.resp_url resp)) self1) as Hstate.
  destruct (Spider.board_topics_loop self1 _) as [self2 emitted].
  simpl in Hstate. cbn [fst snd].
  assert (Spider.self_board_id self2 = Spider.self_board_id self
          ∧ Spider.max_board_pages self2 = Spider.max_board_pages self
          ∧ Spider.board_pages_processed self2 = Spider.board_pages_processed self)
    as (Hid & Hmax & Hproc).
  { rewrite Hstate. subst self1.
    by destruct (Spider.board_metadata_emitted self), self. }
  cbn [Spider.with_board_pages_processed Spider.max_board_pages
       Spider.board_pages_processed Spider.self_board_id].
  rewrite Hid, Hmax, Hproc.
  destruct (_ && _); [by rewrite app_nil_r|].
  destruct (Utils.next_offset _ _); [done|by rewrite app_nil_r].
Qed.

(** The way through [parse_topic] of a response that is not challenged. *)
Lemma parse_topic_passed self resp topic board :
  Spider.challenged resp = false →
  Spider.topic_id (Spider.resp_meta resp) = Some topic →
  Spider.board_id (Spider.resp_meta resp) = Some board →
  let offset := default 0 (Spider.topic_offset (Spider.resp_meta resp)) in
  let seen := default 0 (Spider.pages_seen (Spider.resp_meta resp)) + 1 in
  let offsets :=
    Utils.collect_offsets first_value (Spider.pagelinks (Spider.soup resp))
      "topic" topic in
  let tail :=
    if Spider.limit_set (Spider.topic_max_pages self)
       && bool_decide (seen >= default 0 (Spider.topic_max_pages self))
    then []
    else match Utils.next_offset offsets offset with
         | None => []
         | Some next_off =>
             [Spider.YieldRequest
                (Spider.Request (Spider.TopicUrl topic next_off) Spider.ParseTopic
                   (Spider._build_meta self
                      (Spider.Extra None None (Some next_off) (Some board)
                         (Some topic) (Some seen) (Some 0)) false).2
                   false)]
         end in
  Spider.parse_topic first_value self resp
  = Some (self,
          (Spider.YieldPost
             <$> Spider._extract_posts (Spider.soup resp) board topic offset
                   (Spider.resp_url resp)) ++ tail).
Proof.
  intros Hch Htopic Hboard. unfold Spider.parse_topic.
  rewrite Hch, Htopic, Hboard. cbv zeta.
  destruct (_ && _); [by rewrite app_nil_r|].
  destruct (Utils.next_offset _ _); [done|by rewrite app_nil_r].
Qed.

Lemma requests_of_app outs1 outs2 :
  Spider.requests_of (outs1 ++ outs2)
  = Spider.requests_of outs1 ++ Spider.requests_of outs2.
Proof. apply omap_app. Qed.

Lemma requests_of_posts (posts : list Spider.PostItem) :
  Spider.requests_of (Spider.YieldPost <$> posts) = [].
Proof. by induction posts. Qed.

Lemma requests_of_elem outs r :
  r ∈ Spider.requests_of outs ↔ Spider.YieldRequest r ∈ outs.
Proof.
  unfold Spider.requests_of. rewrite list_elem_of_omap. split.
  - intros (o & Ho & Hr). destruct o; try done. by injection Hr as ->.
  - intros Hin. by exists (Spider.YieldRequest r).
Qed.
End callbacks.

(** X8. A challenged response, whichever callback it goes to, yields no
    item, only the retry request if there is one, and leaves the crawl
    state alone: the dedup set, the count of board pages and the flag of
    the board description are as before, so the page is not counted. *)
Theorem challenged_response_not_counted
    (first_value : string → string → option string)
    (self : Spider.spider) (resp : Spider.response) :
  Spider.challenged resp = true →
  ∃ self' outs,
    Spider.handle first_value self resp = Some (self', outs)
    ∧ Forall (λ o, Spider.is_item o = false) outs
    ∧ (length outs ≤ 1)%nat
    ∧ Spider.topic_seen self' = Spider.topic_seen self
    ∧ Spider.board_pages_processed self' = Spider.board_pages_processed self
    ∧ Spider.board_metadata_emitted self' = Spider.board_metadata_emitted self.
Proof.
  intros Hch. rewrite (handle_challenged first_value self resp Hch).
  eexists _, _. split; [reflexivity|].
  destruct (retry_cases self resp) as [[-> _]|(m & -> & _)]; simpl.
  - split_and!; [constructor|simpl; lia|done..].
  - split_and!; [by apply Forall_singleton|simpl; lia|done..].
Qed.

(** X9. The requests that a callback yields come in two kinds.  After a
    challenge the only request is the retry: not filtered as a duplicate,
    in a new browsing context, with the retry counter one higher and at
    most 3.  Otherwise every request is for a new page: filtered as usual,
    in the default context, with the retry counter back at 0. *)
Theorem requests_retry_or_fresh
    (first_value : string → string → option string)
    (self : Spider.spider) (resp : Spider.response) :
  match Spider.handle first_value self resp with
  | Some (_, outs) =>
      Forall (λ r,
                if Spider.challenged resp
                then Spider.dont_filter r = true
                     ∧ Spider.playwright_context (Spider.req_meta r)
                       = Some (Spider.uuid_draws self)
                     ∧ Spider.cf_retry (Spider.keys (Spider.req_meta r))
                       = Some (default 0 (Spider.cf_retry (Spider.resp_meta resp)) + 1)
                     ∧ default 0 (Spider.cf_retry (Spider.resp_meta resp)) + 1 ≤ 3
                else Spider.dont_filter r = false
                     ∧ Spider.playwright_context (Spider.req_meta r) = None
                     ∧ Spider.cf_retry (Spider.keys (Spider.req_meta r)) = Some 0)
        (Spider.requests_of outs)
  | None => True
  end.
Proof.
  destruct (Spider.challenged resp) eqn:Hch.
  { rewrite (handle_challenged first_value self resp Hch).
    destruct (retry_cases self resp) as [[-> _]|(m & -> & _ & Hk & Hctx & Hkeys)];
      simpl; [constructor|].
    apply Forall_singleton. simpl. rewrite Hctx, Hkeys. simpl.
    split_and!; [done..|lia]. }
  unfold Spider.handle.
  destruct (Spider.req_callback (Spider.resp_request resp)).
  - rewrite (parse_board_passed first_value self resp Hch). cbv zeta.
    rewrite !requests_of_app. repeat apply Forall_app_2.
    + by destruct (Spider.board_metadata_emitted self).
    + apply Forall_forall. intros r Hr%requests_of_elem.
      apply board_topics_loop_outputs in Hr as (t & _ & [?|[_ Hr]]); [done|].
      apply list_elem_of_singleton in Hr. injection Hr as ->. simpl.
      rewrite ?update_extra_no_extra. done.
    + destruct (_ && _); [constructor|].
      destruct (Utils.next_offset _ _); [|constructor].
      apply Forall_singleton. simpl. rewrite ?update_extra_no_extra. done.
  - destruct (Spider.parse_topic first_value self resp) as [[self' outs]|] eqn:Hparse;
      [|done].
    destruct (Spider.topic_id (Spider.resp_meta resp)) as [topic|] eqn:Htopic;
      [|by unfold Spider.parse_topic in Hparse; rewrite Hch, Htopic in Hparse].
    destruct (Spider.board_id (Spider.resp_meta resp)) as [board|] eqn:Hboard;
      [|by unfold Spider.parse_topic in Hparse; rewrite Hch, Htopic, Hboard in Hparse].
    rewrite (parse_topic_passed first_value self resp topic board Hch Htopic Hboard)
      in Hparse.
    cbv zeta in Hparse. injection Hparse as <- <-.
    rewrite requests_of_app, requests_of_posts. simpl.
    destruct (_ && _); [constructor|].
    destruct (Utils.next_offset _ _); [|constructor].
    apply Forall_singleton. simpl. rewrite ?update_extra_no_extra. done.
Qed.



(** X12. From a topic page that is not challenged, [parse_topic] yields
    the posts of the page, in page order, and then at most one request:
    the page of the same topic at the least offset of the pagination
    anchors above the offset of this page, carrying the board and topic
    ids and the count of pages seen, one more than before. *)
Theorem topic_pagination_advances
    (first_value : string → string → option string)
    (self : Spider.spider) (resp : Spider.response) (topic board : string) :
  Spider.challenged resp = false →
  Spider.topic_id (Spider.resp_meta resp) = Some topic →
  Spider.board_id (Spider.resp_meta resp) = Some board →
  let offset := default 0 (Spider.topic_offset (Spider.resp_meta resp)) in
  let seen := default 0 (Spider.pages_seen (Spider.resp_meta resp)) in
  let offsets :=
    Utils.collect_offsets first_value (Spider.pagelinks (Spider.soup resp))
      "topic" topic in
  ∃ pages,
    Spider.parse_topic first_value self resp
    = Some (self,
            (Spider.YieldPost
               <$> Spider._extract_posts (Spider.soup resp) board topic offset
                     (Spider.resp_url resp))
            ++ (Spider.YieldRequest <$> pages))
    ∧ (length pages ≤ 1)%nat
    ∧ Forall (λ r,
                ∃ n,
                  Spider.req_url r = Spider.TopicUrl topic n
                  ∧ Spider.req_callback r = Spider.ParseTopic
                  ∧ Spider.keys (Spider.req_meta r)
                    = Spider.Extra None None (Some n) (Some board) (Some topic)
                        (Some (seen + 1)) (Some 0)
                  ∧ n ∈ offsets ∧ offset < n
                  ∧ ∀ x, x ∈ offsets → offset < x → n ≤ x)
        pages
    ∧ (pages = [] ↔
       (Spider.limit_set (Spider.topic_max_pages self) = true
        ∧ default 0 (Spider.topic_max_pages self) ≤ seen + 1)
       ∨ ∀ x, x ∈ offsets → x ≤ offset).
Proof.
  intros Hch Htopic Hboard offset seen offsets.
  rewrite (parse_topic_passed first_value self resp topic board Hch Htopic Hboard).
  cbv zeta. fold offset. fold seen. fold offsets.
  destruct (Spider.limit_set (Spider.topic_max_pages self)) eqn:Hset;
    cbn [andb].
  - case_bool_decide as Hlimit.
    + exists []. split_and!; [done|simpl; lia|constructor|]. split; [|done].
      intros _. left. split; [done|lia].
    + destruct (Utils.next_offset offsets offset) as [n|] eqn:Hnext.
      * apply next_offset_Some in Hnext as (Hn & Hlt & Hleast).
        eexists [_]. split_and!; [done|simpl; lia| |].
        -- apply Forall_singleton. exists n. simpl.
           rewrite ?update_extra_no_extra. by split_and!.
        -- split; [done|]. intros [[_ ?]|Hnone]; [lia|].
           specialize (Hnone n Hn). lia.
      * exists []. split_and!; [done|simpl; lia|constructor|]. split; [|done].
        intros _. right. by apply next_offset_None.
  - destruct (Utils.next_offset offsets offset) as [n|] eqn:Hnext.
    + apply next_offset_Some in Hnext as (Hn & Hlt & Hleast).
      eexists [_]. split_and!; [done|simpl; lia| |].
      * apply Forall_singleton. exists n. simpl.
        rewrite ?update_extra_no_extra. by split_and!.
      * split; [done|]. intros [[? _]|Hnone]; [done|].
        specialize (Hnone n Hn). lia.
    + exists []. split_and!; [done|simpl; lia|constructor|]. split; [|done].
      intros _. right. by apply next_offset_None.
Qed.

(** ** The callbacks over a run *)

Section runs.
Variable first_value : string → string → option string.
Implicit Types (self : Spider.spider) (req r : Spider.request)
  (resp : Spider.response) (resps : list Spider.response)
  (outs : list Spider.output) (topics : list Spider.TopicSummaryItem).

Lemma parse_board_challenged self resp :
  Spider.challenged resp = true →
  Spider.parse_board first_value self resp
  = ((Spider._retry_with_new_context self resp).1,
     match (Spider._retry_with_new_context self resp).2 with
     | Some r => [Spider.YieldRequest r]
     | None => []
     end).
Proof.
  intros Hch. unfold Spider.parse_board. rewrite Hch.
  by destruct (Spider._retry_with_new_context self resp).
Qed.

(** What [parse_board] leaves as it is, and what it counts. *)
Lemma parse_board_state self resp :
  let self' := (Spider.parse_board first_value self resp).1 in
  Spider.fetch_posts self' = Spider.fetch_posts self
  ∧ Spider.max_board_pages self' = Spider.max_board_pages self
  ∧ Spider.max_topics self' = Spider.max_topics self
  ∧ Spider.self_board_id self' = Spider.self_board_id self
  ∧ Spider.board_pages_processed self'
    = Spider.board_pages_processed self
      + (if Spider.challenged resp then 0 else 1)
  ∧ Spider.board_metadata_emitted self'
    = (Spider.board_metadata_emitted self || negb (Spider.challenged resp)).
Proof.
  destruct (Spider.challenged resp) eqn:Hch.
  - rewrite (parse_board_challenged self resp Hch). cbn [fst].
    destruct (retry_cases self resp) as [[-> _]|(m & -> & _)]; simpl;
      rewrite ?orb_false_r; split_and!; try done; lia.
  - rewrite (parse_board_passed first_value self resp Hch). cbv zeta. cbn [fst].
    set (self1 := if Spider.board_metadata_emitted self then self else _).
    rewrite (board_topics_loop_state _ self1).
    set (seen := Spider.topic_seen _). clearbody seen. subst self1.
    destruct (Spider.board_metadata_emitted self) eqn:Hflag, self;
      simpl in *; by subst.
Qed.

Lemma board_infos_app outs1 outs2 :
  Spider.board_infos (outs1 ++ outs2)
  = Spider.board_infos outs1 ++ Spider.board_infos outs2.
Proof. apply omap_app. Qed.


Lemma board_topics_loop_no_info topics : ∀ self,
  Spider.board_infos (Spider.board_topics_loop self topics).2 = [].
Proof.
  induction topics as [|topic topics IH]; intros self; [done|].
  cbn [Spider.board_topics_loop].
  case_bool_decide; [apply IH|].
  destruct (_ && _); [done|].
  set (self1 := Spider.with_topic_seen self _).
  specialize (IH self1).
  destruct (Spider.board_topics_loop self1 topics) as [self' outs].
  simpl in *. unfold Spider.board_infos in *. simpl.
  by destruct (Spider.fetch_posts self).
Qed.



(** Summaries and the dedup set along [board_topics_loop]. *)
Lemma board_topics_loop_count topics : ∀ self,
  size (Spider.topic_seen (Spider.board_topics_loop self topics).1)
  = (size (Spider.topic_seen self)
     + length (Spider.summarized_topics (Spider.board_topics_loop self topics).2))%nat
  ∧ ∀ m, Spider.max_topics self = Some m → m ≠ 0 →
         (length (Spider.summarized_topics
                    (Spider.board_topics_loop self topics).2)
          ≤ Z.to_nat (m - Z.of_nat (size (Spider.topic_seen self))))%nat.
Proof.
  induction topics as [|topic topics IH]; intros self.
  { simpl. split; [lia|]. intros; lia. }
  cbn [Spider.board_topics_loop].
  case_bool_decide as Hseen; [apply IH|].
  destruct (Spider.limit_set (Spider.max_topics self)) eqn:Hset; cbn [andb].
  - case_bool_decide as Hlimit.
    { simpl. split; [lia|]. intros; lia. }
    set (self1 := Spider.with_topic_seen self _).
    destruct (IH self1) as [IHsize IHmax].
    assert (Spider.max_topics self1 = Spider.max_topics self) as Hmax1 by done.
    assert (size (Spider.topic_seen self1) = S (size (Spider.topic_seen self)))
      as Hsize1.
    { subst self1. simpl. rewrite size_union by set_solver.
      rewrite size_singleton. lia. }
    destruct (Spider.board_topics_loop self1 topics) as [self' outs].
    cbn [fst snd] in *.
    assert (Spider.summarized_topics
              (Spider.YieldTopicSummary topic
               :: (if Spider.fetch_posts self1
                   then Spider._schedule_topic self1 (Spider.ts_topic_id topic)
                          (Spider.ts_topic_url topic) 0
                   else []) ++ outs)
            = Spider.ts_topic_id topic :: Spider.summarized_topics outs) as ->
      by (unfold Spider.summarized_topics; subst self1; simpl;
          by destruct (Spider.fetch_posts self)).
    cbn [length]. split; [lia|].
    intros m Hmax Hm. rewrite Hmax in Hlimit. cbn [default from_option] in Hlimit.
    unfold id in Hlimit.
    rewrite Hmax1 in IHmax. specialize (IHmax m Hmax Hm). lia.
  - set (self1 := Spider.with_topic_seen self _).
    destruct (IH self1) as [IHsize IHmax].
    assert (size (Spider.topic_seen self1) = S (size (Spider.topic_seen self)))
      as Hsize1.
    { subst self1. simpl. rewrite size_union by set_solver.
      rewrite size_singleton. lia. }
    destruct (Spider.board_topics_loop self1 topics) as [self' outs].
    cbn [fst snd] in *.
    assert (Spider.summarized_topics
              (Spider.YieldTopicSummary topic
               :: (if Spider.fetch_posts self1
                   then Spider._schedule_topic self1 (Spider.ts_topic_id topic)
                          (Spider.ts_topic_url topic) 0
                   else []) ++ outs)
            = Spider.ts_topic_id topic :: Spider.summarized_topics outs) as ->
      by (unfold Spider.summarized_topics; subst self1; simpl;
          by destruct (Spider.fetch_posts self)).
    cbn [length]. split; [lia|].
    intros m Hmax Hm. rewrite Hmax in Hset. simpl in Hset.
    apply negb_false_iff, Z.eqb_eq in Hset. done.
Qed.

Lemma parse_board_count self resp :
  size (Spider.topic_seen (Spider.parse_board first_value self resp).1)
  = (size (Spider.topic_seen self)
     + length (Spider.summarized_topics
                 (Spider.parse_board first_value self resp).2))%nat
  ∧ ∀ m, Spider.max_topics self = Some m → m ≠ 0 →
         (length (Spider.summarized_topics
                    (Spider.parse_board first_value self resp).2)
          ≤ Z.to_nat (m - Z.of_nat (size (Spider.topic_seen self))))%nat.
Proof.
  destruct (Spider.challenged resp) eqn:Hch.
  - rewrite (parse_board_challenged self resp Hch). cbn [fst snd].
    destruct (retry_cases self resp) as [[-> _]|(r & -> & _)]; simpl.
    + split; [lia|]. intros; lia.
    + split; [lia|]. intros; lia.
  - rewrite (parse_board_passed first_value self resp Hch). cbv zeta.
    cbn [fst snd].
    set (self1 := if Spider.board_metadata_emitted self then self else _).
    assert (Spider.topic_seen self1 = Spider.topic_seen self
            ∧ Spider.max_topics self1 = Spider.max_topics self) as [Hseen Hmax1].
    { subst self1. by destruct (Spider.board_metadata_emitted self). }
    destruct (board_topics_loop_count
                (Spider._extract_topics first_value self1 (Spider.soup resp)
                   (default 0 (Spider.board_offset (Spider.resp_meta resp)))
                   (Spider.resp_url resp)) self1) as [Hsize Hbound].
    rewrite Hseen, Hmax1 in *.
    rewrite !summarized_app.
    assert (Spider.summarized_topics
              (if Spider.board_metadata_emitted self then []
               else [Spider.YieldBoardInfo
                       (Spider._build_board_info self (Spider.soup resp)
                          (Spider.resp_url resp))]) = []) as ->
      by (by destruct (Spider.board_metadata_emitted self)).
    match goal with
    | |- context [Spider.summarized_topics (if ?c then [] else ?t)] =>
        assert (Spider.summarized_topics (if c then [] else t) = []) as ->
          by (destruct c; [done|]; by destruct (Utils.next_offset _ _))
    end.
    cbn [app]. rewrite app_nil_r. cbn [Spider.topic_seen Spider.with_board_pages_processed].
    split; [exact Hsize|exact Hbound].
Qed.

Lemma run_boards_count resps : ∀ self,
  size (Spider.topic_seen (Spider.run_boards first_value self resps).1)
  = (size (Spider.topic_seen self)
     + length (Spider.summarized_topics
                 (Spider.run_boards first_value self resps).2))%nat
  ∧ ∀ m, Spider.max_topics self = Some m → m ≠ 0 →
         (length (Spider.summarized_topics
                    (Spider.run_boards first_value self resps).2)
          ≤ Z.to_nat (m - Z.of_nat (size (Spider.topic_seen self))))%nat.
Proof.
  induction resps as [|resp resps IH]; intros self.
  { simpl. split; [lia|]. intros; lia. }
  cbn [Spider.run_boards].
  pose proof (parse_board_state self resp) as (_ & _ & Hmax1 & _).
  destruct (parse_board_count self resp) as [Hsize1 Hbound1].
  destruct (Spider.parse_board first_value self resp) as [self1 outs].
  cbn [fst snd] in *.
  destruct (IH self1) as [Hsize2 Hbound2].
  destruct (Spider.run_boards first_value self1 resps) as [self2 outs'].
  cbn [fst snd] in *.
  rewrite summarized_app, length_app. split; [lia|].
  intros m Hmax Hm. rewrite Hmax in Hmax1.
  specialize (Hbound1 m Hmax Hm). specialize (Hbound2 m Hmax1 Hm). lia.
Qed.
End runs.


(** X14. Every summary yielded adds one topic to the dedup set, and with
    a limit [m] on the topics, a run of board responses yields at most
    [m - seen] summaries, for [seen] topics in the dedup set at the start:
    no more than [m] topics are collected. *)
Theorem topics_bounded
    (first_value : string → string → option string)
    (self : Spider.spider) (resps : list Spider.response) (m : Z) :
  Spider.max_topics self = Some m → m ≠ 0 →
  let result := Spider.run_boards first_value self resps in
  size (Spider.topic_seen result.1)
  = (size (Spider.topic_seen self)
     + length (Spider.summarized_topics result.2))%nat
  ∧ (length (Spider.summarized_topics result.2)
     ≤ Z.to_nat (m - Z.of_nat (size (Spider.topic_seen self))))%nat.
Proof.
  intros Hmax Hm result. subst result.
  destruct (run_boards_count first_value resps self) as [Hsize Hbound].
  split; [done|by apply Hbound].
Qed.

Section runs_more.
Variable first_value : string → string → option string.
Implicit Types (self : Spider.spider) (req r : Spider.request)
  (resp : Spider.response) (resps : list Spider.response)
  (outs : list Spider.output) (topics : list Spider.TopicSummaryItem).

Lemma build_board_info_id self self' pg url :
  Spider.self_board_id self' = Spider.self_board_id self →
  Spider._build_board_info self' pg url = Spider._build_board_info self pg url.
Proof. unfold Spider._build_board_info. by intros ->. Qed.

Lemma parse_board_infos self resp :
  Spider.board_infos (Spider.parse_board first_value self resp).2
  = if Spider.challenged resp || Spider.board_metadata_emitted self then []
    else [Spider._build_board_info self (Spider.soup resp) (Spider.resp_url resp)].
Proof.
  destruct (Spider.challenged resp) eqn:Hch.
  - rewrite (parse_board_challenged first_value self resp Hch). cbn [snd orb].
    by destruct (retry_cases self resp) as [[-> _]|(r & -> & _)].
  - rewrite (parse_board_passed first_value self resp Hch). cbv zeta.
    cbn [snd orb]. rewrite !board_infos_app, board_topics_loop_no_info.
    match goal with
    | |- context [Spider.board_infos (if ?c && ?d then [] else ?t)] =>
        assert (Spider.board_infos (if c && d then [] else t) = []) as ->
          by (destruct (c && d); [done|]; by destruct (Utils.next_offset _ _))
    end.
    rewrite !app_nil_r. by destruct (Spider.board_metadata_emitted self).
Qed.

Lemma run_boards_infos resps : ∀ self,
  Spider.board_infos (Spider.run_boards first_value self resps).2
  = if Spider.board_metadata_emitted self then []
    else match head (filter (λ resp, Spider.challenged resp = false) resps) with
         | Some resp =>
             [Spider._build_board_info self (Spider.soup resp) (Spider.resp_url resp)]
         | None => []
         end.
Proof.
  induction resps as [|resp resps IH]; intros self.
  { simpl. by destruct (Spider.board_metadata_emitted self). }
  cbn [Spider.run_boards].
  pose proof (parse_board_state first_value self resp) as (_ & _ & _ & Hid & _ & Hflag).
  pose proof (parse_board_infos self resp) as Hinfo.
  destruct (Spider.parse_board first_value self resp) as [self1 outs].
  cbn [fst snd] in *. specialize (IH self1).
  destruct (Spider.run_boards first_value self1 resps) as [self2 outs'].
  cbn [fst snd] in *.
  rewrite board_infos_app, Hinfo, IH, Hflag.
  destruct (Spider.challenged resp) eqn:Hch; cbn [orb negb].
  - rewrite filter_cons_False by (by rewrite Hch).
    rewrite orb_false_r.
    destruct (Spider.board_metadata_emitted self); [done|].
    destruct (head _); [|done]. cbn [app]. f_equal. by apply build_board_info_id.
  - rewrite filter_cons_True by done. rewrite orb_true_r. cbn [head].
    destruct (Spider.board_metadata_emitted self); [done|]. by rewrite app_nil_r.
Qed.




Lemma passed_not_challenged (a : Z * string * Spider.page) req :
  Spider.passed a →
  Spider.challenged (Spider.Response a.1.1 a.1.2 req a.2) = false.
Proof.
  intros [H1 H2]. unfold Spider.challenged. simpl.
  apply orb_false_iff. split; by apply Z.eqb_neq.
Qed.

Lemma follow_cons self req st u pg (rest : list (Z * string * Spider.page)) :
  Spider.follow first_value self req ((st, u, pg) :: rest)
  = match Spider.handle first_value self (Spider.Response st u req pg) with
    | Some (self', outs) =>
        match Spider.requests_of outs with
        | [next] =>
            ((Spider.follow first_value self' next rest).1,
             outs ++ (Spider.follow first_value self' next rest).2)
        | _ => (self', outs)
        end
    | None => (self, [])
    end.
Proof.
  cbn [Spider.follow]. unfold Spider.requests_of.
  destruct (Spider.handle _ _ _) as [[self' outs]|]; [|done].
  destruct (omap _ outs) as [|next [|]]; try done.
  by destruct (Spider.follow first_value self' next rest).
Qed.

Lemma follow_topic_pages (answers : list (Z * string * Spider.page)) :
  ∀ self req m,
    Spider.topic_max_pages self = Some m → m ≠ 0 →
    Spider.req_callback req = Spider.ParseTopic →
    Forall Spider.passed answers →
    (length (Spider.requests_of (Spider.follow first_value self req answers).2)
     ≤ Z.to_nat
         (m - 1 - default 0%Z (Spider.pages_seen (Spider.keys (Spider.req_meta req)))))%nat.
Proof.
  induction answers as [|[[st u] pg] answers IH]; intros self req m Hmax Hm Hcb Hall.
  { simpl. lia. }
  apply Forall_cons in Hall as [Hpass Hall].
  apply (passed_not_challenged _ req) in Hpass. simpl in Hpass.
  rewrite follow_cons. unfold Spider.handle. cbn [Spider.resp_request]. rewrite Hcb.
  set (resp := Spider.Response st u req pg) in *.
  destruct (Spider.topic_id (Spider.resp_meta resp)) as [topic|] eqn:Htopic;
    [|by unfold Spider.parse_topic; rewrite Hpass, Htopic; simpl; lia].
  destruct (Spider.board_id (Spider.resp_meta resp)) as [board|] eqn:Hboard;
    [|by unfold Spider.parse_topic; rewrite Hpass, Htopic, Hboard; simpl; lia].
  rewrite (parse_topic_passed first_value self resp topic board Hpass Htopic Hboard).
  cbv zeta. rewrite requests_of_app, requests_of_posts. cbn [app].
  rewrite Hmax. cbn [Spider.limit_set default from_option]. unfold id.
  assert ((m =? 0) = false) as -> by (by apply Z.eqb_neq). cbn [negb andb].
  set (seen := from_option (λ x, x) 0 (Spider.pages_seen (Spider.resp_meta resp))).
  assert (seen = default 0 (Spider.pages_seen (Spider.keys (Spider.req_meta req))))
    as Hseen by done.
  fold seen in Hseen |- *.
  case_bool_decide as Hlimit.
  { cbn [Spider.requests_of omap list_omap snd].
    rewrite requests_of_app, requests_of_posts. simpl. lia. }
  destruct (Utils.next_offset _ _) as [n|].
  2: { cbn [Spider.requests_of omap list_omap snd].
       rewrite requests_of_app, requests_of_posts. simpl. lia. }
  match goal with
  | |- context [Spider.requests_of [Spider.YieldRequest ?r]] => set (next := r)
  end.
  change (Spider.requests_of [Spider.YieldRequest next]) with [next].
  cbn [snd].
  assert (Spider.req_callback next = Spider.ParseTopic) as Hcb' by done.
  assert (default 0 (Spider.pages_seen (Spider.keys (Spider.req_meta next)))
          = seen + 1) as Hseen'.
  { subst next. simpl. by rewrite ?update_extra_no_extra. }
  specialize (IH self next m Hmax Hm Hcb' Hall). rewrite Hseen' in IH.
  rewrite !requests_of_app, requests_of_posts.
  change (Spider.requests_of [Spider.YieldRequest next]) with [next].
  cbn [app length].
  match goal with
  | |- (_ ≤ Z.to_nat ?b)%nat => change b with (m - 1 - seen)
  end.
  lia.
Qed.
End runs_more.

(** X15. Over the board pages of a run the board description is yielded
    at most once: never when the flag is already set, and else once, built
    from the first response that is not challenged. *)
Theorem board_info_once
    (first_value : string → string → option string)
    (self : Spider.spider) (resps : list Spider.response) :
  Spider.board_infos (Spider.run_boards first_value self resps).2
  = if Spider.board_metadata_emitted self then []
    else match head (filter (λ resp, Spider.challenged resp = false) resps) with
         | Some resp =>
             [Spider._build_board_info self (Spider.soup resp) (Spider.resp_url resp)]
         | None => []
         end.
Proof. apply run_boards_infos. Qed.


(** X17. With a limit [m] on the pages of a topic, a chain of topic pages
    without a challenge, each the response to the request of the page
    before, yields at most [m - 1 - seen] requests, for [seen] the count
    carried by the first request: from the request of [_schedule_topic],
    no more than [m] pages of a topic are parsed. *)
Theorem topic_pages_bounded
    (first_value : string → string → option string)
    (self : Spider.spider) (req : Spider.request)
    (answers : list (Z * string * Spider.page)) (m : Z) :
  Spider.topic_max_pages self = Some m → m ≠ 0 →
  Spider.req_callback req = Spider.ParseTopic →
  Forall Spider.passed answers →
  (length (Spider.requests_of (Spider.follow first_value self req answers).2)
   ≤ Z.to_nat
       (m - 1 - default 0%Z (Spider.pages_seen (Spider.keys (Spider.req_meta req)))))%nat.
Proof. intros. by apply follow_topic_pages. Qed.

(** X18. The retry of a challenged page keeps the offsets and the board
    and topic ids of the request, but neither [board_step] nor
    [pages_seen]: when the retried topic page comes through, the request
    for the next page counts it as the first page seen. *)
Theorem retry_restarts_page_count
    (first_value : string → string → option string)
    (self : Spider.spider) (resp : Spider.response) (retry : Spider.request) :
  (Spider._retry_with_new_context self resp).2 = Some retry →
  Spider.keys (Spider.req_meta retry)
  = Spider.Extra (Spider.board_offset (Spider.resp_meta resp)) None
      (Spider.topic_offset (Spider.resp_meta resp))
      (Spider.board_id (Spider.resp_meta resp))
      (Spider.topic_id (Spider.resp_meta resp))
      None
      (Some (default 0 (Spider.cf_retry (Spider.resp_meta resp)) + 1))
  ∧ ∀ self' st u pg,
      Spider.challenged (Spider.Response st u retry pg) = false →
      match Spider.parse_topic first_value self' (Spider.Response st u retry pg) with
      | Some (_, outs) =>
          Forall (λ r, Spider.pages_seen (Spider.keys (Spider.req_meta r)) = Some 1)
            (Spider.requests_of outs)
      | None => True
      end.
Proof.
  intros Hretry.
  destruct (retry_cases self resp) as [[Hnone _]|(m & Hsome & _ & _ & _ & Hkeys)].
  { by rewrite Hnone in Hretry. }
  rewrite Hsome in Hretry. injection Hretry as <-. cbn [Spider.req_meta].
  split; [exact Hkeys|].
  intros self' st u pg Hch.
  set (resp' := Spider.Response st u _ pg) in *.
  destruct (Spider.topic_id (Spider.resp_meta resp')) as [topic|] eqn:Htopic;
    [|by unfold Spider.parse_topic; rewrite Hch, Htopic].
  destruct (Spider.board_id (Spider.resp_meta resp')) as [board|] eqn:Hboard;
    [|by unfold Spider.parse_topic; rewrite Hch, Htopic, Hboard].
  rewrite (parse_topic_passed first_value self' resp' topic board Hch Htopic Hboard).
  cbv zeta. rewrite requests_of_app, requests_of_posts. cbn [app].
  destruct (_ && _); [constructor|].
  destruct (Utils.next_offset _ _); [|constructor].
  apply Forall_singleton. simpl. rewrite ?update_extra_no_extra. simpl.
  unfold Spider.resp_meta. simpl. by rewrite Hkeys.
Qed.

Section collected.
Variable first_value : string → string → option string.
Implicit Types (self : Spider.spider) (resp : Spider.response)
  (resps : list Spider.response) (topics : list Spider.TopicSummaryItem).








End collected.


(** ** The session artifact, case by case *)

(** X19. What [_ensure_storage_state] leaves on the disk.  No file other
    than the session-state file is touched.  A file younger than the TTL
    is left as it is, whatever the mode.  Otherwise, in manual mode the
    state captured from the operator is stored even when it holds no
    cookie, and nothing is stored when the operator skips; in automatic
    mode a state is stored only when the bootstrap ran and returned
    cookies.  A stored file holds the serialized state and the time of the
    write. *)
Theorem storage_state_outcome
    (dumps : Spider.storage_state_dict → string) (default_output_dir : string)
    (self : Spider.spider) (fs : gmap string Spider.file) (now : Z)
    (operator auto_result : option Spider.storage_state_dict) :
  let result :=
    Spider._ensure_storage_state dumps default_output_dir self fs now
      operator auto_result in
  let path := result.1 in
  let final := Spider.fs_run now fs result.2 in
  let fresh :=
    match fs !! path with
    | Some f => bool_decide (now - Spider.mtime f < Spider.storage_state_ttl self)
    | None => false
    end in
  (∀ other, other ≠ path → final !! other = fs !! other)
  ∧ final !! path
    = if fresh then fs !! path
      else match Spider.self_cf_mode self with
           | Spider.Manual =>
               match operator with
               | Some st => Some (Spider.File (dumps st) now)
               | None => fs !! path
               end
           | Spider.Auto =>
               match Spider.self_bootstrap_mode self, auto_result with
               | Spider.BootstrapAuto, Some st =>
                   match Spider.cookies st with
                   | [] => fs !! path
                   | _ => Some (Spider.File (dumps st) now)
                   end
               | _, _ => fs !! path
               end
           end.
Proof.
  intros result path final fresh. subst final fresh path result.
  destruct (ensure_storage_state_steps dumps default_output_dir self fs now
              operator auto_result) as (_ & _ & _ & ->).
  unfold Spider._ensure_storage_state.
  set (path := _ +:+ "/playwright_state.json").
  destruct (match fs !! path with Some _ => _ | None => _ end) eqn:Hfresh;
    cbn [fst snd].
  { by split. }
  assert (∀ data (m : gmap string Spider.file),
            (∀ other, other ≠ path →
               <[path := Spider.File data now]> (<[path := Spider.File "" now]> m)
                 !! other = m !! other)
            ∧ <[path := Spider.File data now]> (<[path := Spider.File "" now]> m)
                !! path = Some (Spider.File data now)) as Hwrite.
  { intros data m. split; [|by rewrite lookup_insert_eq].
    intros other Hother. by rewrite !lookup_insert_ne. }
  destruct (Spider.self_cf_mode self).
  - destruct (Spider.self_bootstrap_mode self); [|by split].
    destruct auto_result as [st|]; [|by split].
    destruct (Spider.cookies st) eqn:Hcookies; [by split|].
    cbn [fst snd]. unfold Spider.fs_run, Spider.write_text.
    cbn [app fold_left Spider.fs_apply]. apply Hwrite.
  - destruct operator as [st|];
      cbn [Spider._manual_playwright_bootstrap fst snd]; [|by split].
    destruct (Spider.cookies st); unfold Spider.fs_run, Spider.write_text;
      cbn [app fold_left Spider.fs_apply].
    + apply Hwrite.
    + destruct (Hwrite (dumps st) fs) as [Hother Hpath].
      destruct (Hwrite (dumps st)
                  (<[path := Spider.File (dumps st) now]>
                     (<[path := Spider.File "" now]> fs))) as [Hother' Hpath'].
      split; [|done]. intros other Hne. by rewrite Hother', Hother.
Qed.

(** ** [_normalize_same_site] *)

Section same_site.
Implicit Types (s : string) (c : ascii).



Lemma lower_empty s : Py.lower s = "" ↔ s = "".
Proof. by destruct s. Qed.
End same_site.


(** ** The cookies of the storage state *)

Section cookies.
Implicit Types (cookie d : list (string * Pipelines.json))
  (cookies : list (list (string * Pipelines.json))) (out : list Pipelines.json).

Lemma or_else_truthy (value : option Pipelines.json) (fallback : Pipelines.json) :
  Pipelines.truthy fallback = true →
  Pipelines.truthy (Bootstrap.or_else value fallback) = true.
Proof.
  intros Hfallback. unfold Bootstrap.or_else.
  destruct value as [v|]; [|done]. by destruct (Pipelines.truthy v) eqn:Hv.
Qed.

Lemma normalize_same_site_range (value : option string) :
  Pipelines.JStr (Spider._normalize_same_site value) ∈ Bootstrap.same_site_values.
Proof.
  unfold Spider._normalize_same_site, Bootstrap.same_site_values.
  destruct value as [[|c v]|]; [set_solver| |set_solver].
  destruct (Py.occurs "strict" _); [set_solver|].
  destruct (Py.occurs "lax" _); set_solver.
Qed.

Lemma same_site_range (value : option Pipelines.json) site :
  Bootstrap.same_site value = Some site →
  Pipelines.JStr site ∈ Bootstrap.same_site_values.
Proof.
  unfold Bootstrap.same_site. destruct value as [v|].
  - destruct (Pipelines.truthy v).
    + destruct v as [| | |s| |]; try done. intros [= <-].
      exact (normalize_same_site_range (Some s)).
    + intros [= <-]. unfold Bootstrap.same_site_values. set_solver.
  - intros [= <-]. exact (normalize_same_site_range None).
Qed.

Lemma format_cookie_valid cookie d :
  Bootstrap.named cookie = true →
  Bootstrap.format_cookie cookie = Some d →
  d.*1 = Bootstrap.cookie_keys
  ∧ Pipelines.dict_get "name" d = Pipelines.dict_get "name" cookie
  ∧ Pipelines.dict_get "value" d = Pipelines.dict_get "value" cookie
  ∧ Pipelines.truthy (default Pipelines.JNull (Pipelines.dict_get "name" d)) = true
  ∧ Pipelines.truthy (default Pipelines.JNull (Pipelines.dict_get "value" d)) = true
  ∧ Pipelines.truthy (default Pipelines.JNull (Pipelines.dict_get "domain" d)) = true
  ∧ Pipelines.truthy (default Pipelines.JNull (Pipelines.dict_get "path" d)) = true
  ∧ default Pipelines.JNull (Pipelines.dict_get "sameSite" d)
    ∈ Bootstrap.same_site_values.
Proof.
  unfold Bootstrap.named, Bootstrap.format_cookie.
  intros [Hname Hvalue]%andb_true_iff.
  destruct (Bootstrap.same_site _) as [site|] eqn:Hsite; [|done].
  cbn [mbind option_bind]. intros Heq. apply (inj Some) in Heq. subst d.
  apply same_site_range in Hsite.
  split_and!; try done.
  - cbn. by destruct (Pipelines.dict_get "name" cookie).
  - cbn. by destruct (Pipelines.dict_get "value" cookie).
  - cbn. by apply or_else_truthy.
  - cbn. by apply or_else_truthy.
Qed.

Lemma mapM_Forall2 {A B} (f : A → option B) (P : A → Prop) (l : list A)
    (out : list B) :
  mapM f l = Some out → Forall P l →
  Forall2 (λ x y, f x = Some y ∧ P x) l out.
Proof.
  intros Hout%mapM_Some. induction Hout as [|x y l out Hxy _ IH]; [constructor|].
  intros [Hx Hl]%Forall_cons. constructor; [done|by apply IH].
Qed.

Lemma filter_named cookies :
  Forall (λ cookie, Bootstrap.named cookie = true)
    (List.filter Bootstrap.named cookies).
Proof.
  induction cookies as [|cookie cookies IH]; [constructor|].
  simpl. destruct (Bootstrap.named cookie) eqn:Hnamed; [by constructor|done].
Qed.
End cookies.

(** X21. In the storage state that [_auto_bootstrap] returns, the
    cookies are those of the browser that have a name and a value, in
    order; each has the eight fields of a Playwright cookie, its name and
    value as the browser gave them, a domain and a path that are not
    empty, and [Strict], [Lax] or [None] as [sameSite].  The list is empty
    exactly when no cookie has a name and a value. *)
Theorem bootstrap_cookies_valid
    (cookies : list (list (string * Pipelines.json)))
    (state : list (string * Pipelines.json)) :
  Bootstrap._auto_bootstrap (Some cookies) = Some state →
  ∃ out,
    state.*1 = ["cookies"; "origins"]
    ∧ Pipelines.dict_get "cookies" state = Some (Pipelines.JList out)
    ∧ Forall2
        (λ cookie j,
           ∃ d, j = Pipelines.JDict d
                ∧ d.*1 = Bootstrap.cookie_keys
                ∧ Pipelines.dict_get "name" d = Pipelines.dict_get "name" cookie
                ∧ Pipelines.dict_get "value" d = Pipelines.dict_get "value" cookie
                ∧ Pipelines.truthy
                    (default Pipelines.JNull (Pipelines.dict_get "name" d)) = true
                ∧ Pipelines.truthy
                    (default Pipelines.JNull (Pipelines.dict_get "value" d)) = true
                ∧ Pipelines.truthy
                    (default Pipelines.JNull (Pipelines.dict_get "domain" d)) = true
                ∧ Pipelines.truthy
                    (default Pipelines.JNull (Pipelines.dict_get "path" d)) = true
                ∧ default Pipelines.JNull (Pipelines.dict_get "sameSite" d)
                  ∈ Bootstrap.same_site_values)
        (List.filter Bootstrap.named cookies) out
    ∧ (Pipelines.truthy (Pipelines.JList out) = false
       ↔ Forall (λ cookie, Bootstrap.named cookie = false) cookies).
Proof.
  unfold Bootstrap._auto_bootstrap, Bootstrap.formatted.
  destruct (mapM _ _) as [out|] eqn:Hout; [|done].
  cbn [mbind option_bind]. intros Heq. apply (inj Some) in Heq. subst state.
  exists out. split_and!; [done|done| |].
  - eapply Forall2_impl; [exact (mapM_Forall2 _ _ _ _ Hout (filter_named cookies))|].
    intros cookie j [Hformat Hnamed]. cbn beta in Hformat.
    destruct (Bootstrap.format_cookie cookie) as [d|] eqn:Hd; [|done].
    injection Hformat as <-. exists d. split; [done|].
    by apply format_cookie_valid.
  - apply mapM_Some, Forall2_length in Hout.
    assert (out = [] ↔ List.filter Bootstrap.named cookies = []) as Hnil.
    { split; intros Hnil; rewrite Hnil in Hout; simpl in Hout.
      - by destruct (List.filter _ _).
      - by destruct out. }
    assert (Pipelines.truthy (Pipelines.JList out) = false ↔ out = []) as ->
      by (by destruct out).
    rewrite Hnil. clear. induction cookies as [|cookie cookies IH]; [done|].
    simpl. destruct (Bootstrap.named cookie) eqn:Hnamed.
    + split; [done|]. intros [? _]%Forall_cons. congruence.
    + rewrite IH. split; [by constructor|by intros [_ ?]%Forall_cons].
Qed.

(** ** The topic files *)

Section topic_files.
Implicit Types (posts : list (string * list (string * Pipelines.json)))
  (d payload : list (string * Pipelines.json)) (existing : Pipelines.json).

Lemma stored_records_base existing (old : list Pipelines.json) :
  Pipelines.stored_records existing "posts" = Some old →
  (if Pipelines.truthy existing
   then match existing with Pipelines.JDict d => Some d | _ => None end
   else Some [])
  = Some (match existing with
          | Pipelines.JDict d => if Pipelines.truthy existing then d else []
          | _ => []
          end).
Proof.
  unfold Pipelines.stored_records.
  destruct (Pipelines.truthy existing) eqn:Htruthy; [|by destruct existing].
  by destruct existing.
Qed.

Lemma sorted_length {A} (key : A → option (Z * string)) (xs out : list A) :
  Pipelines.sorted key xs = Some out → length out = length xs.
Proof.
  intros (keyed & _ & _ & _ & Hperm)%sorted_keyed. by rewrite Hperm.
Qed.
End topic_files.

(** X22. The loaded topic file being [existing] with the posts [old], and
    the buffered posts being keyed by their [post_id], the flush writes a
    topic file whose posts are, for each [post_id], the buffered post when
    there is one and else the stored post, each [post_id] once, in
    strictly increasing order of [(position, post_id)]; [posts_total] is
    the number of posts listed. *)
Theorem topic_posts_merge (now board topic : string)
    (posts : list (string * list (string * Pipelines.json)))
    (existing : Pipelines.json) (old : list Pipelines.json) :
  Pipelines.keyed_by "post_id" posts →
  Forall (λ kp, is_Some (Pipelines.post_key (Pipelines.JDict kp.2))) posts →
  Pipelines.stored_records existing "posts" = Some old →
  Forall (λ x, is_Some (Pipelines.post_key x)) old →
  ∃ ordered keys,
    Pipelines.topic_posts_payload now board topic posts existing
    = Some (Pipelines.dict_update
              (match existing with
               | Pipelines.JDict d => if Pipelines.truthy existing then d else []
               | _ => []
               end)
              [("board_id", Pipelines.JStr board);
               ("topic_id", Pipelines.JStr topic);
               ("posts_total", Pipelines.JInt (Z.of_nat (length ordered)));
               ("updated_at", Pipelines.JStr now);
               ("posts", Pipelines.JList ordered)])
    ∧ (∀ id, Pipelines.first_with_id "post_id" id ordered
             = match Pipelines.dict_get id posts with
               | Some p => Some (Pipelines.JDict p)
               | None => Pipelines.last_with_id "post_id" id old
               end)
    ∧ NoDup (Pipelines.record_id "post_id" <$> ordered)
    ∧ Forall2 (λ x k, Pipelines.post_key x = Some k) ordered keys
    ∧ StronglySorted (λ a b, Pipelines.key_lt a b = true) keys.
Proof.
  intros Hbuf Hbuf_keys Hold Hold_keys.
  destruct (merge_records "posts" "position" "post_id" existing old posts
              Hbuf Hbuf_keys Hold Hold_keys)
    as (st & ordered & keys & Hst & Hordered & Hfirst & Hnd & Hkeys & Hsorted).
  exists ordered, keys. split_and!; [|done..].
  unfold Pipelines.topic_posts_payload. rewrite Hst. cbn [mbind option_bind].
  rewrite (stored_records_base existing old Hold). cbn [mbind option_bind].
  unfold Pipelines.post_key. rewrite Hordered. cbn [mbind option_bind].
  apply sorted_length in Hordered. unfold Pipelines.dict_values in Hordered.
  rewrite length_fmap in Hordered. by rewrite Hordered.
Qed.

(** X23. A topic file that already exists is updated, not rebuilt: the
    flush writes its five fields and leaves every other field of the
    stored document as it is. *)
Theorem topic_file_keeps_other_fields (now board topic : string)
    (posts : list (string * list (string * Pipelines.json)))
    (existing : Pipelines.json) (payload : list (string * Pipelines.json)) :
  Pipelines.topic_posts_payload now board topic posts existing = Some payload →
  (∀ k, k ∉ Pipelines.topic_file_fields →
     Pipelines.dict_get k payload
     = if Pipelines.truthy existing then Pipelines.subscript existing k else None)
  ∧ Pipelines.dict_get "board_id" payload = Some (Pipelines.JStr board)
  ∧ Pipelines.dict_get "topic_id" payload = Some (Pipelines.JStr topic)
  ∧ Pipelines.dict_get "updated_at" payload = Some (Pipelines.JStr now)
  ∧ ∃ ordered,
      Pipelines.dict_get "posts" payload = Some (Pipelines.JList ordered)
      ∧ Pipelines.dict_get "posts_total" payload
        = Some (Pipelines.JInt (Z.of_nat (length ordered))).
Proof.
  unfold Pipelines.topic_posts_payload.
  destruct (Pipelines.stored_by_id existing "posts" "post_id") as [st|];
    [|done].
  cbn [mbind option_bind].
  destruct (if Pipelines.truthy existing then _ else _) as [base|] eqn:Hbase;
    [|done].
  cbn [mbind option_bind].
  destruct (Pipelines.sorted Pipelines.post_key _) as [ordered|] eqn:Hordered;
    [|done].
  cbn [mbind option_bind]. intros Heq. apply (inj Some) in Heq. subst payload.
  assert (∀ k, (if Pipelines.truthy existing then Pipelines.subscript existing k
                else None) = Pipelines.dict_get k base) as Hsub.
  { intros k. destruct (Pipelines.truthy existing).
    - destruct existing; try done. by injection Hbase as ->.
    - by injection Hbase as <-. }
  apply sorted_length in Hordered. unfold Pipelines.dict_values in Hordered.
  rewrite length_fmap in Hordered.
  split; [|split_and!].
  - intros k Hk. rewrite dict_get_update, Hsub.
    unfold Pipelines.topic_file_fields in Hk.
    cbn. repeat (case_decide; [subst; set_solver|]). done.
  - by rewrite dict_get_update.
  - by rewrite dict_get_update.
  - by rewrite dict_get_update.
  - exists ordered. rewrite !dict_get_update. cbn. by rewrite Hordered.
Qed.


(** ** What the flush reads and what it leaves alone *)

Section flush_reads.
Variable clock : nat → string.
Implicit Types (self : Pipelines.pipeline) (d e : Pipelines.disk)
  (s : Pipelines.disk * nat) (existing : Pipelines.json).





Local Abbreviation alike := Pipelines.alike.



Lemma alike_sym d1 d2 s1 s2 : alike d1 d2 s1 s2 → alike d2 d1 s2 s1.
Proof.
  intros [Hticks Hfiles]. split; [done|]. intros p.
  destruct (Hfiles p) as [?|(? & ? & ? & ?)]; [by left|by right].
Qed.




End flush_reads.


(** ** A run of the pipeline *)

Section run_facts.
Variable clock : nat → string.
Implicit Types (self : Pipelines.pipeline) (it : Pipelines.item)
  (items : list Pipelines.item) (d : Pipelines.disk).








End run_facts.



(** ** Runs that read what earlier runs wrote *)

Section readable.
Variable clock : nat → string.
Implicit Types (self : Pipelines.pipeline) (it : Pipelines.item)
  (items : list Pipelines.item) (d : Pipelines.disk)
  (p payload : list (string * Pipelines.json)).

Local Abbreviation sortable key :=
  (Forall (λ kp : string * list (string * Pipelines.json),
             is_Some ((key : Pipelines.json → option (Z * string))
                        (Pipelines.JDict kp.2)))).

Local Abbreviation ready self :=
  (Pipelines.buffers_keyed self
   ∧ Forall (λ e, sortable Pipelines.topic_key e.2) (Pipelines.topic_summaries self)
   ∧ Forall (λ e, sortable Pipelines.post_key e.2) (Pipelines.topic_posts self)).










End readable.


(** ** The further properties at concrete inputs *)

(** X1, at a concrete input: a statistics cell with spaces and a line
    break. *)
Lemma normalize_space_joins_words_witness :
  Utils.normalize_space Examples.isspace " "%char Examples.stats_cell
  = Utils.join_spaced " "%char (Utils.words Examples.isspace Examples.stats_cell).
Proof. apply normalize_space_joins_words. reflexivity. Defined.

Example normalize_space_ex :
  Utils.normalize_space Examples.isspace " "%char Examples.stats_cell
  = list_ascii_of_string "12 Posts 3 Topics".
Proof. reflexivity. Qed.

(** X2, at a concrete input: the normalized cell is a fixed point. *)
Lemma normalize_space_normal_witness :
  Utils.normalize_space Examples.isspace " "%char
    (Utils.normalize_space Examples.isspace " "%char Examples.stats_cell)
  = Utils.normalize_space Examples.isspace " "%char Examples.stats_cell.
Proof.
  exact (proj2 (proj2 (normalize_space_normal Examples.isspace " "%char
                         Examples.stats_cell eq_refl))).
Defined.

Example parse_board_id_ex :
  Utils.parse_board_id Examples.first_value "index.php?board=8.25;sort=views"
  = Some "8"
  ∧ Utils.parse_board_id Examples.first_value "index.php#board=12.0" = Some "12"
  ∧ Utils.parse_board_id Examples.first_value "index.php?board=.5" = None.
Proof. by vm_compute. Qed.

(** X7, at a concrete input: the offsets 0, 25, 50. *)
Lemma detect_step_even_spacing_witness :
  Utils.detect_step
    (list_to_set ((λ i : nat, 25 * Z.of_nat i) <$> seq 0 3)) 0 = 25.
Proof. apply (detect_step_even_spacing 25 2 0); lia. Defined.

(** X8, at a concrete input: the first board page, challenged. *)
Lemma challenged_response_not_counted_witness :
  ∃ self' outs,
    Spider.handle Examples.first_value Examples.spider Examples.challenged_response
    = Some (self', outs)
    ∧ Forall (λ o, Spider.is_item o = false) outs
    ∧ (length outs ≤ 1)%nat
    ∧ Spider.topic_seen self' = Spider.topic_seen Examples.spider
    ∧ Spider.board_pages_processed self'
      = Spider.board_pages_processed Examples.spider
    ∧ Spider.board_metadata_emitted self'
      = Spider.board_metadata_emitted Examples.spider.
Proof. apply challenged_response_not_counted. reflexivity. Defined.



Example board_pagination_ex :
  (λ r, Spider.req_url r)
    <$> Spider.board_requests
          (Spider.parse_board Examples.first_value Examples.spider
             (Spider.Response 200 "index.php?board=8.0" Examples.start_request
                Examples.board_page_1)).2
  = [Spider.BoardUrl "8" 25].
Proof. by vm_compute. Qed.

(** X12, at a concrete input: the first page of topic 101, with an anchor
    to offset 5. *)
Lemma topic_pagination_advances_witness :
  ∃ pages,
    Spider.parse_topic Examples.first_value Examples.spider Examples.topic_response
    = Some (Examples.spider,
            (Spider.YieldPost
               <$> Spider._extract_posts (Examples.topic_page_linked "5") "8" "101"
                     0 "index.php?topic=101.0")
            ++ (Spider.YieldRequest <$> pages))
    ∧ (length pages ≤ 1)%nat.
Proof.
  destruct (topic_pagination_advances Examples.first_value Examples.spider
              Examples.topic_response "101" "8" eq_refl eq_refl eq_refl)
    as (pages & Hparse & Hlength & _).
  exists pages. split; [exact Hparse|exact Hlength].
Defined.

Example topic_pagination_ex :
  (λ r, (Spider.req_url r, Spider.pages_seen (Spider.keys (Spider.req_meta r))))
    <$> Spider.requests_of
          (default (Examples.spider, [])
             (Spider.parse_topic Examples.first_value Examples.spider
                Examples.topic_response)).2
  = [(Spider.TopicUrl "101" 5, Some 1)].
Proof. by vm_compute. Qed.


(** X14, at a concrete input: three topics listed, with a limit of
    two. *)
Lemma topics_bounded_witness :
  (length (Spider.summarized_topics
             (Spider.run_boards Examples.first_value Examples.limited_spider
                Examples.board_responses).2) ≤ 2)%nat.
Proof.
  exact (proj2 (topics_bounded Examples.first_value Examples.limited_spider
                  Examples.board_responses 2 eq_refl ltac:(lia))).
Defined.

Example topics_bounded_ex :
  Spider.summarized_topics
    (Spider.run_boards Examples.first_value Examples.limited_spider
       Examples.board_responses).2 = ["101"; "102"].
Proof. by vm_compute. Qed.


(** X17, at a concrete input: three pages of topic 101, with a limit of
    two pages. *)
Lemma topic_pages_bounded_witness :
  (length (Spider.requests_of
             (Spider.follow Examples.first_value Examples.limited_spider
                Examples.topic_request Examples.topic_answers).2) ≤ 1)%nat.
Proof.
  apply (topic_pages_bounded Examples.first_value Examples.limited_spider
           Examples.topic_request Examples.topic_answers 2);
    [reflexivity|lia|reflexivity|].
  unfold Examples.topic_answers, Spider.passed.
  repeat (apply Forall_cons_2; [simpl; lia|]). apply Forall_nil_2.
Defined.

Example topic_pages_ex :
  length (Spider.requests_of
            (Spider.follow Examples.first_value Examples.spider
               Examples.topic_request Examples.topic_answers).2) = 2%nat
  ∧ length (Spider.posts_of
              (Spider.follow Examples.first_value Examples.limited_spider
                 Examples.topic_request Examples.topic_answers).2) = 4%nat.
Proof. by vm_compute. Qed.

(** X18, at a concrete input: the second page of topic 101, challenged
    with one page seen. *)
Lemma retry_restarts_page_count_witness :
  ∃ retry,
    (Spider._retry_with_new_context Examples.spider
       Examples.challenged_topic_response).2 = Some retry
    ∧ Spider.pages_seen (Spider.keys (Spider.req_meta retry)) = None.
Proof.
  eexists. split; [reflexivity|].
  exact (f_equal Spider.pages_seen
           (proj1 (retry_restarts_page_count Examples.first_value Examples.spider
                     Examples.challenged_topic_response _ eq_refl))).
Defined.


(** X22, at a concrete input: the posts 5002 (edited) and 5003 merged into
    a topic file with 5001 and 5002. *)
Lemma topic_posts_merge_witness :
  ∃ ordered keys,
    Pipelines.topic_posts_payload "t1" "8" "101" Examples.new_posts
      Examples.existing_topic_file
    = Some (Pipelines.dict_update
              (match Examples.existing_topic_file with
               | Pipelines.JDict d =>
                   if Pipelines.truthy Examples.existing_topic_file then d else []
               | _ => []
               end)
              [("board_id", Pipelines.JStr "8");
               ("topic_id", Pipelines.JStr "101");
               ("posts_total", Pipelines.JInt (Z.of_nat (length ordered)));
               ("updated_at", Pipelines.JStr "t1");
               ("posts", Pipelines.JList ordered)])
    ∧ (∀ id, Pipelines.first_with_id "post_id" id ordered
             = match Pipelines.dict_get id Examples.new_posts with
               | Some p => Some (Pipelines.JDict p)
               | None =>
                   Pipelines.last_with_id "post_id" id
                     [Examples.stored_post 1 "5001" "one";
                      Examples.stored_post 2 "5002" "two"]
               end)
    ∧ NoDup (Pipelines.record_id "post_id" <$> ordered)
    ∧ Forall2 (λ x k, Pipelines.post_key x = Some k) ordered keys
    ∧ StronglySorted (λ a b, Pipelines.key_lt a b = true) keys.
Proof.
  apply (topic_posts_merge "t1" "8" "101" Examples.new_posts
           Examples.existing_topic_file
           [Examples.stored_post 1 "5001" "one";
            Examples.stored_post 2 "5002" "two"]).
  - split.
    + apply (bool_decide_unpack _). vm_compute. exact I.
    + repeat (apply Forall_cons_2; [reflexivity|]). apply Forall_nil_2.
  - repeat (apply Forall_cons_2; [eexists; reflexivity|]). apply Forall_nil_2.
  - reflexivity.
  - repeat (apply Forall_cons_2; [eexists; reflexivity|]). apply Forall_nil_2.
Defined.

Example topic_posts_merge_ex :
  Pipelines.topic_posts_payload "t1" "8" "101" Examples.new_posts
    Examples.existing_topic_file
  = Some [("board_id", Pipelines.JStr "8");
          ("topic_id", Pipelines.JStr "101");
          ("posts_total", Pipelines.JInt 3);
          ("updated_at", Pipelines.JStr "t1");
          ("posts",
           Pipelines.JList
             [Examples.stored_post 1 "5001" "one";
              Pipelines.JDict
                (Examples.post_fields 2 "5002" "two, edited"
                 ++ [("fetched_at", Pipelines.JStr "t1")]);
              Pipelines.JDict
                (Examples.post_fields 3 "5003" "three"
                 ++ [("fetched_at", Pipelines.JStr "t1")])]);
          ("note", Pipelines.JStr "checked")].
Proof. by vm_compute. Qed.

(** X23, at a concrete input: the field [note] of the stored topic file
    is kept. *)
Lemma topic_file_keeps_other_fields_witness :
  ∃ payload,
    Pipelines.topic_posts_payload "t1" "8" "101" Examples.new_posts
      Examples.existing_topic_file = Some payload
    ∧ Pipelines.dict_get "note" payload = Some (Pipelines.JStr "checked").
Proof.
  eexists. split; [vm_compute; reflexivity|].
  refine (eq_trans
            (proj1 (topic_file_keeps_other_fields "t1" "8" "101" Examples.new_posts
                      Examples.existing_topic_file _ _) "note" _) _).
  - vm_compute. reflexivity.
  - apply (bool_decide_unpack _). vm_compute. exact I.
  - reflexivity.
Defined.






(** X21, at a concrete input: a cookie with a name and a value, and one
    without a name. *)
Lemma bootstrap_cookies_valid_witness :
  ∃ state out,
    Bootstrap._auto_bootstrap (Some Examples.browser_cookies) = Some state
    ∧ Pipelines.dict_get "cookies" state = Some (Pipelines.JList out)
    ∧ length out = 1%nat.
Proof.
  destruct (Bootstrap._auto_bootstrap (Some Examples.browser_cookies))
    as [state|] eqn:Hstate; [|by vm_compute in Hstate].
  destruct (bootstrap_cookies_valid Examples.browser_cookies state Hstate)
    as (out & _ & Hcookies & Hall & _).
  exists state, out. split_and!; [done|done|].
  apply Forall2_length in Hall. rewrite <-Hall. reflexivity.
Defined.

Example bootstrap_cookies_ex :
  Bootstrap.formatted Examples.browser_cookies
  = Some [Pipelines.JDict
            [("name", Pipelines.JStr "cf_clearance");
             ("value", Pipelines.JStr "abc");
             ("domain", Pipelines.JStr ".dansdeals.com");
             ("path", Pipelines.JStr "/");
             ("expires", Pipelines.JInt (-1));
             ("httpOnly", Pipelines.JBool false);
             ("secure", Pipelines.JBool true);
             ("sameSite", Pipelines.JStr "Lax")]].
Proof. by vm_compute. Qed.

